(** * Karaoke room/queue synchronisation core

    A shallow embedding of the server of the karaoke queue application:
    the relational schema ([shared/schema.ts]), the storage layer
    ([server/storage.ts], class [DatabaseStorage]) and the request and
    real-time handlers ([server/routes.ts]).

    Conventions of the embedding.
    - The two tables are lists of rows in insertion order.
    - [await] points are not modelled: every handler runs to completion
      before the next event is taken, so the theorems speak about
      sequences of whole operations.
    - Values the environment chooses (the identifier the database
      generates for an inserted row, the numbers returned by
      [Math.random]) are arguments of the operation that consumes them.
    - Strings are byte strings. [toUpperCase] and [toLowerCase] are
      JavaScript's on ASCII strings ([is_ascii]); a theorem that goes
      through them assumes an ASCII argument or a code that resolves to
      a generated room code.
    - The database refuses text that holds the character NUL, in a row
      to insert and in a query parameter alike. The inserts model the
      refusal; where the answer to a client's string that matches no
      row matters, the theorem assumes the string [storable] or takes
      it from a generated code.
    - The timestamp columns, which no handler reads, are left out. *)

From Stdlib Require Import String Ascii List ZArith Bool Arith Lia Sorted Permutation.
From Stdlib Require Import NArith DecimalString DecimalN.
Import ListNotations.
Local Open Scope string_scope.
Local Open Scope list_scope.

(** ** Schema *)

Module Schema.

(** The two values the server ever writes to [queue_items.status]. *)
Inductive Status : Set := waiting | playing.

Definition Status_eqb (a b : Status) : bool :=
  match a, b with
  | waiting, waiting | playing, playing => true
  | _, _ => false
  end.

(** Row of table [rooms]. *)
Record Room : Set := mkRoom {
  room_id : string;
  code : string;
  currentVideoId : option string;
  currentVideoTitle : option string;
  currentVideoThumbnail : option string;
  isPlaying : bool
}.

(** Row of table [queue_items]. *)
Record QueueItem : Set := mkQueueItem {
  item_id : string;
  roomId : string;
  videoId : string;
  title : string;
  thumbnail : string;
  channelTitle : option string;
  duration : option string;
  position : Z;
  status : Status
}.

(** [InsertRoom]: a room without its generated columns. *)
Record InsertRoom : Set := mkInsertRoom {
  ins_code : string;
  ins_currentVideoId : option string;
  ins_currentVideoTitle : option string;
  ins_currentVideoThumbnail : option string;
  ins_isPlaying : bool
}.

(** [InsertQueueItem]: a queue item without its generated columns. *)
Record InsertQueueItem : Set := mkInsertQueueItem {
  ins_roomId : string;
  ins_videoId : string;
  ins_title : string;
  ins_thumbnail : string;
  ins_channelTitle : option string;
  ins_duration : option string;
  ins_position : Z;
  ins_status : Status
}.

(** [Partial<Room>] as the handlers use it: each field is either left
    alone ([None]) or overwritten. *)
Record RoomUpdates : Set := mkRoomUpdates {
  set_currentVideoId : option (option string);
  set_currentVideoTitle : option (option string);
  set_currentVideoThumbnail : option (option string);
  set_isPlaying : option bool
}.

(** [Partial<QueueItem>] as the handlers use it: only [status]. *)
Record QueueItemUpdates : Set := mkQueueItemUpdates {
  set_status : option Status
}.

(** Messages the server sends on the real-time channel. *)
Inductive ServerMsg : Set :=
| room_state (room : Room) (queue : list QueueItem)
| queue_updated (queue : list QueueItem)
| song_added (song : QueueItem)
| song_removed (songId : string)
| playback_state (playing_flag : bool)
| current_song (video_id video_title video_thumbnail : option string)
| error (message : string).

(** What [JSON.parse] yields for a client frame that is an object: its
    [type] tag and, for [join_room], its [roomCode]. *)
Record WSMessage : Set := mkWSMessage {
  type : string;
  roomCode : string
}.

(** Range of the [integer] column type. *)
Definition int4_max : Z := 2147483647.

End Schema.
Import Schema.

(** ** JavaScript helpers *)

(** Strings of ASCII characters only. On these, [toUpperCase] and
    [toLowerCase] below agree with [String.prototype.toUpperCase] and
    [toLowerCase], which map further characters outside ASCII (U+017F
    to [S], for one). *)
Definition is_ascii (s : string) : bool :=
  forallb (fun c => (nat_of_ascii c <? 128)%nat) (list_ascii_of_string s).

Definition toUpperCase_ascii (c : ascii) : ascii :=
  let n := nat_of_ascii c in
  if (97 <=? n)%nat && (n <=? 122)%nat then ascii_of_nat (n - 32) else c.

Fixpoint toUpperCase (s : string) : string :=
  match s with
  | EmptyString => EmptyString
  | String c s' => String (toUpperCase_ascii c) (toUpperCase s')
  end.

Definition toLowerCase_ascii (c : ascii) : ascii :=
  let n := nat_of_ascii c in
  if (65 <=? n)%nat && (n <=? 90)%nat then ascii_of_nat (n + 32) else c.

Fixpoint toLowerCase (s : string) : string :=
  match s with
  | EmptyString => EmptyString
  | String c s' => String (toLowerCase_ascii c) (toLowerCase s')
  end.

(** [s.charAt(i)]: the one-character string at [i], or the empty string. *)
Definition charAt (s : string) (i : nat) : string :=
  match String.get i s with
  | Some c => String c EmptyString
  | None => EmptyString
  end.

(** [Math.max(x, ...xs)]. *)
Definition Math_max (x : Z) (xs : list Z) : Z := fold_left Z.max xs x.

(** Truthiness of a string: [!s] holds of the empty string only. *)
Definition truthy (s : string) : bool := negb (s =? "").

(** [a || null] on an optional string. *)
Definition or_null (a : option string) : option string :=
  match a with
  | Some s => if truthy s then Some s else None
  | None => None
  end.

(** ** Storage layer: [DatabaseStorage] *)

Module DatabaseStorage.

Record Db : Set := mkDb {
  rooms : list Room;
  queueItems : list QueueItem
}.

Definition empty : Db := mkDb [] [].

(** [ORDER BY position ASC], as a stable insertion sort: rows of equal
    position, which the database may return in either order, stay in
    insertion order. (Operations served one at a time never produce two
    rows of one room with the same position.) *)
Fixpoint insert_by_position (q : QueueItem) (l : list QueueItem) : list QueueItem :=
  match l with
  | [] => [q]
  | x :: l' =>
      if (position q <=? position x)%Z then q :: x :: l'
      else x :: insert_by_position q l'
  end.

Fixpoint orderBy_position (l : list QueueItem) : list QueueItem :=
  match l with
  | [] => []
  | q :: l' => insert_by_position q (orderBy_position l')
  end.

Definition apply_room_updates (u : RoomUpdates) (r : Room) : Room :=
  mkRoom (room_id r) (code r)
    (match set_currentVideoId u with Some v => v | None => currentVideoId r end)
    (match set_currentVideoTitle u with Some v => v | None => currentVideoTitle r end)
    (match set_currentVideoThumbnail u with Some v => v | None => currentVideoThumbnail r end)
    (match set_isPlaying u with Some v => v | None => isPlaying r end).

Definition apply_item_updates (u : QueueItemUpdates) (q : QueueItem) : QueueItem :=
  mkQueueItem (item_id q) (roomId q) (videoId q) (title q) (thumbnail q)
    (channelTitle q) (duration q) (position q)
    (match set_status u with Some v => v | None => status q end).

(** Text the database can store: PostgreSQL refuses a [text] value that
    holds the character NUL. *)
Definition storable (s : string) : bool :=
  forallb (fun c => negb (Ascii.eqb c Ascii.zero)) (list_ascii_of_string s).

Definition storable_or_null (s : option string) : bool :=
  match s with
  | Some s => storable s
  | None => true
  end.

(** The text columns of the rows handed to the two inserts. *)
Definition room_storable (insertRoom : InsertRoom) : bool :=
  storable (ins_code insertRoom)
  && storable_or_null (ins_currentVideoId insertRoom)
  && storable_or_null (ins_currentVideoTitle insertRoom)
  && storable_or_null (ins_currentVideoThumbnail insertRoom).

Definition item_storable (item : InsertQueueItem) : bool :=
  storable (ins_videoId item) && storable (ins_title item)
  && storable (ins_thumbnail item)
  && storable_or_null (ins_channelTitle item)
  && storable_or_null (ins_duration item).

(** [createRoom]. The insert is refused ([None]) when the generated
    identifier or the code is already taken (primary key and unique
    constraint of [rooms]), or when a text value cannot be stored. *)
Definition createRoom (d : Db) (gen_random_uuid : string) (insertRoom : InsertRoom)
  : option (Room * Db) :=
  if existsb (fun r => (room_id r =? gen_random_uuid) || (code r =? ins_code insertRoom)) (rooms d)
     || negb (room_storable insertRoom)
  then None
  else
    let room := mkRoom gen_random_uuid (ins_code insertRoom)
                  (ins_currentVideoId insertRoom) (ins_currentVideoTitle insertRoom)
                  (ins_currentVideoThumbnail insertRoom) (ins_isPlaying insertRoom) in
    Some (room, mkDb (rooms d ++ [room]) (queueItems d)).

Definition getRoomByCode (d : Db) (c : string) : option Room :=
  find (fun r => code r =? c) (rooms d).

Definition getRoom (d : Db) (id : string) : option Room :=
  find (fun r => room_id r =? id) (rooms d).

Definition updateRoom (d : Db) (id : string) (updates : RoomUpdates) : Db :=
  mkDb (map (fun r => if room_id r =? id then apply_room_updates updates r else r) (rooms d))
       (queueItems d).

(** [addToQueue]. The insert is refused ([None]) when the generated
    identifier is already taken (primary key), when no room has the
    item's [roomId] (foreign key), when the position does not fit the
    [integer] column, or when a text value cannot be stored. *)
Definition addToQueue (d : Db) (gen_random_uuid : string) (item : InsertQueueItem)
  : option (QueueItem * Db) :=
  if existsb (fun q => item_id q =? gen_random_uuid) (queueItems d)
     || negb (existsb (fun r => room_id r =? ins_roomId item) (rooms d))
     || (int4_max <? ins_position item)%Z
     || negb (item_storable item)
  then None
  else
    let queueItem := mkQueueItem gen_random_uuid (ins_roomId item) (ins_videoId item)
                       (ins_title item) (ins_thumbnail item) (ins_channelTitle item)
                       (ins_duration item) (ins_position item) (ins_status item) in
    Some (queueItem, mkDb (rooms d) (queueItems d ++ [queueItem])).

Definition getQueueByRoomId (d : Db) (rid : string) : list QueueItem :=
  orderBy_position (filter (fun q => roomId q =? rid) (queueItems d)).

Definition getNextInQueue (d : Db) (rid : string) : option QueueItem :=
  let queue := getQueueByRoomId d rid in
  let waitingItems := filter (fun item => Status_eqb (status item) waiting) queue in
  hd_error waitingItems.

Definition removeFromQueue (d : Db) (id : string) : Db :=
  mkDb (rooms d) (filter (fun q => negb (item_id q =? id)) (queueItems d)).

Definition updateQueueItem (d : Db) (id : string) (updates : QueueItemUpdates) : Db :=
  mkDb (rooms d)
       (map (fun q => if item_id q =? id then apply_item_updates updates q else q)
            (queueItems d)).

Definition clearQueue (d : Db) (rid : string) : Db :=
  mkDb (rooms d) (filter (fun q => negb (roomId q =? rid)) (queueItems d)).

Definition getMaxPosition (d : Db) (rid : string) : Z :=
  match map position (getQueueByRoomId d rid) with
  | [] => 0%Z
  | p :: ps => Math_max p ps
  end.

End DatabaseStorage.
Import DatabaseStorage.

(** ** Server state and the handler monad *)

(** A real-time connection is named by a number. *)
Definition WS : Set := nat.

(** The state the handlers of [routes.ts] act on: the database, the
    module-level map [roomConnections] (a [Map] from room id to a [Set]
    of sockets, both kept in insertion order), the [currentRoomId]
    variable of each connection's closure (absent means [null]) and the
    sockets whose [readyState] is not [OPEN]. *)
Record World : Set := mkWorld {
  db : Db;
  roomConnections : list (string * list WS);
  currentRoomId : list (WS * string);
  notOpen : list WS
}.

Definition initial : World := mkWorld DatabaseStorage.empty [] [] [].

(** A handler either completes with a value or throws; in both cases it
    leaves a state behind and has sent some messages, each to one socket. *)
Inductive Outcome (A : Type) : Type :=
| Return (a : A)
| Throw.
Arguments Return {A} a.
Arguments Throw {A}.

Definition Sent : Set := list (WS * ServerMsg).

Definition M (A : Type) : Type := World -> Outcome A * World * Sent.

Definition ret {A} (a : A) : M A := fun w => (Return a, w, []).

Definition bind {A B} (m : M A) (k : A -> M B) : M B :=
  fun w =>
    match m w with
    | (Return a, w1, out1) =>
        match k a w1 with
        | (r, w2, out2) => (r, w2, out1 ++ out2)
        end
    | (Throw, w1, out1) => (Throw, w1, out1)
    end.

Definition throw {A} : M A := fun w => (Throw, w, []).

(** [try { body } catch { handler }] *)
Definition try_catch {A} (body handler : M A) : M A :=
  fun w =>
    match body w with
    | (Return a, w1, out1) => (Return a, w1, out1)
    | (Throw, w1, out1) =>
        match handler w1 with
        | (r, w2, out2) => (r, w2, out1 ++ out2)
        end
    end.

Declare Scope handler_scope.
Delimit Scope handler_scope with handler.
Notation "x <- m ;; k" := (bind m (fun x => k))
  (at level 61, m at next level, right associativity) : handler_scope.
Notation "m ;; k" := (bind m (fun _ => k))
  (at level 61, right associativity) : handler_scope.
Local Open Scope handler_scope.

(** The state [w] with its database replaced by [d]. *)
Definition with_db (d : Db) (w : World) : World :=
  mkWorld d (roomConnections w) (currentRoomId w) (notOpen w).

(** *** The [storage] object seen from a handler *)

Module storage.

Definition createRoom (gen_random_uuid : string) (insertRoom : InsertRoom) : M Room :=
  fun w =>
    match DatabaseStorage.createRoom (db w) gen_random_uuid insertRoom with
    | Some (room, d) => (Return room, with_db d w, [])
    | None => (Throw, w, [])
    end.

Definition getRoomByCode (c : string) : M (option Room) :=
  fun w => (Return (DatabaseStorage.getRoomByCode (db w) c), w, []).

Definition getRoom (id : string) : M (option Room) :=
  fun w => (Return (DatabaseStorage.getRoom (db w) id), w, []).

Definition updateRoom (id : string) (updates : RoomUpdates) : M unit :=
  fun w => (Return tt, with_db (DatabaseStorage.updateRoom (db w) id updates) w, []).

Definition addToQueue (gen_random_uuid : string) (item : InsertQueueItem) : M QueueItem :=
  fun w =>
    match DatabaseStorage.addToQueue (db w) gen_random_uuid item with
    | Some (queueItem, d) => (Return queueItem, with_db d w, [])
    | None => (Throw, w, [])
    end.

Definition getQueueByRoomId (rid : string) : M (list QueueItem) :=
  fun w => (Return (DatabaseStorage.getQueueByRoomId (db w) rid), w, []).

Definition getNextInQueue (rid : string) : M (option QueueItem) :=
  fun w => (Return (DatabaseStorage.getNextInQueue (db w) rid), w, []).

Definition removeFromQueue (id : string) : M unit :=
  fun w => (Return tt, with_db (DatabaseStorage.removeFromQueue (db w) id) w, []).

Definition updateQueueItem (id : string) (updates : QueueItemUpdates) : M unit :=
  fun w => (Return tt, with_db (DatabaseStorage.updateQueueItem (db w) id updates) w, []).

Definition getMaxPosition (rid : string) : M Z :=
  fun w => (Return (DatabaseStorage.getMaxPosition (db w) rid), w, []).

End storage.

(** *** Connection registry *)

(** [Map] and [Set] of JavaScript, as lists in insertion order. *)
Definition Map_get {V : Set} (m : list (string * V)) (k : string) : option V :=
  match find (fun e => fst e =? k) m with
  | Some e => Some (snd e)
  | None => None
  end.

Definition Map_has {V : Set} (m : list (string * V)) (k : string) : bool :=
  existsb (fun e => fst e =? k) m.

Definition Map_set {V : Set} (m : list (string * V)) (k : string) (v : V) : list (string * V) :=
  if Map_has m k
  then map (fun e => if fst e =? k then (k, v) else e) m
  else m ++ [(k, v)].

Definition Map_delete {V : Set} (m : list (string * V)) (k : string) : list (string * V) :=
  filter (fun e => negb (fst e =? k)) m.

Definition Set_has (s : list WS) (ws : WS) : bool := existsb (Nat.eqb ws) s.

Definition Set_add (s : list WS) (ws : WS) : list WS :=
  if Set_has s ws then s else s ++ [ws].

Definition Set_delete (s : list WS) (ws : WS) : list WS :=
  filter (fun x => negb (x =? ws)%nat) s.

(** [ws.readyState === WebSocket.OPEN] *)
Definition readyState_OPEN (w : World) (ws : WS) : bool :=
  negb (existsb (Nat.eqb ws) (notOpen w)).

(** The value of [currentRoomId] in the closure of [ws]; [None] is [null]. *)
Definition get_currentRoomId (w : World) (ws : WS) : option string :=
  match find (fun e => (fst e =? ws)%nat) (currentRoomId w) with
  | Some e => Some (snd e)
  | None => None
  end.

(** [ws.send(JSON.stringify(msg))] *)
Definition ws_send (ws : WS) (msg : ServerMsg) : M unit :=
  fun w => (Return tt, w, [(ws, msg)]).

(** The sockets a broadcast to [rid] reaches, in order. *)
Definition recipients (w : World) (rid : string) (excludeWs : option WS) : list WS :=
  match Map_get (roomConnections w) rid with
  | None => []
  | Some connections =>
      filter (fun ws =>
                negb (match excludeWs with Some x => (ws =? x)%nat | None => false end)
                && readyState_OPEN w ws)
             connections
  end.

Definition broadcastToRoom (rid : string) (message : ServerMsg) (excludeWs : option WS) : M unit :=
  fun w => (Return tt, w, map (fun ws => (ws, message)) (recipients w rid excludeWs)).

(** [currentRoomId = id] in the closure of connection [ws]. *)
Definition assign_currentRoomId (ws : WS) (id : string) : M unit :=
  fun w =>
    (Return tt,
     mkWorld (db w) (roomConnections w)
       ((ws, id) :: filter (fun e => negb (fst e =? ws)%nat) (currentRoomId w))
       (notOpen w),
     []).

Definition read_currentRoomId (ws : WS) : M (option string) :=
  fun w => (Return (get_currentRoomId w ws), w, []).

(** [if (!roomConnections.has(id)) roomConnections.set(id, new Set());
     roomConnections.get(id)!.add(ws);] *)
Definition register_connection (id : string) (ws : WS) : M unit :=
  fun w =>
    let m := if Map_has (roomConnections w) id then roomConnections w
             else Map_set (roomConnections w) id [] in
    let m' := match Map_get m id with
              | Some s => Map_set m id (Set_add s ws)
              | None => m
              end in
    (Return tt, mkWorld (db w) m' (currentRoomId w) (notOpen w), []).

(** ** [routes.ts] *)

(** A frame received on a socket, as [JSON.parse(data.toString())]
    sees it. [Malformed] is text on which [JSON.parse] throws, or which
    parses to [null], so that reading [message.type] throws. [Json m] is
    any other value: [type m] is its [type] property (a value without
    one, or with one that is not among the cases of the [switch], is
    given a tag that matches no case), and [roomCode m] is a string, as
    the type [WSMessage] the value is cast to says. *)
Inductive Frame : Set :=
| Malformed
| Json (message : WSMessage).

Definition JSON_parse (data : Frame) : M WSMessage :=
  match data with
  | Malformed => throw
  | Json message => ret message
  end.

(** A property of a JSON request body. *)
Inductive Field : Set :=
| absent
| text (s : string)
| not_a_string.

(** Body of an add-to-queue request, before validation. *)
Record Body : Set := mkBody {
  body_videoId : Field;
  body_title : Field;
  body_thumbnail : Field;
  body_channelTitle : Field;
  body_duration : Field
}.

(** Result of a successful [addToQueueSchema.safeParse]. *)
Record AddToQueueData : Set := mkAddToQueueData {
  data_videoId : string;
  data_title : string;
  data_thumbnail : string;
  data_channelTitle : option string;
  data_duration : option string
}.

(** [z.string().min(1)]: a string of at least one character. *)
Definition string_min1 (a : Field) : option string :=
  match a with
  | text s => if (1 <=? String.length s)%nat then Some s else None
  | _ => None
  end.

(** [z.string().optional()]: a string or nothing; [None] when refused. *)
Definition string_optional (a : Field) : option (option string) :=
  match a with
  | absent => Some None
  | text s => Some (Some s)
  | not_a_string => None
  end.

(** [addToQueueSchema.safeParse(req.body)]: the parsed data, or [None]
    when [success] is false. *)
Definition addToQueueSchema_safeParse (b : Body) : option AddToQueueData :=
  match string_min1 (body_videoId b), string_min1 (body_title b),
        string_min1 (body_thumbnail b),
        string_optional (body_channelTitle b), string_optional (body_duration b) with
  | Some v, Some t, Some th, Some c, Some du => Some (mkAddToQueueData v t th c du)
  | _, _, _, _, _ => None
  end.

(** What a route answers: the JSON body of a 200 answer, or a status
    code with the [error] text of its body (the [details] of a 400 are
    left out). [pending] stands for a request whose retry loop has not
    finished with the random draws supplied. *)
Inductive Response : Set :=
| json_room (room : Room)
| json_room_queue (room : Room) (queue : list QueueItem)
| json_item (item : QueueItem)
| json_success
| status_error (statusCode : nat) (message : string)
| pending.

(** The alphabet of room codes. *)
Definition chars : string := "ABCDEFGHJKLMNPQRSTUVWXYZ23456789".

(** [Math.floor(Math.random() * chars.length)], from the raw draw [r]. *)
Definition random_index (r : nat) : nat := r mod String.length chars.

(** [generateRoomCode], reading its six random numbers from [random]. *)
Fixpoint generateRoomCode_from (i : nat) (random : list nat) (code : string) : string :=
  match i with
  | O => code
  | S i' =>
      generateRoomCode_from i' (tl random)
        (code ++ charAt chars (random_index (hd 0 random)))
  end.

Definition generateRoomCode (random : list nat) : string :=
  generateRoomCode_from 6 random "".

(** The retry loop of room creation: [code] is the current candidate,
    [retries] the random numbers of the calls still to come. [None] when
    they run out before a free code is found. *)
Fixpoint free_code (d : Db) (code : string) (retries : list (list nat)) : option string :=
  match DatabaseStorage.getRoomByCode d code with
  | None => Some code
  | Some _ =>
      match retries with
      | [] => None
      | random :: retries' => free_code d (generateRoomCode random) retries'
      end
  end.

(** The three objects the handlers pass to [updateRoom]: all current-item
    fields null with [isPlaying: false]; the current-item fields of an
    item with [isPlaying: true]; [isPlaying] alone. *)
Definition clear_current : RoomUpdates :=
  mkRoomUpdates (Some None) (Some None) (Some None) (Some false).

Definition set_current (q : QueueItem) : RoomUpdates :=
  mkRoomUpdates (Some (Some (videoId q))) (Some (Some (title q)))
                (Some (Some (thumbnail q))) (Some true).

Definition only_isPlaying (b : bool) : RoomUpdates :=
  mkRoomUpdates None None None (Some b).

Module routes.

(** [ws.on('message', ...)] of the connection [ws]. *)
Definition on_message (ws : WS) (data : Frame) : M unit :=
  try_catch
    (message <- JSON_parse data ;;
     if type message =? "join_room" then
       room <- storage.getRoomByCode (roomCode message) ;;
       match room with
       | None => ws_send ws (error "Room not found")
       | Some room =>
           assign_currentRoomId ws (room_id room) ;;
           register_connection (room_id room) ws ;;
           queue <- storage.getQueueByRoomId (room_id room) ;;
           ws_send ws (room_state room queue)
       end
     else if type message =? "play" then
       cur <- read_currentRoomId ws ;;
       match cur with
       | None => ret tt
       | Some rid =>
           if negb (truthy rid) then ret tt else
           storage.updateRoom rid (only_isPlaying true) ;;
           broadcastToRoom rid (playback_state true) None
       end
     else if type message =? "pause" then
       cur <- read_currentRoomId ws ;;
       match cur with
       | None => ret tt
       | Some rid =>
           if negb (truthy rid) then ret tt else
           storage.updateRoom rid (only_isPlaying false) ;;
           broadcastToRoom rid (playback_state false) None
       end
     else if type message =? "skip_song" then
       cur <- read_currentRoomId ws ;;
       match cur with
       | None => ret tt
       | Some rid =>
           if negb (truthy rid) then ret tt else
           room <- storage.getRoom rid ;;
           match room with
           | None => ret tt
           | Some _ =>
               queue <- storage.getQueueByRoomId rid ;;
               let currentItem :=
                 find (fun item => Status_eqb (status item) playing) queue in
               match currentItem with
               | Some currentItem => storage.removeFromQueue (item_id currentItem)
               | None => ret tt
               end ;;
               nextItem <- storage.getNextInQueue rid ;;
               match nextItem with
               | Some nextItem =>
                   storage.updateQueueItem (item_id nextItem)
                     (mkQueueItemUpdates (Some playing)) ;;
                   storage.updateRoom rid (set_current nextItem) ;;
                   updatedQueue <- storage.getQueueByRoomId rid ;;
                   broadcastToRoom rid
                     (current_song (Some (videoId nextItem)) (Some (title nextItem))
                                   (Some (thumbnail nextItem))) None ;;
                   broadcastToRoom rid (queue_updated updatedQueue) None ;;
                   broadcastToRoom rid (playback_state true) None
               | None =>
                   storage.updateRoom rid clear_current ;;
                   broadcastToRoom rid (current_song None None None) None ;;
                   broadcastToRoom rid (queue_updated []) None ;;
                   broadcastToRoom rid (playback_state false) None
               end
           end
       end
     else ret tt)
    (ws_send ws (error "Invalid message format")).

(** [ws.on('close', ...)] of the connection [ws]; the socket is no
    longer open when it runs. *)
Definition on_close (ws : WS) : M unit :=
  fun w =>
    let w0 := mkWorld (db w) (roomConnections w) (currentRoomId w)
                      (ws :: notOpen w) in
    match get_currentRoomId w0 ws with
    | None => (Return tt, w0, [])
    | Some rid =>
        if negb (truthy rid) then (Return tt, w0, []) else
        match Map_get (roomConnections w0) rid with
        | None => (Return tt, w0, [])
        | Some connections =>
            let connections' := Set_delete connections ws in
            let m := Map_set (roomConnections w0) rid connections' in
            let m' := if (List.length connections' =? 0)%nat then Map_delete m rid else m in
            (Return tt, mkWorld (db w0) m' (currentRoomId w0) (notOpen w0), [])
        end
    end.

(** [POST /api/rooms] *)
Definition post_rooms (random : list nat) (retries : list (list nat))
           (gen_random_uuid : string) : M Response :=
  try_catch
    (fun w =>
       match free_code (db w) (generateRoomCode random) retries with
       | None => (Return pending, w, [])
       | Some code =>
           (room <- storage.createRoom gen_random_uuid
                      (mkInsertRoom code None None None false) ;;
            ret (json_room room)) w
       end)
    (ret (status_error 500 "Failed to create room")).

(** [GET /api/rooms/:code] *)
Definition get_room (code : string) : M Response :=
  try_catch
    (room <- storage.getRoomByCode (toUpperCase code) ;;
     match room with
     | None => ret (status_error 404 "Room not found")
     | Some room =>
         queue <- storage.getQueueByRoomId (room_id room) ;;
         ret (json_room_queue room queue)
     end)
    (ret (status_error 500 "Failed to fetch room")).

(** [POST /api/rooms/:code/queue] *)
Definition post_queue (code : string) (body : Body) (gen_random_uuid : string)
  : M Response :=
  try_catch
    (room <- storage.getRoomByCode (toUpperCase code) ;;
     match room with
     | None => ret (status_error 404 "Room not found")
     | Some room =>
         match addToQueueSchema_safeParse body with
         | None => ret (status_error 400 "Missing required fields")
         | Some data =>
             maxPosition <- storage.getMaxPosition (room_id room) ;;
             let isFirstSong := (maxPosition =? 0)%Z in
             queueItem <- storage.addToQueue gen_random_uuid
               (mkInsertQueueItem (room_id room) (data_videoId data) (data_title data)
                  (data_thumbnail data) (or_null (data_channelTitle data))
                  (or_null (data_duration data)) (maxPosition + 1)%Z
                  (if isFirstSong then playing else waiting)) ;;
             (if isFirstSong then
                storage.updateRoom (room_id room)
                  (mkRoomUpdates (Some (Some (data_videoId data)))
                     (Some (Some (data_title data)))
                     (Some (Some (data_thumbnail data))) (Some true)) ;;
                broadcastToRoom (room_id room)
                  (current_song (Some (data_videoId data)) (Some (data_title data))
                                (Some (data_thumbnail data))) None ;;
                broadcastToRoom (room_id room) (playback_state true) None
              else ret tt) ;;
             queue <- storage.getQueueByRoomId (room_id room) ;;
             broadcastToRoom (room_id room) (song_added queueItem) None ;;
             broadcastToRoom (room_id room) (queue_updated queue) None ;;
             ret (json_item queueItem)
         end
     end)
    (ret (status_error 500 "Failed to add to queue")).

(** [DELETE /api/rooms/:code/queue/:itemId] *)
Definition delete_queue_item (code itemId : string) : M Response :=
  try_catch
    (room <- storage.getRoomByCode (toUpperCase code) ;;
     match room with
     | None => ret (status_error 404 "Room not found")
     | Some room =>
         queue <- storage.getQueueByRoomId (room_id room) ;;
         let itemToRemove := find (fun item => item_id item =? itemId) queue in
         match itemToRemove with
         | None => ret (status_error 404 "Queue item not found")
         | Some itemToRemove =>
             let wasPlaying := Status_eqb (status itemToRemove) playing in
             storage.removeFromQueue itemId ;;
             (if wasPlaying then
                nextItem <- storage.getNextInQueue (room_id room) ;;
                match nextItem with
                | Some nextItem =>
                    storage.updateQueueItem (item_id nextItem)
                      (mkQueueItemUpdates (Some playing)) ;;
                    storage.updateRoom (room_id room) (set_current nextItem) ;;
                    broadcastToRoom (room_id room)
                      (current_song (Some (videoId nextItem)) (Some (title nextItem))
                                    (Some (thumbnail nextItem))) None ;;
                    broadcastToRoom (room_id room) (playback_state true) None
                | None =>
                    storage.updateRoom (room_id room) clear_current ;;
                    broadcastToRoom (room_id room) (current_song None None None) None ;;
                    broadcastToRoom (room_id room) (playback_state false) None
                end
              else ret tt) ;;
             updatedQueue <- storage.getQueueByRoomId (room_id room) ;;
             broadcastToRoom (room_id room) (song_removed itemId) None ;;
             broadcastToRoom (room_id room) (queue_updated updatedQueue) None ;;
             ret json_success
         end
     end)
    (ret (status_error 500 "Failed to remove from queue")).

End routes.

(** The earlier copy of [routes.ts] kept in the repository differs from
    the one above in its removal route (and in its search route, which
    reads a single key and is outside this model). *)
Module legacy_routes.

(** [DELETE /api/queue/:id] *)
Definition delete_queue (id : string) : M Response :=
  try_catch
    (storage.removeFromQueue id ;;
     ret json_success)
    (ret (status_error 500 "Failed to remove from queue")).

End legacy_routes.

(** ** [routes.ts]: the search route *)

(** The search route keeps one piece of state of its own, the index
    [currentKeyIndex] of the key the next request will use; it is
    passed in and out. The two upstream requests are arguments of the
    route: what [fetch] resolves to is the environment's choice. A
    JavaScript number is an exact natural number here, which it is
    below [2^53]; [None] is [NaN]. *)
Module youtube.

(** [Boolean(v)] for a value that is [undefined] or a string. *)
Definition Boolean (v : option string) : bool :=
  match v with
  | Some s => truthy s
  | None => false
  end.

(** [[process.env.GOOGLE_API_KEY, ..._2, ..._3].filter(Boolean)] *)
Definition apiKeys (GOOGLE_API_KEY GOOGLE_API_KEY_2 GOOGLE_API_KEY_3 : option string)
  : list string :=
  flat_map (fun v => match v with Some k => [k] | None => [] end)
           (filter Boolean [GOOGLE_API_KEY; GOOGLE_API_KEY_2; GOOGLE_API_KEY_3]).

(** [getNextApiKey()]: the key returned ([None] is [null] or
    [undefined]) and the new value of [currentKeyIndex]. *)
Definition getNextApiKey (apiKeys : list string) (currentKeyIndex : nat)
  : option string * nat :=
  if (List.length apiKeys =? 0)%nat then (None, currentKeyIndex)
  else (nth_error apiKeys currentKeyIndex,
        (currentKeyIndex + 1) mod List.length apiKeys).

(** [\d] *)
Definition is_digit (c : ascii) : bool :=
  ((48 <=? nat_of_ascii c) && (nat_of_ascii c <=? 57))%nat.

(** The text after the leftmost ["PT"] of [s], if there is one. *)
Fixpoint after_PT (s : string) : option string :=
  match s with
  | EmptyString => None
  | String c s' =>
      match s' with
      | String c' rest => if Ascii.eqb c "P" && Ascii.eqb c' "T" then Some rest
                          else after_PT s'
      | EmptyString => None
      end
  end.

(** The longest prefix of digits, and what follows it. *)
Fixpoint span_digits (s : string) : string * string :=
  match s with
  | EmptyString => (EmptyString, EmptyString)
  | String c s' =>
      if is_digit c
      then let (ds, rest) := span_digits s' in (String c ds, rest)
      else (EmptyString, s)
  end.

(** [(?:(\d+)X)?] at the head of [s]: what the group captures and what
    is left to match. The digits are taken greedily; when no digit or
    no [X] follows, the group matches nothing. *)
Definition optional_group (X : ascii) (s : string) : option string * string :=
  match span_digits s with
  | (String d ds, String c rest) =>
      if Ascii.eqb c X then (Some (String d ds), rest) else (None, s)
  | _ => (None, s)
  end.

(** [duration.match(/PT(?:(\d+)H)?(?:(\d+)M)?(?:(\d+)S)?/)]: [None]
    when there is no match, else the three groups, [None] for one that
    took no part. *)
Definition duration_match (duration : string)
  : option (option string * option string * option string) :=
  match after_PT duration with
  | None => None
  | Some s0 =>
      let (g1, s1) := optional_group "H" s0 in
      let (g2, s2) := optional_group "M" s1 in
      let (g3, _) := optional_group "S" s2 in
      Some (g1, g2, g3)
  end.

(** [g || '0'] *)
Definition or_0 (g : option string) : string :=
  match g with
  | Some s => if truthy s then s else "0"
  | None => "0"
  end.

(** [parseInt] of a string of decimal digits; [NaN] on any other
    string (the route hands it groups of [\d+] and ['0'] only). *)
Definition parseInt (s : string) : option N :=
  option_map N.of_uint (NilZero.uint_of_string s).

(** [n.toString()] *)
Definition toString (n : option N) : string :=
  match n with
  | Some n => NilZero.string_of_uint (N.to_uint n)
  | None => "NaN"
  end.

(** [n > 0] *)
Definition gt_0 (n : option N) : bool :=
  match n with
  | Some n => (0 <? n)%N
  | None => false
  end.

Fixpoint repeat_char (c : ascii) (n : nat) : string :=
  match n with
  | O => EmptyString
  | S n' => String c (repeat_char c n')
  end.

(** [s.padStart(targetLength, c)] for a one-character pad. *)
Definition padStart (s : string) (targetLength : nat) (c : ascii) : string :=
  repeat_char c (targetLength - String.length s) ++ s.

Definition parseDuration (duration : string) : string :=
  match duration_match duration with
  | None => "0:00"
  | Some (g1, g2, g3) =>
      let hours := parseInt (or_0 g1) in
      let minutes := parseInt (or_0 g2) in
      let seconds := parseInt (or_0 g3) in
      if gt_0 hours
      then toString hours ++ ":" ++ padStart (toString minutes) 2 "0" ++ ":"
           ++ padStart (toString seconds) 2 "0"
      else toString minutes ++ ":" ++ padStart (toString seconds) 2 "0"
  end.

(** An item of the body of [videos?part=contentDetails,snippet], with
    the fields the route reads. *)
Record Video : Set := mkVideo {
  video_id : string;
  snippet_title : string;
  thumbnails_medium_url : option string;
  thumbnails_default_url : option string;
  snippet_channelTitle : string;
  contentDetails_duration : string
}.

(** An element of the array the route answers with. *)
Record SearchResult : Set := mkSearchResult {
  result_videoId : string;
  result_title : string;
  result_thumbnail : option string;
  result_channelTitle : string;
  result_duration : string
}.

(** What [await fetch(url)] gives: [None] when the promise rejects,
    else [ok], [status], and what [await response.json()] holds of the
    fields the route reads ([None] when reading them throws). *)
Record Fetched (A : Set) : Set := mkFetched {
  ok : bool;
  status : nat;
  json : option A
}.
Arguments mkFetched {A}.
Arguments ok {A}.
Arguments status {A}.
Arguments json {A}.

(** The requests the route sends upstream, each with the parts of its
    URL that vary: the text given to [encodeURIComponent] or the joined
    ids, and the key. *)
Inductive Request : Set :=
| search_request (q key : string)
| videos_request (id key : string).

(** What the search route answers. *)
Inductive SearchResponse : Set :=
| json_results (results : list SearchResult)
| search_error (statusCode : nat) (message : string).

(** [a || b] *)
Definition or_else (a b : option string) : option string :=
  match a with
  | Some s => if truthy s then a else b
  | None => b
  end.

Definition result_of (item : Video) : SearchResult :=
  mkSearchResult (video_id item) (snippet_title item)
    (or_else (thumbnails_medium_url item) (thumbnails_default_url item))
    (snippet_channelTitle item) (parseDuration (contentDetails_duration item)).

(** What one run of the route leaves behind: the answer, the new
    [currentKeyIndex], the requests sent upstream in order, and the
    (index, total) pairs written to the log. *)
Record Served : Set := mkServed {
  answer : SearchResponse;
  next_index : nat;
  requests : list Request;
  logged : list (nat * nat)
}.

(** [GET /api/youtube/search]; [q] is [req.query.q], and
    [searchResponse], [detailsResponse] what the two fetches give (the
    items of the first as their [id.videoId]). *)
Definition get_search (apiKeys : list string) (q : option string)
           (searchResponse : option (Fetched (list string)))
           (detailsResponse : option (Fetched (list Video)))
           (currentKeyIndex : nat) : Served :=
  match q with
  | None => mkServed (search_error 400 "Search query required") currentKeyIndex [] []
  | Some query =>
      if negb (truthy query)
      then mkServed (search_error 400 "Search query required") currentKeyIndex [] []
      else
        let (apiKey, currentKeyIndex') := getNextApiKey apiKeys currentKeyIndex in
        if negb (Boolean apiKey)
        then mkServed (search_error 500 "YouTube API key not configured")
                      currentKeyIndex' [] []
        else
          let apiKey := match apiKey with Some k => k | None => EmptyString end in
          let log :=
            [((if (currentKeyIndex' =? 0)%nat then List.length apiKeys
               else currentKeyIndex') - 1, List.length apiKeys)%nat] in
          let failed := search_error 500 "Failed to search YouTube" in
          let searchQuery := (query ++ " karaoke")%string in
          let req1 := search_request searchQuery apiKey in
          match searchResponse with
          | None => mkServed failed currentKeyIndex' [req1] log
          | Some searchResponse =>
              if negb (ok searchResponse)
              then mkServed failed currentKeyIndex' [req1] log
              else
                match json searchResponse with
                | None => mkServed failed currentKeyIndex' [req1] log
                | Some items =>
                    let videoIds := String.concat "," items in
                    let req2 := videos_request videoIds apiKey in
                    match detailsResponse with
                    | None => mkServed failed currentKeyIndex' [req1; req2] log
                    | Some detailsResponse =>
                        if negb (ok detailsResponse)
                        then mkServed failed currentKeyIndex' [req1; req2] log
                        else
                          match json detailsResponse with
                          | None => mkServed failed currentKeyIndex' [req1; req2] log
                          | Some items =>
                              mkServed (json_results (map result_of items))
                                       currentKeyIndex' [req1; req2] log
                          end
                    end
                end
          end
  end.

End youtube.

(** ** Runs of the server *)

(** The events the server reacts to: a request on one of the routes
    (with the values the environment draws while it is served), a frame
    on a socket, a socket leaving the [OPEN] state, and the [close]
    event of a socket. [LEGACY_DELETE_queue] is a request on the removal
    route of the earlier [routes.ts]. *)
Inductive Event : Set :=
| POST_rooms (random : list nat) (retries : list (list nat)) (gen_random_uuid : string)
| GET_room (code : string)
| POST_queue (code : string) (body : Body) (gen_random_uuid : string)
| DELETE_queue_item (code itemId : string)
| LEGACY_DELETE_queue (id : string)
| WS_message (ws : WS) (data : Frame)
| WS_closing (ws : WS)
| WS_close (ws : WS).

(** The three parts of what a handler leaves behind. *)
Definition world_of {A} (r : Outcome A * World * Sent) : World := snd (fst r).
Definition sent_of {A} (r : Outcome A * World * Sent) : Sent := snd r.
Definition outcome_of {A} (r : Outcome A * World * Sent) : Outcome A := fst (fst r).

(** What the environment can do: generated identifiers are never the
    empty string, and frames arrive on open sockets only. *)
Definition possible (w : World) (e : Event) : bool :=
  match e with
  | POST_rooms _ _ uuid => truthy uuid
  | POST_queue _ _ uuid => truthy uuid
  | WS_message ws _ => readyState_OPEN w ws
  | _ => true
  end.

(** The state after the handler of event [e] has run in state [w]. *)
Definition react (e : Event) (w : World) : World :=
  match e with
  | POST_rooms random retries uuid => world_of (routes.post_rooms random retries uuid w)
  | GET_room code => world_of (routes.get_room code w)
  | POST_queue code body uuid => world_of (routes.post_queue code body uuid w)
  | DELETE_queue_item code itemId => world_of (routes.delete_queue_item code itemId w)
  | LEGACY_DELETE_queue id => world_of (legacy_routes.delete_queue id w)
  | WS_message ws data => world_of (routes.on_message ws data w)
  | WS_closing ws =>
      mkWorld (db w) (roomConnections w) (currentRoomId w) (ws :: notOpen w)
  | WS_close ws => world_of (routes.on_close ws w)
  end.

(** One event, then a sequence of events, each handled to completion.
    Handlers that overlap at their [await] points are outside these
    runs. *)
Definition step (w : World) (e : Event) : World :=
  if possible w e then react e w else w.

Definition run (es : list Event) (w : World) : World := fold_left step es w.

(** Worlds the server can be in, whichever copy of the routes is live. *)
Definition reachable (w : World) : Prop := exists es, run es initial = w.

(** Events served by the current [routes.ts] alone. *)
Definition current_route (e : Event) : bool :=
  match e with
  | LEGACY_DELETE_queue _ => false
  | _ => true
  end.

(** Worlds the server can be in when the current [routes.ts] is live. *)
Definition reachable_current (w : World) : Prop :=
  exists es, forallb current_route es = true /\ run es initial = w.

(** ** Vocabulary of the properties *)

(** Rows of [queue_items] that belong to room [rid], in insertion order. *)
Definition room_items (d : Db) (rid : string) : list QueueItem :=
  filter (fun q => roomId q =? rid) (queueItems d).

(** [item.status === 'playing'], [item.status === 'waiting']. *)
Definition is_playing (q : QueueItem) : bool := Status_eqb (status q) playing.
Definition is_waiting (q : QueueItem) : bool := Status_eqb (status q) waiting.

(** The playing items of room [rid]. *)
Definition playing_items (d : Db) (rid : string) : list QueueItem :=
  filter is_playing (room_items d rid).

(** The messages one call of [broadcastToRoom] sends in world [w]. *)
Definition broadcast (w : World) (rid : string) (message : ServerMsg) : Sent :=
  map (fun ws => (ws, message)) (recipients w rid None).

(** Constraints of the schema and of the way rows are produced, which
    every run maintains. *)
Record wf_db (d : Db) : Prop := mk_wf_db {
  wf_item_ids : NoDup (map item_id (queueItems d));
  wf_room_ids : NoDup (map room_id (rooms d));
  wf_codes : NoDup (map code (rooms d));
  wf_codes_upper : forall r, In r (rooms d) -> toUpperCase (code r) = code r;
  wf_room_ids_truthy : forall r, In r (rooms d) -> truthy (room_id r) = true;
  wf_positions : forall q, In q (queueItems d) -> (1 <= position q)%Z;
  wf_increasing : forall rid, StronglySorted Z.lt (map position (room_items d rid));
  wf_foreign_key : forall q, In q (queueItems d) -> In (roomId q) (map room_id (rooms d))
}.

(** A state is well formed when its database is and every connection
    that has joined points at a room of the database. *)
Definition wf (w : World) : Prop :=
  wf_db (db w) /\
  forall ws rid, In (ws, rid) (currentRoomId w) ->
                 In rid (map room_id (rooms (db w))).

(** The playing item of a room and the room's pointer to it agree. *)
Definition room_consistent (d : Db) (r : Room) : Prop :=
  match playing_items d (room_id r) with
  | [] => currentVideoId r = None
  | [p] => currentVideoId r = Some (videoId p)
  | _ :: _ :: _ => False
  end.

(** The invariant of the room/queue pair, for every room. *)
Definition consistent (d : Db) : Prop :=
  forall r, In r (rooms d) -> room_consistent d r.

(** ** Further vocabulary: summaries of handlers, predicates on messages
    and codes, and the concrete runs the examples use *)

(** The order [getQueueByRoomId] returns a queue in. *)
Definition le_position (a b : QueueItem) : Prop := (position a <= position b)%Z.

(** The values of [type] the [switch] of the message handler has a case for. *)
Definition recognized (t : string) : bool :=
  (t =? "join_room") || (t =? "play") || (t =? "pause") || (t =? "skip_song").

(** The database after the first step of a skip in room [rid]: the
    playing item the handler finds, if any, is deleted. *)
Definition after_removal (d : Db) (rid : string) : Db :=
  match find is_playing (getQueueByRoomId d rid) with
  | Some currentItem => removeFromQueue d (item_id currentItem)
  | None => d
  end.

(** The database after [nextItem] has been marked playing and mirrored
    into room [rid]. *)
Definition promoted (d : Db) (rid : string) (nextItem : QueueItem) : Db :=
  updateRoom (updateQueueItem d (item_id nextItem) (mkQueueItemUpdates (Some playing)))
             rid (set_current nextItem).

(** The text fields of a validated body can be stored. *)
Definition data_storable (data : AddToQueueData) : bool :=
  storable (data_videoId data) && storable (data_title data)
  && storable (data_thumbnail data)
  && storable_or_null (data_channelTitle data)
  && storable_or_null (data_duration data).

(** The row [POST /api/rooms/:code/queue] hands to [addToQueue]. *)
Definition insert_of (r : Room) (data : AddToQueueData) (maxPosition : Z) : InsertQueueItem :=
  mkInsertQueueItem (room_id r) (data_videoId data) (data_title data)
    (data_thumbnail data) (or_null (data_channelTitle data))
    (or_null (data_duration data)) (maxPosition + 1)%Z
    (if (maxPosition =? 0)%Z then playing else waiting).

(** The update the add route applies to the room of a first song. *)
Definition set_current_data (data : AddToQueueData) : RoomUpdates :=
  mkRoomUpdates (Some (Some (data_videoId data))) (Some (Some (data_title data)))
                (Some (Some (data_thumbnail data))) (Some true).

(** The body [{videoId, title, thumbnail}]. *)
Definition body_of (v t th : string) : Body :=
  mkBody (text v) (text t) (text th) absent absent.

(** The frame [{type: t}]. *)
Definition msg (t : string) : Frame := Json (mkWSMessage t "").

(** One room ["r1"] with code ["ABCDEF"], socket 7 joined, empty queue. *)
Definition events_room : list Event :=
  [POST_rooms [0; 1; 2; 3; 4; 5] [] "r1";
   WS_message 7 (Json (mkWSMessage "join_room" "ABCDEF"))].

(** The state after [events_room]. *)
Definition world_room : World := run events_room initial.

(** Scenario B: the room's queue is [A: playing, B: waiting]. *)
Definition events_AB : list Event :=
  events_room ++
  [POST_queue "abcdef" (body_of "v1" "Song A" "t1") "i1";
   POST_queue "abcdef" (body_of "v2" "Song B" "t2") "i2"].

(** The state after [events_AB]. *)
Definition world_AB : World := run events_AB initial.

(** Kinds of server messages. *)
Definition is_current_song (m : ServerMsg) : bool :=
  match m with current_song _ _ _ => true | _ => false end.

Definition is_playback_state (m : ServerMsg) : bool :=
  match m with playback_state _ => true | _ => false end.

(** The positions given, in order, to the items that successful adds
    insert into room [rid] along a run. *)
Fixpoint assigned_positions (rid : string) (es : list Event) (w : World) : list Z :=
  match es with
  | [] => []
  | e :: es' =>
      (match e with
       | POST_queue code0 body uuid =>
           if possible w e then
             match outcome_of (routes.post_queue code0 body uuid w) with
             | Return (json_item item) =>
                 if roomId item =? rid then [position item] else []
             | _ => []
             end
           else []
       | _ => []
       end) ++ assigned_positions rid es' (step w e)
  end.

(** Add A, remove A, add B: both adds are given position 1. *)
Definition events_reuse : list Event :=
  [POST_rooms [0; 1; 2; 3; 4; 5] [] "r1";
   POST_queue "ABCDEF" (body_of "v1" "Song A" "t1") "i1";
   DELETE_queue_item "ABCDEF" "i1";
   POST_queue "ABCDEF" (body_of "v2" "Song B" "t2") "i2"].

(** The frame [{type: "join_room", roomCode: c}]. *)
Definition join (c : string) : Frame := Json (mkWSMessage "join_room" c).

(** A room whose code is made of digits only. *)
Definition events_digits : list Event := [POST_rooms [24; 24; 24; 24; 24; 24] [] "r1"].
Definition world_digits : World := run events_digits initial.
Definition room_digits : Room := mkRoom "r1" "222222" None None None false.

(** Codes without an uppercase letter: only they are their own sole
    preimage under [toUpperCase]. *)
Definition is_upper_letter (a : ascii) : bool :=
  let n := nat_of_ascii a in (65 <=? n)%nat && (n <=? 90)%nat.

Fixpoint no_upper_letter (s : string) : bool :=
  match s with
  | EmptyString => true
  | String a s' => negb (is_upper_letter a) && no_upper_letter s'
  end.

(** Every room but [rid] agrees with its playing item. *)
Definition others_consistent (d : Db) (rid : string) : Prop :=
  forall r, In r (rooms d) -> room_id r <> rid -> room_consistent d r.

(** What [updateQueueItem id {status: 'playing'}] does to one row. *)
Definition mark_playing (id : string) (q : QueueItem) : QueueItem :=
  if item_id q =? id then apply_item_updates (mkQueueItemUpdates (Some playing)) q else q.

(** The step a skip and the removal of a playing item share: promote the
    next waiting item of room [rid], or clear the room. *)
Definition select_next_or_clear (d : Db) (rid : string) : Db :=
  match getNextInQueue d rid with
  | Some nextItem => promoted d rid nextItem
  | None => updateRoom d rid clear_current
  end.

(** Create a room, add one song, remove it through [DELETE /api/queue/:id]. *)
Definition events_legacy_delete : list Event :=
  [POST_rooms [0; 1; 2; 3; 4; 5] [] "r1";
   POST_queue "ABCDEF" (body_of "v1" "Song A" "t1") "i1";
   LEGACY_DELETE_queue "i1"].

(** ** Vocabulary for room codes, the connection registry, separate
    rooms, durations and keys *)

(** Membership in the alphabet of room codes. *)
Definition in_alphabet (c : ascii) : bool :=
  existsb (Ascii.eqb c) (list_ascii_of_string chars).

(** A well-formed room code: six characters of the alphabet. *)
Definition code_ok (s : string) : bool :=
  (String.length s =? 6)%nat && forallb in_alphabet (list_ascii_of_string s).

(** The index of a character in [chars] (32 when it is not there). *)
Fixpoint index_in (s : string) (c : ascii) : nat :=
  match s with
  | EmptyString => 0
  | String a s' => if Ascii.eqb a c then 0 else S (index_in s' c)
  end.

(** What never changes in a room row. *)
Definition identity (r : Room) : string * string := (room_id r, code r).

(** The sockets registered under room [rid]. *)
Definition members (w : World) (rid : string) : list WS :=
  match Map_get (roomConnections w) rid with
  | Some s => s
  | None => []
  end.

(** What the handlers keep true of [roomConnections]: one entry per
    room id, and in every entry a set that is not empty and has no
    socket twice. *)
Definition registry_ok (m : list (string * list WS)) : Prop :=
  NoDup (map fst m) /\
  forall k s, In (k, s) m -> s <> [] /\ NoDup s.

(** The messages the handler of an event sends. *)
Definition sent_by (e : Event) (w : World) : Sent :=
  match e with
  | POST_rooms random retries uuid => sent_of (routes.post_rooms random retries uuid w)
  | GET_room c => sent_of (routes.get_room c w)
  | POST_queue c body uuid => sent_of (routes.post_queue c body uuid w)
  | DELETE_queue_item c itemId => sent_of (routes.delete_queue_item c itemId w)
  | LEGACY_DELETE_queue id => sent_of (legacy_routes.delete_queue id w)
  | WS_message ws data => sent_of (routes.on_message ws data w)
  | WS_closing _ => []
  | WS_close ws => sent_of (routes.on_close ws w)
  end.

(** Everything the server sends while it handles the events [es] from
    state [w] on, in order. *)
Fixpoint transcript (es : list Event) (w : World) : Sent :=
  match es with
  | [] => []
  | e :: es' => (if possible w e then sent_by e w else []) ++ transcript es' (step w e)
  end.

(** The room an event is about, by id: the room whose code the request
    names, the current room of the connection a frame arrives on, the
    room of the item a by-id removal names. *)
Definition target (e : Event) (w : World) : option string :=
  match e with
  | POST_queue c _ _ => option_map room_id (getRoomByCode (db w) (toUpperCase c))
  | DELETE_queue_item c _ => option_map room_id (getRoomByCode (db w) (toUpperCase c))
  | LEGACY_DELETE_queue id =>
      option_map roomId (find (fun q => item_id q =? id) (queueItems (db w)))
  | WS_message ws _ => get_currentRoomId w ws
  | _ => None
  end.

(** The room code a request carries, if any, is ASCII. *)
Definition ascii_codes (e : Event) : bool :=
  match e with
  | GET_room c => is_ascii c
  | POST_queue c _ _ => is_ascii c
  | DELETE_queue_item c _ => is_ascii c
  | _ => true
  end.

(** What the database holds about room [rid]: its row and its rows of
    [queue_items], in table order. *)
Definition room_view (d : Db) (rid : string) : option Room * list QueueItem :=
  (getRoom d rid, room_items d rid).

(** Scenario B, then a second room with one song. *)
Definition events_two_rooms : list Event :=
  events_AB ++ [POST_rooms [7; 8; 9; 10; 11; 12] [] "r2";
                POST_queue "HJKLMN" (body_of "v5" "Song E" "t5") "i5"].

Definition world_two_rooms : World := run events_two_rooms initial.

(** The decimal numeral of [n]. *)
Definition decimal (n : N) : string := NilZero.string_of_uint (N.to_uint n).

(** One component of the time part of an ISO 8601 duration, in front of
    [rest]: the numeral and the designator, or nothing. *)
Definition component (n : option N) (X : ascii) (rest : string) : string :=
  match n with
  | Some n => (decimal n ++ String X rest)%string
  | None => rest
  end.

(** ["PT<h>H<m>M<s>S"], each component optional. *)
Definition iso8601_time (h m s : option N) : string :=
  ("PT" ++ component h "H" (component m "M" (component s "S" EmptyString)))%string.

(** ["P<d>DT<h>H<m>M<s>S"]: a duration with a day component. *)
Definition iso8601_days (d : N) (h m s : option N) : string :=
  ("P" ++ decimal d
       ++ String "D" (String "T"
            (component h "H" (component m "M" (component s "S" EmptyString)))))%string.

Definition two_digits (n : N) : string :=
  if (n <? 10)%N then ("0" ++ decimal n)%string else decimal n.

(** [h:mm:ss], or [m:ss] when there are no hours. *)
Definition clock (h m s : N) : string :=
  if (0 <? h)%N
  then (decimal h ++ ":" ++ two_digits m ++ ":" ++ two_digits s)%string
  else (decimal m ++ ":" ++ two_digits s)%string.

Definition value (n : option N) : N :=
  match n with
  | Some n => n
  | None => 0%N
  end.

Definition all_digits (s : string) : bool :=
  forallb youtube.is_digit (list_ascii_of_string s).

Definition has_no_P (s : string) : bool :=
  forallb (fun c => negb (Ascii.eqb c "P")) (list_ascii_of_string s).

(** [k] successive calls of [getNextApiKey] from index [i]: the keys
    returned, in order, and the index left behind. *)
Fixpoint calls (apiKeys : list string) (k : nat) (i : nat) : list (option string) * nat :=
  match k with
  | O => ([], i)
  | S k' =>
      let (key, i') := youtube.getNextApiKey apiKeys i in
      let (keys, i'') := calls apiKeys k' i' in
      (key :: keys, i'')
  end.

(** Every open connection that has a current room is registered under
    it. *)
Definition joined_are_members (w : World) : Prop :=
  forall ws rid, get_currentRoomId w ws = Some rid -> readyState_OPEN w ws = true ->
                 In ws (members w rid).

(** ** Facts about the helpers *)

Lemma Status_eqb_eq (a b : Status) : Status_eqb a b = true <-> a = b.
Proof. destruct a, b; simpl; split; intro H; try reflexivity; discriminate H. Qed.

Lemma is_playing_not_waiting (q : QueueItem) : is_playing q = negb (is_waiting q).
Proof. unfold is_playing, is_waiting. destruct (status q); reflexivity. Qed.

Lemma insert_by_position_perm (q : QueueItem) (l : list QueueItem) :
  Permutation (insert_by_position q l) (q :: l).
Proof.
  induction l as [|x l IH]; simpl.
  - apply Permutation_refl.
  - destruct (position q <=? position x)%Z.
    + apply Permutation_refl.
    + eapply perm_trans; [apply perm_skip, IH | apply perm_swap].
Qed.

Lemma orderBy_position_perm (l : list QueueItem) :
  Permutation (orderBy_position l) l.
Proof.
  induction l as [|q l IH]; simpl.
  - constructor.
  - eapply perm_trans; [apply insert_by_position_perm | apply perm_skip, IH].
Qed.

Lemma orderBy_position_In (l : list QueueItem) (x : QueueItem) :
  In x (orderBy_position l) <-> In x l.
Proof.
  split; apply Permutation_in;
    [apply orderBy_position_perm | apply Permutation_sym, orderBy_position_perm].
Qed.

Lemma insert_by_position_sorted (q : QueueItem) (l : list QueueItem) :
  StronglySorted le_position l -> StronglySorted le_position (insert_by_position q l).
Proof.
  induction 1 as [|x l Hs IH Hx]; simpl.
  - repeat constructor.
  - destruct (position q <=? position x)%Z eqn:E.
    + apply Z.leb_le in E. constructor; [constructor; assumption|].
      constructor; [exact E|].
      rewrite Forall_forall in *. intros y Hy. specialize (Hx y Hy).
      unfold le_position in *. lia.
    + apply Z.leb_gt in E. constructor; [exact IH|].
      rewrite Forall_forall in *. intros y Hy.
      apply (Permutation_in _ (insert_by_position_perm q l)) in Hy.
      destruct Hy as [<-|Hy]; [unfold le_position; lia | apply Hx, Hy].
Qed.

Lemma orderBy_position_sorted (l : list QueueItem) :
  StronglySorted le_position (orderBy_position l).
Proof.
  induction l as [|q l IH]; simpl; [constructor | apply insert_by_position_sorted, IH].
Qed.

(** A list already in strictly increasing position order is left as it is. *)
Lemma orderBy_position_increasing (l : list QueueItem) :
  StronglySorted Z.lt (map position l) -> orderBy_position l = l.
Proof.
  induction l as [|q l IH]; simpl; intro H; [reflexivity|].
  inversion H as [|? ? Hs Hq]; subst. rewrite (IH Hs).
  destruct l as [|x l]; [reflexivity|]. simpl.
  inversion Hq as [|? ? Hx _]; subst.
  replace (position q <=? position x)%Z with true; [reflexivity|].
  symmetry. apply Z.leb_le. lia.
Qed.

Lemma StronglySorted_filter {A} (R : A -> A -> Prop) (p : A -> bool) (l : list A) :
  StronglySorted R l -> StronglySorted R (filter p l).
Proof.
  induction 1 as [|x l Hs IH Hx]; simpl; [constructor|].
  destruct (p x); [|exact IH].
  constructor; [exact IH|].
  rewrite Forall_forall in *. intros y Hy. apply filter_In in Hy. apply Hx, Hy.
Qed.

Lemma StronglySorted_map_filter {A} (f : A -> Z) (p : A -> bool) (l : list A) :
  StronglySorted Z.lt (map f l) -> StronglySorted Z.lt (map f (filter p l)).
Proof.
  induction l as [|x l IH]; simpl; intro H; [constructor|].
  inversion H as [|? ? Hs Hx]; subst.
  destruct (p x); simpl; [|exact (IH Hs)].
  constructor; [exact (IH Hs)|].
  rewrite Forall_forall in *. intros y Hy. apply in_map_iff in Hy.
  destruct Hy as [z [<- Hz]]. apply filter_In in Hz.
  apply Hx, in_map, Hz.
Qed.

Lemma Math_max_ge (xs : list Z) (x : Z) :
  (x <= Math_max x xs)%Z /\ Forall (fun y => (y <= Math_max x xs)%Z) xs.
Proof.
  unfold Math_max. revert x. induction xs as [|y xs IH]; intro x; simpl.
  - split; [lia | constructor].
  - destruct (IH (Z.max x y)) as [H1 H2]. split; [lia|].
    constructor; [lia | exact H2].
Qed.

Lemma Math_max_In (xs : list Z) (x : Z) : In (Math_max x xs) (x :: xs).
Proof.
  unfold Math_max. revert x. induction xs as [|y xs IH]; intro x; simpl.
  - left; reflexivity.
  - destruct (IH (Z.max x y)) as [H|H].
    + destruct (Z.max_spec x y) as [[_ E]|[_ E]]; rewrite E in *; simpl; auto.
    + right; right; exact H.
Qed.

(** ** Facts about the storage layer *)

Lemma getQueueByRoomId_In (d : Db) (rid : string) (q : QueueItem) :
  In q (getQueueByRoomId d rid) <-> In q (queueItems d) /\ roomId q = rid.
Proof.
  unfold getQueueByRoomId. rewrite orderBy_position_In, filter_In.
  rewrite String.eqb_eq. reflexivity.
Qed.

Lemma room_items_In (d : Db) (rid : string) (q : QueueItem) :
  In q (room_items d rid) <-> In q (queueItems d) /\ roomId q = rid.
Proof. unfold room_items. rewrite filter_In, String.eqb_eq. reflexivity. Qed.

Lemma getQueueByRoomId_wf (d : Db) (rid : string) :
  wf_db d -> getQueueByRoomId d rid = room_items d rid.
Proof.
  intro H. unfold getQueueByRoomId. apply orderBy_position_increasing.
  apply (wf_increasing d H rid).
Qed.

Lemma getMaxPosition_ge (d : Db) (rid : string) (q : QueueItem) :
  In q (queueItems d) -> roomId q = rid ->
  (position q <= getMaxPosition d rid)%Z.
Proof.
  intros Hin Hr. unfold getMaxPosition.
  assert (Hq : In (position q) (map position (getQueueByRoomId d rid))).
  { apply in_map, getQueueByRoomId_In. split; assumption. }
  destruct (map position (getQueueByRoomId d rid)) as [|p ps]; [destruct Hq|].
  destruct (Math_max_ge ps p) as [H1 H2]. rewrite Forall_forall in H2.
  destruct Hq as [<-|Hq]; [exact H1 | apply H2, Hq].
Qed.

Lemma getMaxPosition_empty (d : Db) (rid : string) :
  room_items d rid = [] -> getMaxPosition d rid = 0%Z.
Proof.
  intro H. unfold getMaxPosition, getQueueByRoomId. fold (room_items d rid).
  rewrite H. reflexivity.
Qed.

Lemma getMaxPosition_positive (d : Db) (rid : string) :
  (forall q, In q (queueItems d) -> (1 <= position q)%Z) ->
  room_items d rid <> [] -> (1 <= getMaxPosition d rid)%Z.
Proof.
  intros Hpos Hne. destruct (room_items d rid) as [|q l] eqn:E; [contradiction|].
  assert (Hq : In q (room_items d rid)) by (rewrite E; left; reflexivity).
  apply room_items_In in Hq. destruct Hq as [Hq Hr].
  pose proof (getMaxPosition_ge d rid q Hq Hr). specialize (Hpos q Hq). lia.
Qed.

Lemma getMaxPosition_zero_iff (d : Db) (rid : string) :
  (forall q, In q (queueItems d) -> (1 <= position q)%Z) ->
  (getMaxPosition d rid =? 0)%Z = true <-> room_items d rid = [].
Proof.
  intro Hpos. rewrite Z.eqb_eq. split.
  - intro H0. destruct (room_items d rid) as [|q l] eqn:E; [reflexivity|].
    assert (Hne : room_items d rid <> []) by (rewrite E; discriminate).
    pose proof (getMaxPosition_positive d rid Hpos Hne). lia.
  - apply getMaxPosition_empty.
Qed.

Lemma find_some_iff_In {A} (p : A -> bool) (l : list A) :
  find p l = None <-> forall x, In x l -> p x = false.
Proof.
  split.
  - intros H x Hx. exact (find_none p l H x Hx).
  - induction l as [|a l IH]; simpl; intro H; [reflexivity|].
    rewrite (H a (or_introl eq_refl)). apply IH. intros x Hx. apply H. right; exact Hx.
Qed.

Lemma hd_error_filter_find {A} (p : A -> bool) (l : list A) :
  hd_error (filter p l) = find p l.
Proof.
  induction l as [|a l IH]; simpl; [reflexivity|].
  destruct (p a); [reflexivity | exact IH].
Qed.

Lemma getNextInQueue_find (d : Db) (rid : string) :
  getNextInQueue d rid = find is_waiting (getQueueByRoomId d rid).
Proof. unfold getNextInQueue. apply hd_error_filter_find. Qed.

(** The item [getNextInQueue] returns is a waiting item of the room with
    the smallest position among the room's waiting items. *)
Lemma getNextInQueue_Some (d : Db) (rid : string) (n : QueueItem) :
  getNextInQueue d rid = Some n ->
  In n (queueItems d) /\ roomId n = rid /\ status n = waiting /\
  forall q, In q (queueItems d) -> roomId q = rid -> status q = waiting ->
            (position n <= position q)%Z.
Proof.
  unfold getNextInQueue. intro H.
  pose proof (StronglySorted_filter le_position
                (fun item => Status_eqb (status item) waiting) _
                (orderBy_position_sorted (filter (fun q => roomId q =? rid) (queueItems d))))
    as Hs.
  fold (getQueueByRoomId d rid) in Hs.
  destruct (filter (fun item => Status_eqb (status item) waiting) (getQueueByRoomId d rid))
    as [|x l] eqn:E; [discriminate H|].
  simpl in H. injection H as ->.
  assert (Hn : In n (n :: l)) by (left; reflexivity).
  rewrite <- E in Hn. apply filter_In in Hn. destruct Hn as [Hn Hw].
  apply getQueueByRoomId_In in Hn. destruct Hn as [Hn Hr].
  apply Status_eqb_eq in Hw.
  repeat split; try assumption.
  intros q Hq Hqr Hqw.
  assert (Hq' : In q (n :: l)).
  { rewrite <- E. apply filter_In. split.
    - apply getQueueByRoomId_In. split; assumption.
    - apply Status_eqb_eq, Hqw. }
  inversion Hs as [|? ? _ Hall]; subst. rewrite Forall_forall in Hall.
  destruct Hq' as [<-|Hq']; [lia | apply Hall, Hq'].
Qed.

Lemma getNextInQueue_None (d : Db) (rid : string) :
  getNextInQueue d rid = None <->
  forall q, In q (queueItems d) -> roomId q = rid -> status q = playing.
Proof.
  rewrite getNextInQueue_find, find_some_iff_In. split.
  - intros H q Hq Hr. specialize (H q (proj2 (getQueueByRoomId_In d rid q) (conj Hq Hr))).
    unfold is_waiting in H. destruct (status q); [discriminate H | reflexivity].
  - intros H q Hq. apply getQueueByRoomId_In in Hq. destruct Hq as [Hq Hr].
    unfold is_waiting. rewrite (H q Hq Hr). reflexivity.
Qed.

Lemma getRoom_Some (d : Db) (id : string) (r : Room) :
  getRoom d id = Some r -> In r (rooms d) /\ room_id r = id.
Proof.
  unfold getRoom. intro H. apply find_some in H. rewrite String.eqb_eq in H. exact H.
Qed.

Lemma getRoomByCode_Some (d : Db) (c : string) (r : Room) :
  getRoomByCode d c = Some r -> In r (rooms d) /\ code r = c.
Proof.
  unfold getRoomByCode. intro H. apply find_some in H. rewrite String.eqb_eq in H. exact H.
Qed.

Lemma find_NoDup_key {A} (key : A -> string) (l : list A) (x : A) :
  NoDup (map key l) -> In x l -> find (fun y => key y =? key x) l = Some x.
Proof.
  induction l as [|a l IH]; simpl; intros Hnd Hin; [destruct Hin|].
  inversion Hnd as [|? ? Hna Hnd']; subst.
  destruct Hin as [->|Hin].
  - rewrite String.eqb_refl. reflexivity.
  - destruct (key a =? key x) eqn:E.
    + apply String.eqb_eq in E. exfalso. apply Hna. rewrite E. apply in_map, Hin.
    + apply IH; assumption.
Qed.

Lemma getRoom_In (d : Db) (r : Room) :
  NoDup (map room_id (rooms d)) -> In r (rooms d) -> getRoom d (room_id r) = Some r.
Proof. intros. unfold getRoom. apply (find_NoDup_key room_id); assumption. Qed.

Lemma getRoomByCode_In (d : Db) (r : Room) :
  NoDup (map code (rooms d)) -> In r (rooms d) -> getRoomByCode d (code r) = Some r.
Proof. intros. unfold getRoomByCode. apply (find_NoDup_key code); assumption. Qed.

Lemma getRoom_exists (d : Db) (id : string) :
  In id (map room_id (rooms d)) -> exists r, getRoom d id = Some r.
Proof.
  intro H. apply in_map_iff in H. destruct H as [r [<- Hr]].
  unfold getRoom. destruct (find (fun r0 => room_id r0 =? room_id r) (rooms d)) eqn:E.
  - eexists; reflexivity.
  - exfalso. pose proof (find_none _ _ E r Hr) as H. simpl in H.
    rewrite String.eqb_refl in H. discriminate H.
Qed.

(** ** The storage operations maintain the constraints *)

(** Deleting rows keeps the item ids distinct. *)
Lemma item_ids_filter_NoDup (keep : QueueItem -> bool) (items : list QueueItem) :
  NoDup (map item_id items) -> NoDup (map item_id (filter keep items)).
Proof.
  induction items as [|a items IH]; simpl; intro H; [constructor|].
  inversion H as [|? ? Hn Hd]; subst.
  destruct (keep a); simpl; [|exact (IH Hd)].
  constructor; [|exact (IH Hd)].
  intro Hin. apply Hn. apply in_map_iff in Hin. destruct Hin as [x [E Hx]].
  apply filter_In in Hx. rewrite <- E. apply in_map, Hx.
Qed.

Lemma StronglySorted_snoc (l : list Z) (x : Z) :
  StronglySorted Z.lt l -> Forall (fun y => (y < x)%Z) l ->
  StronglySorted Z.lt (l ++ [x]).
Proof.
  induction 1 as [|a l Hs IH Ha]; simpl; intro Hall.
  - repeat constructor.
  - inversion Hall as [|? ? Hax Hall']; subst.
    constructor; [exact (IH Hall')|].
    apply Forall_app. split; [exact Ha | repeat constructor; exact Hax].
Qed.

Lemma room_items_updateRoom (d : Db) (id : string) (u : RoomUpdates) (rid : string) :
  room_items (updateRoom d id u) rid = room_items d rid.
Proof. reflexivity. Qed.

Lemma map_room_id_updateRoom (d : Db) (id : string) (u : RoomUpdates) :
  map room_id (rooms (updateRoom d id u)) = map room_id (rooms d).
Proof.
  simpl. rewrite map_map. apply map_ext. intro r.
  destruct (room_id r =? id); reflexivity.
Qed.

Lemma map_code_updateRoom (d : Db) (id : string) (u : RoomUpdates) :
  map code (rooms (updateRoom d id u)) = map code (rooms d).
Proof.
  simpl. rewrite map_map. apply map_ext. intro r.
  destruct (room_id r =? id); reflexivity.
Qed.

Lemma In_rooms_updateRoom (d : Db) (id : string) (u : RoomUpdates) (r : Room) :
  In r (rooms (updateRoom d id u)) ->
  exists r0, In r0 (rooms d) /\ room_id r = room_id r0 /\ code r = code r0 /\
             ((room_id r0 <> id /\ r = r0) \/
              (room_id r0 = id /\ r = apply_room_updates u r0)).
Proof.
  simpl. intro H. apply in_map_iff in H. destruct H as [r0 [E H0]].
  exists r0. split; [exact H0|].
  destruct (room_id r0 =? id) eqn:Eid; subst r.
  - apply String.eqb_eq in Eid. repeat split; auto.
  - apply String.eqb_neq in Eid. repeat split; auto.
Qed.

Lemma wf_updateRoom (d : Db) (id : string) (u : RoomUpdates) :
  wf_db d -> wf_db (updateRoom d id u).
Proof.
  intros [H1 H2 H3 H4 H5 H6 H7 H8]. constructor.
  - exact H1.
  - rewrite map_room_id_updateRoom. exact H2.
  - rewrite map_code_updateRoom. exact H3.
  - intros r Hr. apply In_rooms_updateRoom in Hr.
    destruct Hr as [r0 [H0 [_ [Ec _]]]]. rewrite Ec. apply H4, H0.
  - intros r Hr. apply In_rooms_updateRoom in Hr.
    destruct Hr as [r0 [H0 [Ei _]]]. rewrite Ei. apply H5, H0.
  - exact H6.
  - exact H7.
  - rewrite map_room_id_updateRoom. exact H8.
Qed.

Lemma room_items_updateQueueItem (d : Db) (id : string) (u : QueueItemUpdates) (rid : string) :
  room_items (updateQueueItem d id u) rid =
  map (fun q => if item_id q =? id then apply_item_updates u q else q) (room_items d rid).
Proof.
  unfold room_items. simpl. induction (queueItems d) as [|q l IH]; simpl; [reflexivity|].
  assert (E : roomId (if item_id q =? id then apply_item_updates u q else q) = roomId q)
    by (destruct (item_id q =? id); reflexivity).
  rewrite E. destruct (roomId q =? rid); simpl; rewrite IH; reflexivity.
Qed.

Lemma wf_updateQueueItem (d : Db) (id : string) (u : QueueItemUpdates) :
  wf_db d -> wf_db (updateQueueItem d id u).
Proof.
  intros [H1 H2 H3 H4 H5 H6 H7 H8]. constructor; try assumption.
  - simpl. rewrite map_map.
    erewrite map_ext; [exact H1|]. intro q. destruct (item_id q =? id); reflexivity.
  - simpl. intros q Hq. apply in_map_iff in Hq. destruct Hq as [q0 [E H0]].
    specialize (H6 q0 H0). subst q. destruct (item_id q0 =? id); exact H6.
  - intro rid. rewrite room_items_updateQueueItem, map_map.
    erewrite map_ext; [exact (H7 rid)|]. intro q. destruct (item_id q =? id); reflexivity.
  - simpl. intros q Hq. apply in_map_iff in Hq. destruct Hq as [q0 [E H0]].
    specialize (H8 q0 H0). subst q. destruct (item_id q0 =? id); exact H8.
Qed.

Lemma room_items_removeFromQueue (d : Db) (id : string) (rid : string) :
  room_items (removeFromQueue d id) rid =
  filter (fun q => negb (item_id q =? id)) (room_items d rid).
Proof.
  unfold room_items. simpl. induction (queueItems d) as [|q l IH]; simpl; [reflexivity|].
  destruct (item_id q =? id) eqn:E1, (roomId q =? rid) eqn:E2; simpl;
    rewrite ?E1, ?E2; simpl; rewrite IH; reflexivity.
Qed.

Lemma wf_removeFromQueue (d : Db) (id : string) :
  wf_db d -> wf_db (removeFromQueue d id).
Proof.
  intros [H1 H2 H3 H4 H5 H6 H7 H8]. constructor; try assumption.
  - simpl. apply item_ids_filter_NoDup, H1.
  - simpl. intros q Hq. apply filter_In in Hq. apply H6, Hq.
  - intro rid. rewrite room_items_removeFromQueue. apply StronglySorted_map_filter, H7.
  - simpl. intros q Hq. apply filter_In in Hq. apply H8, Hq.
Qed.

Lemma existsb_false_iff {A} (p : A -> bool) (l : list A) :
  existsb p l = false <-> forall x, In x l -> p x = false.
Proof.
  split.
  - intros H x Hx. destruct (p x) eqn:E; [|reflexivity].
    rewrite <- H. symmetry. apply existsb_exists. exists x. split; assumption.
  - intro H. destruct (existsb p l) eqn:E; [|reflexivity].
    apply existsb_exists in E. destruct E as [x [Hx Hp]]. rewrite (H x Hx) in Hp. discriminate.
Qed.

Lemma addToQueue_Some (d : Db) (uuid : string) (item : InsertQueueItem)
      (q : QueueItem) (d' : Db) :
  DatabaseStorage.addToQueue d uuid item = Some (q, d') ->
  q = mkQueueItem uuid (ins_roomId item) (ins_videoId item) (ins_title item)
        (ins_thumbnail item) (ins_channelTitle item) (ins_duration item)
        (ins_position item) (ins_status item) /\
  d' = mkDb (rooms d) (queueItems d ++ [q]) /\
  ~ In uuid (map item_id (queueItems d)) /\
  (ins_position item <= int4_max)%Z /\
  In (ins_roomId item) (map room_id (rooms d)).
Proof.
  unfold DatabaseStorage.addToQueue. intro H.
  destruct (existsb (fun q0 => item_id q0 =? uuid) (queueItems d)) eqn:E1; [discriminate H|].
  destruct (existsb (fun r => room_id r =? ins_roomId item) (rooms d)) eqn:E2;
    [|discriminate H].
  destruct (int4_max <? ins_position item)%Z eqn:E3; [discriminate H|].
  destruct (item_storable item) eqn:E4; [|discriminate H].
  simpl in H. injection H as <- <-. repeat split.
  - intro Hin. apply in_map_iff in Hin. destruct Hin as [x [Ex Hx]].
    rewrite existsb_false_iff in E1. specialize (E1 x Hx). simpl in E1.
    rewrite Ex, String.eqb_refl in E1. discriminate E1.
  - apply Z.ltb_ge in E3. exact E3.
  - apply existsb_exists in E2. destruct E2 as [r [Hr E2]].
    apply String.eqb_eq in E2. rewrite <- E2. apply in_map, Hr.
Qed.

Lemma room_items_app (rs : list Room) (l1 l2 : list QueueItem) (rid : string) :
  room_items (mkDb rs (l1 ++ l2)) rid =
  room_items (mkDb rs l1) rid ++ room_items (mkDb rs l2) rid.
Proof. unfold room_items. simpl. apply filter_app. Qed.

Lemma getMaxPosition_nonneg (d : Db) (rid : string) :
  (forall q, In q (queueItems d) -> (1 <= position q)%Z) ->
  (0 <= getMaxPosition d rid)%Z.
Proof.
  intro Hpos. destruct (room_items d rid) as [|q l] eqn:E.
  - rewrite (getMaxPosition_empty d rid E). lia.
  - assert (Hne : room_items d rid <> []) by (rewrite E; discriminate).
    pose proof (getMaxPosition_positive d rid Hpos Hne). lia.
Qed.

Lemma wf_addToQueue (d : Db) (uuid : string) (item : InsertQueueItem)
      (q : QueueItem) (d' : Db) :
  wf_db d ->
  ins_position item = (getMaxPosition d (ins_roomId item) + 1)%Z ->
  DatabaseStorage.addToQueue d uuid item = Some (q, d') ->
  wf_db d'.
Proof.
  intros [H1 H2 H3 H4 H5 H6 H7 H8] Hp Ha.
  apply addToQueue_Some in Ha. destruct Ha as [Eq [Ed [Hfresh [_ Hfk]]]].
  assert (Hpq : position q = (getMaxPosition d (roomId q) + 1)%Z)
    by (rewrite Eq; simpl; exact Hp).
  assert (Hid : item_id q = uuid) by (rewrite Eq; reflexivity).
  assert (Hrq : roomId q = ins_roomId item) by (rewrite Eq; reflexivity).
  clear Eq Hp. subst d'. constructor; simpl; try assumption.
  - rewrite map_app. simpl. apply NoDup_app.
    + exact H1.
    + repeat constructor. intros [].
    + intros x Hx [<-|[]]. rewrite Hid in Hx. exact (Hfresh Hx).
  - intros x Hx. apply in_app_iff in Hx. destruct Hx as [Hx|[<-|[]]]; [apply H6, Hx|].
    rewrite Hpq. pose proof (getMaxPosition_nonneg d (roomId q) H6). lia.
  - intro rid. rewrite room_items_app, map_app.
    replace (room_items {| rooms := rooms d; queueItems := queueItems d |} rid)
      with (room_items d rid) by reflexivity.
    unfold room_items at 2. simpl.
    destruct (roomId q =? rid) eqn:E; simpl.
    + apply String.eqb_eq in E. apply StronglySorted_snoc; [apply H7|].
      rewrite Forall_forall. intros y Hy. apply in_map_iff in Hy.
      destruct Hy as [x [<- Hx]]. apply room_items_In in Hx. destruct Hx as [Hx Hr].
      rewrite Hpq, E. pose proof (getMaxPosition_ge d rid x Hx Hr). lia.
    + rewrite app_nil_r. apply H7.
  - intros x Hx. apply in_app_iff in Hx. destruct Hx as [Hx|[<-|[]]]; [apply H8, Hx|].
    rewrite Hrq. exact Hfk.
Qed.

Lemma createRoom_Some (d : Db) (uuid : string) (ins : InsertRoom) (r : Room) (d' : Db) :
  DatabaseStorage.createRoom d uuid ins = Some (r, d') ->
  r = mkRoom uuid (ins_code ins) (ins_currentVideoId ins) (ins_currentVideoTitle ins)
        (ins_currentVideoThumbnail ins) (ins_isPlaying ins) /\
  d' = mkDb (rooms d ++ [r]) (queueItems d) /\
  ~ In uuid (map room_id (rooms d)) /\ ~ In (ins_code ins) (map code (rooms d)).
Proof.
  unfold DatabaseStorage.createRoom. intro H.
  destruct (existsb _ (rooms d)) eqn:E; [discriminate H|].
  destruct (room_storable ins); [|discriminate H]. simpl in H.
  injection H as <- <-. rewrite existsb_false_iff in E.
  repeat split; intro Hin; apply in_map_iff in Hin; destruct Hin as [x [Ex Hx]];
    specialize (E x Hx); simpl in E; rewrite Ex, String.eqb_refl in E;
    [|rewrite orb_true_r in E]; discriminate E.
Qed.

Lemma wf_createRoom (d : Db) (uuid : string) (ins : InsertRoom) (r : Room) (d' : Db) :
  wf_db d -> truthy uuid = true -> toUpperCase (ins_code ins) = ins_code ins ->
  DatabaseStorage.createRoom d uuid ins = Some (r, d') ->
  wf_db d'.
Proof.
  intros [H1 H2 H3 H4 H5 H6 H7 H8] Ht Hu Hc.
  apply createRoom_Some in Hc. destruct Hc as [Er [Ed [Hf1 Hf2]]].
  subst d'. constructor; simpl; try assumption.
  - rewrite map_app. simpl. apply NoDup_app; [exact H2 | repeat constructor; intros [] |].
    intros x Hx [<-|[]]. rewrite Er in Hx. exact (Hf1 Hx).
  - rewrite map_app. simpl. apply NoDup_app; [exact H3 | repeat constructor; intros [] |].
    intros x Hx [<-|[]]. rewrite Er in Hx. exact (Hf2 Hx).
  - intros x Hx. apply in_app_iff in Hx. destruct Hx as [Hx|[<-|[]]]; [apply H4, Hx|].
    rewrite Er. exact Hu.
  - intros x Hx. apply in_app_iff in Hx. destruct Hx as [Hx|[<-|[]]]; [apply H5, Hx|].
    rewrite Er. exact Ht.
  - intros q Hq. rewrite map_app. apply in_or_app. left. apply H8, Hq.
Qed.

(** ** Room codes *)

Lemma toUpperCase_app (a b : string) :
  toUpperCase (a ++ b) = (toUpperCase a ++ toUpperCase b)%string.
Proof. induction a as [|c a IH]; simpl; [reflexivity | rewrite IH; reflexivity]. Qed.

Lemma charAt_chars_upper (k : nat) :
  toUpperCase (charAt chars k) = charAt chars k.
Proof.
  do 32 (destruct k as [|k]; [reflexivity|]). reflexivity.
Qed.

Lemma generateRoomCode_from_upper (i : nat) (random : list nat) (code : string) :
  toUpperCase code = code ->
  toUpperCase (generateRoomCode_from i random code) = generateRoomCode_from i random code.
Proof.
  revert random code. induction i as [|i IH]; intros random code H; simpl; [exact H|].
  apply IH. rewrite toUpperCase_app, H, charAt_chars_upper. reflexivity.
Qed.

Lemma generateRoomCode_upper (random : list nat) :
  toUpperCase (generateRoomCode random) = generateRoomCode random.
Proof. apply generateRoomCode_from_upper. reflexivity. Qed.

Lemma free_code_upper (d : Db) (retries : list (list nat)) (c c' : string) :
  toUpperCase c = c -> free_code d c retries = Some c' -> toUpperCase c' = c'.
Proof.
  revert c. induction retries as [|random retries IH]; intros c Hc; simpl.
  - destruct (getRoomByCode d c); [discriminate|]. intro H. injection H as <-. exact Hc.
  - destruct (getRoomByCode d c).
    + apply IH, generateRoomCode_upper.
    + intro H. injection H as <-. exact Hc.
Qed.

Lemma toUpperCase_toLowerCase_ascii (c : ascii) :
  toUpperCase_ascii (toLowerCase_ascii c) = toUpperCase_ascii c.
Proof.
  destruct c as [[] [] [] [] [] [] [] []]; reflexivity.
Qed.

Lemma toUpperCase_toLowerCase (s : string) :
  toUpperCase (toLowerCase s) = toUpperCase s.
Proof.
  induction s as [|c s IH]; simpl; [reflexivity|].
  rewrite toUpperCase_toLowerCase_ascii, IH. reflexivity.
Qed.

(** ** Every run maintains the constraints *)

Lemma wf_with_db (w : World) (d : Db) :
  wf w -> wf_db d -> map room_id (rooms d) = map room_id (rooms (db w)) ->
  wf (with_db d w).
Proof.
  intros [_ Hs] Hd Hr. split; [exact Hd|].
  intros ws rid H. simpl in *. rewrite Hr. exact (Hs ws rid H).
Qed.

Lemma with_db_with_db (w : World) (d d' : Db) :
  with_db d' (with_db d w) = with_db d' w.
Proof. reflexivity. Qed.

Lemma with_db_same (w : World) : with_db (db w) w = w.
Proof. destruct w; reflexivity. Qed.

Ltac unfold_handler :=
  cbv beta iota delta
    [routes.on_message routes.on_close routes.post_rooms routes.get_room
     routes.post_queue routes.delete_queue_item legacy_routes.delete_queue
     try_catch bind ret throw JSON_parse world_of sent_of outcome_of
     storage.createRoom storage.getRoomByCode storage.getRoom storage.updateRoom
     storage.addToQueue storage.getQueueByRoomId storage.getNextInQueue
     storage.removeFromQueue storage.updateQueueItem storage.getMaxPosition
     ws_send broadcastToRoom assign_currentRoomId read_currentRoomId
     register_connection].

(** Case analysis on the innermost scrutinee a handler is stuck on. *)
Ltac no_match_inside t :=
  lazymatch t with
  | context [match _ with _ => _ end] => fail
  | _ => idtac
  end.

Ltac break_inner :=
  match goal with
  | |- context [match ?scrutinee with _ => _ end] =>
      no_match_inside scrutinee; destruct scrutinee eqn:?
  | |- context [if ?test then _ else _] =>
      no_match_inside test; destruct test eqn:?
  end.

Ltac run_handler := unfold_handler; simpl; repeat (break_inner; simpl).

Lemma get_currentRoomId_In (w : World) (ws : WS) (rid : string) :
  get_currentRoomId w ws = Some rid -> In (ws, rid) (currentRoomId w).
Proof.
  unfold get_currentRoomId.
  destruct (find (fun e => (fst e =? ws)%nat) (currentRoomId w)) as [[ws' rid']|] eqn:E;
    [|discriminate].
  intro H. injection H as <-. apply find_some in E. destruct E as [Hin E].
  simpl in E. apply Nat.eqb_eq in E. subst ws'. exact Hin.
Qed.

(** A connection that has joined points at an existing room. *)
Lemma wf_joined (w : World) (ws : WS) (rid : string) :
  wf w -> get_currentRoomId w ws = Some rid ->
  truthy rid = true /\
  exists r, getRoom (db w) rid = Some r /\ In r (rooms (db w)) /\ room_id r = rid.
Proof.
  intros [Hd Hs] H. apply get_currentRoomId_In in H. specialize (Hs ws rid H).
  destruct (getRoom_exists _ _ Hs) as [r Hr]. pose proof (getRoom_Some _ _ _ Hr) as [Hin E].
  split.
  - rewrite <- E. apply (wf_room_ids_truthy _ Hd), Hin.
  - exists r. auto.
Qed.

Lemma wf_sessions (w : World) (m : list (string * list WS))
      (cur : list (WS * string)) (no : list WS) :
  wf w ->
  (forall ws rid, In (ws, rid) cur ->
                  In (ws, rid) (currentRoomId w) \/ In rid (map room_id (rooms (db w)))) ->
  wf (mkWorld (db w) m cur no).
Proof.
  intros [Hd Hs] H. split; [exact Hd|]. simpl. intros ws rid Hin.
  destruct (H ws rid Hin) as [H'|H']; [exact (Hs ws rid H') | exact H'].
Qed.

Create HintDb constraints.
#[local] Hint Resolve wf_updateRoom wf_updateQueueItem wf_removeFromQueue : constraints.

Ltac solve_wf_db H := pose proof (proj1 H); auto with constraints.

Lemma wf_react (w : World) (e : Event) :
  wf w -> possible w e = true -> wf (react e w).
Proof.
  intros H Hp. destruct e; simpl in *.
  - (* POST /api/rooms *)
    run_handler; try exact H.
    match goal with
    | Hc : DatabaseStorage.createRoom _ _ _ = Some (_, _),
      Hf : free_code _ _ _ = Some _ |- _ =>
        pose proof (createRoom_Some _ _ _ _ _ Hc) as [Er [Ed _]];
        split;
        [ simpl; eapply wf_createRoom; [exact (proj1 H) | exact Hp | | exact Hc];
          simpl; eapply free_code_upper; [|exact Hf]; apply generateRoomCode_upper
        | simpl; intros ws rid Hin; rewrite Ed; simpl; rewrite map_app;
          apply in_or_app; left; exact (proj2 H ws rid Hin) ]
    end.
  - (* GET /api/rooms/:code *)
    run_handler; exact H.
  - (* POST /api/rooms/:code/queue *)
    run_handler; try exact H;
    match goal with
    | Ha : DatabaseStorage.addToQueue _ _ _ = Some (_, _) |- _ =>
        rewrite ?with_db_with_db;
        pose proof (addToQueue_Some _ _ _ _ _ Ha) as [_ [Ed _]];
        apply wf_with_db;
        [ exact H
        | try apply wf_updateRoom;
          eapply wf_addToQueue; [exact (proj1 H) | | exact Ha]; reflexivity
        | rewrite ?map_room_id_updateRoom, Ed; reflexivity ]
    end.
  - (* DELETE /api/rooms/:code/queue/:itemId *)
    run_handler; try exact H; rewrite ?with_db_with_db;
      (apply wf_with_db; [exact H | solve_wf_db H | rewrite ?map_room_id_updateRoom; reflexivity]).
  - (* DELETE /api/queue/:id *)
    run_handler. apply wf_with_db; [exact H | solve_wf_db H | reflexivity].
  - (* message *)
    run_handler; try exact H; rewrite ?with_db_with_db;
      try (apply wf_with_db;
           [exact H | solve_wf_db H | rewrite ?map_room_id_updateRoom; reflexivity]);
      match goal with
      | Hg : getRoomByCode _ _ = Some _ |- _ =>
          apply wf_sessions; [exact H|]; intros ws0 rid [E|Hin];
          [ injection E as <- <-; right; apply in_map;
            exact (proj1 (getRoomByCode_Some _ _ _ Hg))
          | left; apply filter_In in Hin; exact (proj1 Hin) ]
      end.
  - (* closing *)
    apply wf_sessions; [exact H | auto].
  - (* close *)
    unfold routes.on_close, world_of. simpl. repeat (break_inner; simpl);
      apply wf_sessions; auto.
Qed.

Lemma wf_initial : wf initial.
Proof.
  split; [|intros ws rid []].
  constructor; simpl; try constructor; intros ? [].
Qed.

Lemma wf_step (w : World) (e : Event) : wf w -> wf (step w e).
Proof.
  intro H. unfold step. destruct (possible w e) eqn:E; [apply wf_react; assumption | exact H].
Qed.

Lemma wf_run (es : list Event) (w : World) : wf w -> wf (run es w).
Proof.
  revert w. induction es as [|e es IH]; intros w H; simpl; [exact H|].
  apply IH, wf_step, H.
Qed.

Lemma reachable_wf (w : World) : reachable w -> wf w.
Proof. intros [es <-]. apply wf_run, wf_initial. Qed.

(** ** Rooms after an update *)

Lemma find_map_inv {A} (p : A -> bool) (f : A -> A) (l : list A) :
  (forall x, p (f x) = p x) -> find p (map f l) = option_map f (find p l).
Proof.
  intro H. induction l as [|a l IH]; simpl; [reflexivity|].
  rewrite H. destruct (p a); [reflexivity | exact IH].
Qed.

Lemma getRoom_updateRoom (d : Db) (id : string) (u : RoomUpdates) (rid : string) :
  getRoom (updateRoom d id u) rid =
  option_map (fun r => if room_id r =? id then apply_room_updates u r else r)
             (getRoom d rid).
Proof.
  unfold getRoom. simpl. apply find_map_inv. intro r.
  destruct (room_id r =? id); reflexivity.
Qed.

Lemma getRoom_updateRoom_same (d : Db) (id : string) (u : RoomUpdates) (r : Room) :
  getRoom d id = Some r ->
  getRoom (updateRoom d id u) id = Some (apply_room_updates u r).
Proof.
  intro H. rewrite getRoom_updateRoom, H. simpl.
  apply getRoom_Some in H. destruct H as [_ ->]. rewrite String.eqb_refl. reflexivity.
Qed.

Lemma getRoomByCode_updateRoom (d : Db) (id : string) (u : RoomUpdates) (c : string) :
  getRoomByCode (updateRoom d id u) c =
  option_map (fun r => if room_id r =? id then apply_room_updates u r else r)
             (getRoomByCode d c).
Proof.
  unfold getRoomByCode. simpl. apply find_map_inv. intro r.
  destruct (room_id r =? id); reflexivity.
Qed.

(** ** What the real-time handler does, case by case *)

Lemma on_message_set_playing (ws : WS) (m : WSMessage) (w : World) (rid : string) (b : bool) :
  type m = (if b then "play" else "pause") ->
  get_currentRoomId w ws = Some rid -> truthy rid = true ->
  routes.on_message ws (Json m) w =
  (Return tt, with_db (updateRoom (db w) rid (only_isPlaying b)) w,
   broadcast w rid (playback_state b)).
Proof.
  intros Ht Hc Hr. unfold_handler. rewrite Ht.
  destruct b; simpl; rewrite Hc, Hr; simpl; rewrite ?app_nil_r; reflexivity.
Qed.

Lemma on_message_join_missing (ws : WS) (m : WSMessage) (w : World) :
  type m = "join_room" -> getRoomByCode (db w) (roomCode m) = None ->
  routes.on_message ws (Json m) w = (Return tt, w, [(ws, error "Room not found")]).
Proof.
  intros Ht Hc. unfold_handler. rewrite Ht. simpl. rewrite Hc. reflexivity.
Qed.

Lemma on_message_skip (ws : WS) (m : WSMessage) (w : World) (rid : string) (r : Room) :
  type m = "skip_song" ->
  get_currentRoomId w ws = Some rid -> truthy rid = true ->
  getRoom (db w) rid = Some r ->
  routes.on_message ws (Json m) w =
  match getNextInQueue (after_removal (db w) rid) rid with
  | Some nextItem =>
      (Return tt, with_db (promoted (after_removal (db w) rid) rid nextItem) w,
       broadcast w rid (current_song (Some (videoId nextItem)) (Some (title nextItem))
                                     (Some (thumbnail nextItem)))
       ++ broadcast w rid
            (queue_updated
               (getQueueByRoomId (promoted (after_removal (db w) rid) rid nextItem) rid))
       ++ broadcast w rid (playback_state true))
  | None =>
      (Return tt, with_db (updateRoom (after_removal (db w) rid) rid clear_current) w,
       broadcast w rid (current_song None None None)
       ++ broadcast w rid (queue_updated [])
       ++ broadcast w rid (playback_state false))
  end.
Proof.
  intros Ht Hc Hr Hg. unfold_handler. rewrite Ht. simpl. rewrite Hc, Hr. simpl.
  rewrite Hg. unfold after_removal, is_playing.
  destruct (find (fun item => Status_eqb (status item) playing)
                 (getQueueByRoomId (db w) rid)) as [c|]; simpl.
  - destruct (getNextInQueue (removeFromQueue (db w) (item_id c)) rid) as [n|]; simpl;
      rewrite ?app_nil_r; reflexivity.
  - destruct (getNextInQueue (db w) rid) as [n|]; simpl;
      rewrite ?app_nil_r; reflexivity.
Qed.

(** ** What the queue routes do, case by case *)

Lemma post_queue_added (w : World) (code0 : string) (body : Body) (uuid : string)
      (r : Room) (data : AddToQueueData) (item : QueueItem) (d1 : Db) :
  getRoomByCode (db w) (toUpperCase code0) = Some r ->
  addToQueueSchema_safeParse body = Some data ->
  DatabaseStorage.addToQueue (db w) uuid
    (insert_of r data (getMaxPosition (db w) (room_id r))) = Some (item, d1) ->
  routes.post_queue code0 body uuid w =
  if (getMaxPosition (db w) (room_id r) =? 0)%Z
  then (Return (json_item item),
        with_db (updateRoom d1 (room_id r) (set_current_data data)) w,
        broadcast w (room_id r)
          (current_song (Some (data_videoId data)) (Some (data_title data))
                        (Some (data_thumbnail data)))
        ++ broadcast w (room_id r) (playback_state true)
        ++ broadcast w (room_id r) (song_added item)
        ++ broadcast w (room_id r)
             (queue_updated
                (getQueueByRoomId (updateRoom d1 (room_id r) (set_current_data data))
                                  (room_id r))))
  else (Return (json_item item), with_db d1 w,
        broadcast w (room_id r) (song_added item)
        ++ broadcast w (room_id r) (queue_updated (getQueueByRoomId d1 (room_id r)))).
Proof.
  intros Hr Hd Ha. unfold insert_of in Ha. unfold_handler. rewrite Hr, Hd.
  destruct (getMaxPosition (db w) (room_id r) =? 0)%Z eqn:E; simpl;
    rewrite Ha; simpl; rewrite ?app_nil_r, <- ?app_assoc; reflexivity.
Qed.

Lemma post_queue_inv (w : World) (code0 : string) (body : Body) (uuid : string)
      (item : QueueItem) :
  outcome_of (routes.post_queue code0 body uuid w) = Return (json_item item) ->
  exists r data d1,
    getRoomByCode (db w) (toUpperCase code0) = Some r /\
    addToQueueSchema_safeParse body = Some data /\
    DatabaseStorage.addToQueue (db w) uuid
      (insert_of r data (getMaxPosition (db w) (room_id r))) = Some (item, d1).
Proof.
  unfold insert_of. run_handler; intro H; try discriminate H;
    injection H as <-; eexists _, _, _; repeat split; try eassumption;
    match goal with
    | E : (_ =? 0)%Z = _, Ha : DatabaseStorage.addToQueue _ _ _ = _ |- _ =>
        rewrite E; exact Ha
    end.
Qed.

Lemma delete_queue_item_found (w : World) (code0 itemId : string) (r : Room) (x : QueueItem) :
  getRoomByCode (db w) (toUpperCase code0) = Some r ->
  find (fun item => item_id item =? itemId) (getQueueByRoomId (db w) (room_id r)) = Some x ->
  routes.delete_queue_item code0 itemId w =
  if is_playing x then
    match getNextInQueue (removeFromQueue (db w) itemId) (room_id r) with
    | Some nextItem =>
        (Return json_success,
         with_db (promoted (removeFromQueue (db w) itemId) (room_id r) nextItem) w,
         broadcast w (room_id r)
           (current_song (Some (videoId nextItem)) (Some (title nextItem))
                         (Some (thumbnail nextItem)))
         ++ broadcast w (room_id r) (playback_state true)
         ++ broadcast w (room_id r) (song_removed itemId)
         ++ broadcast w (room_id r)
              (queue_updated
                 (getQueueByRoomId
                    (promoted (removeFromQueue (db w) itemId) (room_id r) nextItem)
                    (room_id r))))
    | None =>
        (Return json_success,
         with_db (updateRoom (removeFromQueue (db w) itemId) (room_id r) clear_current) w,
         broadcast w (room_id r) (current_song None None None)
         ++ broadcast w (room_id r) (playback_state false)
         ++ broadcast w (room_id r) (song_removed itemId)
         ++ broadcast w (room_id r)
              (queue_updated
                 (getQueueByRoomId
                    (updateRoom (removeFromQueue (db w) itemId) (room_id r) clear_current)
                    (room_id r))))
    end
  else
    (Return json_success, with_db (removeFromQueue (db w) itemId) w,
     broadcast w (room_id r) (song_removed itemId)
     ++ broadcast w (room_id r)
          (queue_updated (getQueueByRoomId (removeFromQueue (db w) itemId) (room_id r)))).
Proof.
  intros Hr Hx. unfold_handler. rewrite Hr. simpl. rewrite Hx. unfold is_playing.
  destruct (Status_eqb (status x) playing); simpl.
  - destruct (getNextInQueue (removeFromQueue (db w) itemId) (room_id r)) as [n|]; simpl;
      rewrite ?app_nil_r, <- ?app_assoc; reflexivity.
  - rewrite ?app_nil_r, <- ?app_assoc. reflexivity.
Qed.

Lemma delete_queue_item_absent (w : World) (code0 itemId : string) (r : Room) :
  getRoomByCode (db w) (toUpperCase code0) = Some r ->
  find (fun item => item_id item =? itemId) (getQueueByRoomId (db w) (room_id r)) = None ->
  routes.delete_queue_item code0 itemId w =
  (Return (status_error 404 "Queue item not found"), w, []).
Proof.
  intros Hr Hx. unfold_handler. rewrite Hr. simpl. rewrite Hx. reflexivity.
Qed.

Lemma delete_queue_item_no_room (w : World) (code0 itemId : string) :
  getRoomByCode (db w) (toUpperCase code0) = None ->
  routes.delete_queue_item code0 itemId w =
  (Return (status_error 404 "Room not found"), w, []).
Proof.
  intros Hr. unfold_handler. rewrite Hr. reflexivity.
Qed.

Lemma legacy_delete_queue_eq (w : World) (id : string) :
  legacy_routes.delete_queue id w =
  (Return json_success, with_db (removeFromQueue (db w) id) w, []).
Proof. reflexivity. Qed.

(** ** Concrete runs used as witnesses *)

Lemma reachable_world_room : reachable world_room.
Proof. exists events_room. reflexivity. Qed.

Lemma reachable_world_AB : reachable world_AB.
Proof. exists events_AB. reflexivity. Qed.

(** ** Pause *)

Lemma updateRoom_twice (d : Db) (id : string) (u : RoomUpdates) :
  updateRoom (updateRoom d id u) id u = updateRoom d id u.
Proof.
  unfold updateRoom. simpl. f_equal. rewrite map_map. apply map_ext. intro r.
  destruct (room_id r =? id) eqn:E; simpl; rewrite E; [|reflexivity].
  destruct u as [[v1|] [v2|] [v3|] [v4|]]; reflexivity.
Qed.

(** C9. For a connection whose current room is a room of the database,
    whatever the room's flag was, two pause intents in a row each leave
    the room's row as it was but for [isPlaying], which is false, and
    each broadcast [playback_state] with [isPlaying = false] to the
    room: the second message is sent again, to the same recipients, and
    the second pause leaves the state the first one left. *)
Theorem pause_twice (w : World) (ws : WS) (rid : string) (r : Room) (m1 m2 : WSMessage) :
  get_currentRoomId w ws = Some rid -> truthy rid = true ->
  getRoom (db w) rid = Some r ->
  type m1 = "pause" -> type m2 = "pause" ->
  let first := routes.on_message ws (Json m1) w in
  let second := routes.on_message ws (Json m2) (world_of first) in
  let paused := mkRoom (room_id r) (code r) (currentVideoId r) (currentVideoTitle r)
                       (currentVideoThumbnail r) false in
  outcome_of first = Return tt /\
  getRoom (db (world_of first)) rid = Some paused /\
  sent_of first = broadcast w rid (playback_state false) /\
  outcome_of second = Return tt /\
  getRoom (db (world_of second)) rid = Some paused /\
  sent_of second = broadcast w rid (playback_state false) /\
  world_of second = world_of first.
Proof.
  intros Hj Ht Hg H1 H2. cbv zeta.
  rewrite (on_message_set_playing ws m1 w rid false H1 Hj Ht).
  unfold world_of, sent_of, outcome_of. simpl fst. simpl snd.
  rewrite (on_message_set_playing ws m2
             (with_db (updateRoom (db w) rid (only_isPlaying false)) w) rid false H2 Hj Ht).
  simpl fst. simpl snd.
  pose proof (getRoom_updateRoom_same (db w) rid (only_isPlaying false) r Hg) as Hg1.
  unfold with_db at 1 3. cbn [db roomConnections currentRoomId notOpen with_db].
  rewrite updateRoom_twice.
  repeat split; try reflexivity; exact Hg1.
Qed.

Lemma pause_twice_witness :
  getRoom (db world_AB) "r1"
  = Some (mkRoom "r1" "ABCDEF" (Some "v1") (Some "Song A") (Some "t1") true) /\
  getRoom (db (world_of (routes.on_message 7 (msg "pause") world_AB))) "r1"
  = Some (mkRoom "r1" "ABCDEF" (Some "v1") (Some "Song A") (Some "t1") false) /\
  sent_of (routes.on_message 7 (msg "pause")
             (world_of (routes.on_message 7 (msg "pause") world_AB)))
  = [(7, playback_state false)].
Proof.
  pose proof (pause_twice world_AB 7 "r1"
                (mkRoom "r1" "ABCDEF" (Some "v1") (Some "Song A") (Some "t1") true)
                (mkWSMessage "pause" "") (mkWSMessage "pause" "")
                eq_refl eq_refl eq_refl eq_refl eq_refl) as H.
  split; [reflexivity|]. split.
  - exact (proj1 (proj2 H)).
  - exact (proj1 (proj2 (proj2 (proj2 (proj2 (proj2 H)))))).
Defined.

(** ** Advance *)

Lemma NoDup_key_inj {A B} (key : A -> B) (l : list A) (x y : A) :
  NoDup (map key l) -> In x l -> In y l -> key x = key y -> x = y.
Proof.
  induction l as [|a l IH]; simpl; intros Hnd Hx Hy E; [destruct Hx|].
  inversion Hnd as [|? ? Hn Hd]; subst.
  destruct Hx as [->|Hx], Hy as [->|Hy].
  - reflexivity.
  - exfalso. apply Hn. rewrite E. apply in_map, Hy.
  - exfalso. apply Hn. rewrite <- E. apply in_map, Hx.
  - apply IH; assumption.
Qed.

Lemma find_filter_same {A} (f p : A -> bool) (l : list A) :
  (forall x, In x l -> f x = true -> p x = true) ->
  find f (filter p l) = find f l.
Proof.
  induction l as [|a l IH]; simpl; intro H; [reflexivity|].
  destruct (f a) eqn:Ef.
  - rewrite (H a (or_introl eq_refl) Ef). simpl. rewrite Ef. reflexivity.
  - destruct (p a); simpl; rewrite ?Ef; apply IH; intros x Hx; apply H; right; exact Hx.
Qed.

Lemma find_is_playing_Some (d : Db) (rid : string) (c : QueueItem) :
  find is_playing (getQueueByRoomId d rid) = Some c ->
  In c (queueItems d) /\ roomId c = rid /\ status c = playing.
Proof.
  intro H. apply find_some in H. destruct H as [Hin Hp].
  apply getQueueByRoomId_In in Hin. destruct Hin as [Hin Hr].
  apply Status_eqb_eq in Hp. auto.
Qed.

Lemma wf_after_removal (d : Db) (rid : string) : wf_db d -> wf_db (after_removal d rid).
Proof.
  intro H. unfold after_removal.
  destruct (find is_playing (getQueueByRoomId d rid)); [apply wf_removeFromQueue|]; exact H.
Qed.

Lemma rooms_after_removal (d : Db) (rid : string) : rooms (after_removal d rid) = rooms d.
Proof.
  unfold after_removal. destruct (find is_playing (getQueueByRoomId d rid)); reflexivity.
Qed.

(** Removing a playing item does not change which item is next. *)
Lemma getNextInQueue_removeFromQueue (d : Db) (rid : string) (c : QueueItem) :
  wf_db d -> In c (queueItems d) -> status c = playing ->
  getNextInQueue (removeFromQueue d (item_id c)) rid = getNextInQueue d rid.
Proof.
  intros Hwf Hc Hs. rewrite !getNextInQueue_find.
  rewrite (getQueueByRoomId_wf _ rid (wf_removeFromQueue d (item_id c) Hwf)).
  rewrite (getQueueByRoomId_wf d rid Hwf), room_items_removeFromQueue.
  apply find_filter_same. intros x Hx Hw.
  apply room_items_In in Hx. destruct Hx as [Hx _].
  apply negb_true_iff. apply String.eqb_neq. intro E.
  pose proof (NoDup_key_inj item_id _ x c (wf_item_ids d Hwf) Hx Hc E) as ->.
  unfold is_waiting in Hw. rewrite Hs in Hw. discriminate Hw.
Qed.

Lemma getNextInQueue_after_removal (d : Db) (rid : string) :
  wf_db d -> getNextInQueue (after_removal d rid) rid = getNextInQueue d rid.
Proof.
  intro Hwf. unfold after_removal.
  destruct (find is_playing (getQueueByRoomId d rid)) as [c|] eqn:E; [|reflexivity].
  apply find_is_playing_Some in E. destruct E as [Hc [_ Hs]].
  apply getNextInQueue_removeFromQueue; assumption.
Qed.

Lemma item_ids_promoted (d : Db) (rid : string) (n : QueueItem) :
  map item_id (queueItems (promoted d rid n)) = map item_id (queueItems d).
Proof.
  simpl. rewrite map_map. apply map_ext. intro q.
  destruct (item_id q =? item_id n); reflexivity.
Qed.

Lemma In_promoted (d : Db) (rid : string) (n : QueueItem) :
  In n (queueItems d) ->
  In (apply_item_updates (mkQueueItemUpdates (Some playing)) n)
     (queueItems (promoted d rid n)).
Proof.
  intro H. simpl. apply in_map_iff. exists n. split; [|exact H].
  rewrite String.eqb_refl. reflexivity.
Qed.

Lemma removed_item_gone (d : Db) (id : string) :
  ~ In id (map item_id (queueItems (removeFromQueue d id))).
Proof.
  simpl. intro H. apply in_map_iff in H. destruct H as [x [E Hx]].
  apply filter_In in Hx. destruct Hx as [_ Hx]. rewrite E, String.eqb_refl in Hx.
  discriminate Hx.
Qed.

(** C1. For a connection that has joined room [rid], the [skip_song]
    handler removes the playing item of the room if there is one, and
    selects the waiting item [n] of the room with the smallest position.
    If there is one, it is marked playing, the room's current-item
    fields mirror it with [isPlaying = true], and [current_song],
    [queue_updated] and [playback_state] are broadcast to the room. If
    there is none, the room's current-item fields are null, [isPlaying]
    is false, and the three messages carry null, the empty queue and
    false. *)
Theorem skip_song_advances (w : World) (ws : WS) (rid : string) (m : WSMessage) :
  reachable w ->
  get_currentRoomId w ws = Some rid ->
  type m = "skip_song" ->
  let d := db w in
  let result := routes.on_message ws (Json m) w in
  let d' := db (world_of result) in
  outcome_of result = Return tt /\
  (forall c, find is_playing (getQueueByRoomId d rid) = Some c ->
             ~ In (item_id c) (map item_id (queueItems d'))) /\
  match getNextInQueue d rid with
  | Some n =>
      (In n (queueItems d) /\ roomId n = rid /\ status n = waiting /\
       forall q, In q (queueItems d) -> roomId q = rid -> status q = waiting ->
                 (position n <= position q)%Z) /\
      In (apply_item_updates (mkQueueItemUpdates (Some playing)) n) (queueItems d') /\
      (exists r, getRoom d' rid = Some r /\
                 currentVideoId r = Some (videoId n) /\
                 currentVideoTitle r = Some (title n) /\
                 currentVideoThumbnail r = Some (thumbnail n) /\
                 isPlaying r = true) /\
      sent_of result =
        broadcast w rid (current_song (Some (videoId n)) (Some (title n))
                                      (Some (thumbnail n)))
        ++ broadcast w rid (queue_updated (getQueueByRoomId d' rid))
        ++ broadcast w rid (playback_state true)
  | None =>
      (forall q, In q (queueItems d) -> roomId q = rid -> status q <> waiting) /\
      (exists r, getRoom d' rid = Some r /\
                 currentVideoId r = None /\
                 currentVideoTitle r = None /\
                 currentVideoThumbnail r = None /\
                 isPlaying r = false) /\
      sent_of result =
        broadcast w rid (current_song None None None)
        ++ broadcast w rid (queue_updated [])
        ++ broadcast w rid (playback_state false)
  end.
Proof.
  intros Hreach Hj Hty.
  pose proof (reachable_wf w Hreach) as Hwf.
  destruct (wf_joined w ws rid Hwf Hj) as [Ht [r [Hg _]]].
  destruct Hwf as [Hd _].
  cbv zeta. rewrite (on_message_skip ws m w rid r Hty Hj Ht Hg).
  rewrite (getNextInQueue_after_removal (db w) rid Hd).
  assert (Hgone : forall d2 c,
             map item_id (queueItems d2)
               = map item_id (queueItems (after_removal (db w) rid)) ->
             find is_playing (getQueueByRoomId (db w) rid) = Some c ->
             ~ In (item_id c) (map item_id (queueItems d2))).
  { intros d2 c E Hc. rewrite E. unfold after_removal. rewrite Hc.
    apply removed_item_gone. }
  assert (Hg1 : getRoom (after_removal (db w) rid) rid = Some r).
  { unfold getRoom. rewrite rooms_after_removal. exact Hg. }
  destruct (getNextInQueue (db w) rid) as [n|] eqn:En;
    unfold world_of, sent_of, outcome_of; simpl fst; simpl snd.
  - pose proof (getNextInQueue_Some (db w) rid n En) as Hn.
    split; [reflexivity|]. split.
    { intros c Hc. apply (Hgone _ c); [apply item_ids_promoted | exact Hc]. }
    split; [exact Hn|]. split.
    { apply In_promoted.
      rewrite <- (getNextInQueue_after_removal (db w) rid Hd) in En.
      apply getNextInQueue_Some in En. apply En. }
    split; [|reflexivity].
    exists (apply_room_updates (set_current n) r). split; [|simpl; auto].
    unfold promoted. apply getRoom_updateRoom_same. exact Hg1.
  - split; [reflexivity|]. split.
    { intros c Hc. apply (Hgone _ c); [reflexivity | exact Hc]. }
    split.
    { intros q Hq Hr Hw. rewrite getNextInQueue_None in En.
      rewrite (En q Hq Hr) in Hw. discriminate Hw. }
    split; [|reflexivity].
    exists (apply_room_updates clear_current r). split; [|simpl; auto].
    apply getRoom_updateRoom_same. exact Hg1.
Qed.

(** Scenario B. *)
Lemma skip_song_advances_witness :
  sent_of (routes.on_message 7 (msg "skip_song") world_AB)
  = [(7, current_song (Some "v2") (Some "Song B") (Some "t2"));
     (7, queue_updated [mkQueueItem "i2" "r1" "v2" "Song B" "t2" None None 2 playing]);
     (7, playback_state true)].
Proof.
  exact (proj2 (proj2 (proj2 (proj2 (proj2
    (skip_song_advances world_AB 7 "r1" (mkWSMessage "skip_song" "")
       (ex_intro _ events_AB eq_refl) eq_refl eq_refl)))))).
Defined.

(** ** Removal by room code and item id *)

(** C5. When no item with the given id belongs to the room the code
    names, [DELETE /api/rooms/:code/queue/:itemId] answers 404, leaves
    the whole server state as it was and sends nothing. The code is
    any ASCII string the database accepts as a parameter, in any
    letter case. *)
Theorem delete_missing_item_not_found (w : World) (code0 itemId : string) :
  is_ascii code0 = true -> storable code0 = true ->
  (forall r q, getRoomByCode (db w) (toUpperCase code0) = Some r ->
               In q (queueItems (db w)) -> roomId q = room_id r ->
               item_id q <> itemId) ->
  exists message,
    routes.delete_queue_item code0 itemId w = (Return (status_error 404 message), w, []).
Proof.
  intros _ _ H. destruct (getRoomByCode (db w) (toUpperCase code0)) as [r|] eqn:Er.
  - exists "Queue item not found". apply (delete_queue_item_absent w code0 itemId r Er).
    apply find_some_iff_In. intros x Hx. apply getQueueByRoomId_In in Hx.
    destruct Hx as [Hx Hr]. apply String.eqb_neq. exact (H r x eq_refl Hx Hr).
  - exists "Room not found". apply delete_queue_item_no_room. exact Er.
Qed.

Lemma delete_missing_item_not_found_witness :
  exists message,
    routes.delete_queue_item "ABCDEF" "i9" world_AB
    = (Return (status_error 404 message), world_AB, []).
Proof.
  apply (delete_missing_item_not_found world_AB "ABCDEF" "i9");
    [reflexivity | reflexivity |].
  intros r q _ Hq _. simpl in Hq.
  destruct Hq as [<-|[<-|[]]]; simpl; discriminate.
Defined.

Lemma filter_all {A} (p : A -> bool) (l : list A) :
  (forall x, In x l -> p x = true) -> filter p l = l.
Proof.
  induction l as [|a l IH]; simpl; intro H; [reflexivity|].
  rewrite (H a (or_introl eq_refl)), IH; [reflexivity|].
  intros x Hx. apply H. right; exact Hx.
Qed.

(** With unique ids, deleting by id takes out exactly one row. *)
Lemma removeFromQueue_exactly (d : Db) (x : QueueItem) :
  NoDup (map item_id (queueItems d)) -> In x (queueItems d) ->
  exists l1 l2, queueItems d = l1 ++ x :: l2 /\
                queueItems (removeFromQueue d (item_id x)) = l1 ++ l2.
Proof.
  intros Hnd Hx. destruct (in_split x _ Hx) as [l1 [l2 E]].
  exists l1, l2. split; [exact E|]. simpl. rewrite E in *.
  rewrite filter_app. simpl. rewrite String.eqb_refl. simpl.
  rewrite map_app in Hnd. simpl in Hnd.
  pose proof (NoDup_remove_2 _ _ _ Hnd) as Hn.
  rewrite !filter_all; [reflexivity| |];
    intros y Hy; apply negb_true_iff, String.eqb_neq; intro Ey;
    apply Hn, in_or_app; [right|left]; rewrite <- Ey; apply in_map, Hy.
Qed.

Lemma find_item_by_id (d : Db) (rid : string) (x : QueueItem) :
  NoDup (map item_id (queueItems d)) -> In x (queueItems d) -> roomId x = rid ->
  find (fun item => item_id item =? item_id x) (getQueueByRoomId d rid) = Some x.
Proof.
  intros Hnd Hx Hr.
  destruct (find (fun item => item_id item =? item_id x) (getQueueByRoomId d rid))
    as [y|] eqn:E.
  - apply find_some in E. destruct E as [Hy Ey]. apply String.eqb_eq in Ey.
    apply getQueueByRoomId_In in Hy. destruct Hy as [Hy _].
    f_equal. exact (NoDup_key_inj item_id _ y x Hnd Hy Hx Ey).
  - exfalso. pose proof (find_none _ _ E x) as H. simpl in H.
    rewrite String.eqb_refl in H. discriminate H.
    apply getQueueByRoomId_In. split; assumption.
Qed.

(** C8. Removing an item whose status is [waiting] takes exactly that
    row out of the table, leaves every room row (hence the room's
    current-item fields and [isPlaying]) as it was, and broadcasts
    [song_removed] followed by [queue_updated] and nothing else: no
    [current_song] and no [playback_state]. *)
Theorem remove_waiting_item_frame (w : World) (code0 : string) (r : Room) (x : QueueItem) :
  reachable w ->
  getRoomByCode (db w) (toUpperCase code0) = Some r ->
  In x (queueItems (db w)) -> roomId x = room_id r -> status x = waiting ->
  let result := routes.delete_queue_item code0 (item_id x) w in
  let d' := db (world_of result) in
  outcome_of result = Return json_success /\
  rooms d' = rooms (db w) /\
  (exists l1 l2, queueItems (db w) = l1 ++ x :: l2 /\ queueItems d' = l1 ++ l2) /\
  sent_of result =
    broadcast w (room_id r) (song_removed (item_id x))
    ++ broadcast w (room_id r) (queue_updated (getQueueByRoomId d' (room_id r))) /\
  forall ws message, In (ws, message) (sent_of result) ->
                     is_current_song message = false /\ is_playback_state message = false.
Proof.
  intros Hreach Hr Hx Hxr Hs.
  pose proof (reachable_wf w Hreach) as [Hd _].
  pose proof (find_item_by_id (db w) (room_id r) x (wf_item_ids _ Hd) Hx Hxr) as Hf.
  cbv zeta. rewrite (delete_queue_item_found w code0 (item_id x) r x Hr Hf).
  unfold is_playing. rewrite Hs. simpl Status_eqb. cbv iota.
  unfold world_of, sent_of, outcome_of. simpl fst. simpl snd.
  split; [reflexivity|]. split; [reflexivity|]. split.
  { apply removeFromQueue_exactly; [apply (wf_item_ids _ Hd) | exact Hx]. }
  split; [reflexivity|].
  intros ws message Hin. apply in_app_iff in Hin. unfold broadcast in Hin.
  destruct Hin as [Hin|Hin]; apply in_map_iff in Hin; destruct Hin as [ws' [E _]];
    injection E as _ <-; split; reflexivity.
Qed.

Lemma remove_waiting_item_frame_witness :
  sent_of (routes.delete_queue_item "ABCDEF" "i2" world_AB)
  = [(7, song_removed "i2");
     (7, queue_updated
           [mkQueueItem "i1" "r1" "v1" "Song A" "t1" None None 1 playing])].
Proof.
  exact (proj1 (proj2 (proj2 (proj2
    (remove_waiting_item_frame world_AB "ABCDEF"
       (mkRoom "r1" "ABCDEF" (Some "v1") (Some "Song A") (Some "t1") true)
       (mkQueueItem "i2" "r1" "v2" "Song B" "t2" None None 2 waiting)
       (ex_intro _ events_AB eq_refl) eq_refl (or_intror (or_introl eq_refl)) eq_refl eq_refl))))).
Defined.

(** ** Adding to the queue *)






Lemma storable_or_null_or_null_eq (a : option string) :
  storable_or_null (or_null a) = storable_or_null a.
Proof.
  destruct a as [s|]; [|reflexivity]. simpl.
  destruct s as [|c s]; reflexivity.
Qed.

Lemma addToQueue_unstorable (d : Db) (uuid : string) (item : InsertQueueItem) :
  item_storable item = false -> DatabaseStorage.addToQueue d uuid item = None.
Proof.
  intro H. unfold DatabaseStorage.addToQueue. rewrite H.
  rewrite orb_true_r. reflexivity.
Qed.

(** The other side of C3's precondition on the text: a valid body with
    a field the database cannot store is answered 500, and nothing is
    inserted, updated or sent. *)
Lemma add_of_unstorable_text_fails (w : World) (code0 : string) (body : Body)
      (uuid : string) (r : Room) (data : AddToQueueData) :
  getRoomByCode (db w) (toUpperCase code0) = Some r ->
  addToQueueSchema_safeParse body = Some data ->
  data_storable data = false ->
  routes.post_queue code0 body uuid w
  = (Return (status_error 500 "Failed to add to queue"), w, []).
Proof.
  intros Hr Hdata Hs.
  assert (Hi : forall p, item_storable (insert_of r data p) = false).
  { intro p. rewrite <- Hs. unfold data_storable, item_storable, insert_of.
    cbn [ins_videoId ins_title ins_thumbnail ins_channelTitle ins_duration].
    rewrite !storable_or_null_or_null_eq. reflexivity. }
  unfold insert_of in Hi. unfold_handler. rewrite Hr, Hdata.
  destruct (getMaxPosition (db w) (room_id r) =? 0)%Z eqn:E; simpl;
    pose proof (addToQueue_unstorable (db w) uuid _
                  (Hi (getMaxPosition (db w) (room_id r)))) as Ha;
    rewrite E in Ha; rewrite Ha; reflexivity.
Qed.

(** ** Add, then remove *)

Lemma filter_fresh (l : list QueueItem) (item : QueueItem) :
  ~ In (item_id item) (map item_id l) ->
  filter (fun q => negb (item_id q =? item_id item)) (l ++ [item]) = l.
Proof.
  intro H. rewrite filter_app. simpl. rewrite String.eqb_refl. simpl.
  rewrite app_nil_r. apply filter_all. intros y Hy.
  apply negb_true_iff, String.eqb_neq. intro E. apply H. rewrite <- E. apply in_map, Hy.
Qed.

(** C7. In a reachable state, once an add has answered with the new
    item, removing that item through the same room code answers success
    and puts table [queue_items] back exactly as it was before the add:
    same rows, same order, same positions; so every room's queue reads
    as before. *)
Theorem add_then_remove_restores_queue (w : World) (code0 : string) (body : Body)
        (uuid : string) (item : QueueItem) :
  reachable w ->
  outcome_of (routes.post_queue code0 body uuid w) = Return (json_item item) ->
  let w1 := world_of (routes.post_queue code0 body uuid w) in
  let result := routes.delete_queue_item code0 (item_id item) w1 in
  outcome_of result = Return json_success /\
  queueItems (db (world_of result)) = queueItems (db w) /\
  forall rid, getQueueByRoomId (db (world_of result)) rid = getQueueByRoomId (db w) rid.
Proof.
  intros Hreach Hok.
  pose proof (reachable_wf w Hreach) as [Hd _].
  destruct (post_queue_inv w code0 body uuid item Hok) as [r [data [d1 [Hr [Hdata Ha]]]]].
  pose proof (addToQueue_Some _ _ _ _ _ Ha) as [Eitem [Ed1 [Hfresh _]]].
  assert (Hid : item_id item = uuid) by (rewrite Eitem; reflexivity).
  assert (Hroom : roomId item = room_id r) by (rewrite Eitem; reflexivity).
  assert (Hst : status item
                = if (getMaxPosition (db w) (room_id r) =? 0)%Z then playing else waiting)
    by (rewrite Eitem; reflexivity).
  assert (Hd1 : wf_db d1).
  { eapply wf_addToQueue; [exact Hd | | exact Ha]. reflexivity. }
  assert (Hitem : In item (queueItems d1)).
  { rewrite Ed1. simpl. apply in_or_app. right. left. reflexivity. }
  assert (Hrestore : queueItems (removeFromQueue d1 (item_id item)) = queueItems (db w)).
  { rewrite Ed1. simpl. apply filter_fresh. rewrite Hid. exact Hfresh. }
  pose proof (getMaxPosition_zero_iff (db w) (room_id r) (wf_positions _ Hd)) as Hz.
  cbv zeta. clear Hok.
  rewrite (post_queue_added w code0 body uuid r data item d1 Hr Hdata Ha).
  assert (Hqueues : forall d2, queueItems d2 = queueItems (db w) ->
                               forall rid, getQueueByRoomId d2 rid = getQueueByRoomId (db w) rid).
  { intros d2 E rid. unfold getQueueByRoomId. rewrite E. reflexivity. }
  destruct (getMaxPosition (db w) (room_id r) =? 0)%Z eqn:E;
    cbn [world_of outcome_of fst snd].
  - (* first song: the item plays and the room points at it *)
    set (d2 := updateRoom d1 (room_id r) (set_current_data data)).
    assert (Hr2 : getRoomByCode (db (with_db d2 w)) (toUpperCase code0)
                  = Some (apply_room_updates (set_current_data data) r)).
    { simpl. unfold d2. rewrite getRoomByCode_updateRoom.
      replace (getRoomByCode d1 (toUpperCase code0)) with (Some r)
        by (rewrite Ed1; symmetry; exact Hr).
      simpl. rewrite String.eqb_refl. reflexivity. }
    assert (Hf : find (fun q => item_id q =? item_id item)
                      (getQueueByRoomId (db (with_db d2 w))
                         (room_id (apply_room_updates (set_current_data data) r)))
                 = Some item).
    { simpl. apply (find_item_by_id d2 (room_id r) item);
        [exact (wf_item_ids _ Hd1) | exact Hitem | exact Hroom]. }
    rewrite (delete_queue_item_found _ code0 (item_id item) _ item Hr2 Hf).
    unfold is_playing. rewrite Hst. simpl Status_eqb. cbv iota.
    assert (Hnone : getNextInQueue (removeFromQueue (db (with_db d2 w)) (item_id item))
                      (room_id (apply_room_updates (set_current_data data) r)) = None).
    { apply getNextInQueue_None. intros q Hq Hqr. exfalso.
      change (In q (queueItems (removeFromQueue d1 (item_id item)))) in Hq.
      change (roomId q = room_id r) in Hqr.
      rewrite Hrestore in Hq.
      assert (Hin : In q (room_items (db w) (room_id r)))
        by (apply room_items_In; split; assumption).
      rewrite (proj1 Hz eq_refl) in Hin. destruct Hin. }
    rewrite Hnone. cbn [fst snd].
    split; [reflexivity|].
    assert (Hq : queueItems
                   (updateRoom (removeFromQueue d2 (item_id item))
                      (room_id (apply_room_updates (set_current_data data) r))
                      clear_current) = queueItems (db w)) by exact Hrestore.
    split; [exact Hq | exact (Hqueues _ Hq)].
  - (* the item waits *)
    assert (Hr2 : getRoomByCode (db (with_db d1 w)) (toUpperCase code0) = Some r)
      by (simpl; rewrite Ed1; exact Hr).
    assert (Hf : find (fun q => item_id q =? item_id item)
                      (getQueueByRoomId (db (with_db d1 w)) (room_id r)) = Some item).
    { simpl. apply (find_item_by_id d1 (room_id r) item);
        [exact (wf_item_ids _ Hd1) | exact Hitem | exact Hroom]. }
    rewrite (delete_queue_item_found _ code0 (item_id item) r item Hr2 Hf).
    unfold is_playing. rewrite Hst. simpl Status_eqb. cbv iota.
    cbn [fst snd].
    split; [reflexivity|]. split; [exact Hrestore | exact (Hqueues _ Hrestore)].
Qed.

Lemma add_then_remove_restores_queue_witness :
  queueItems (db (world_of
    (routes.delete_queue_item "ABCDEF" "i3"
       (world_of (routes.post_queue "ABCDEF" (body_of "v3" "Song C" "t3") "i3" world_AB)))))
  = queueItems (db world_AB).
Proof.
  exact (proj1 (proj2
    (add_then_remove_restores_queue world_AB "ABCDEF" (body_of "v3" "Song C" "t3") "i3"
       (mkQueueItem "i3" "r1" "v3" "Song C" "t3" None None 3 waiting)
       (ex_intro _ events_AB eq_refl) eq_refl))).
Defined.

(** ** Positions *)

(** C6, as stated, fails: along a run of adds and removes the positions
    given to the items inserted into a room need not increase. *)
Lemma positions_not_increasing_across_removals :
  assigned_positions "r1" events_reuse initial = [1; 1]%Z /\
  ~ StronglySorted Z.lt (assigned_positions "r1" events_reuse initial).
Proof.
  split; [reflexivity|].
  intro H. change (StronglySorted Z.lt [1; 1]%Z) in H.
  inversion H as [|? ? _ Hall]; subst. inversion Hall as [|? ? Hlt _]; subst.
  exact (Z.lt_irrefl _ Hlt).
Qed.

(** C6, amended. Each successful add gives the new item the position
    (largest position among the items the handler finds in the room's
    queue, or 0 if it finds none) + 1, which is above the position of
    every item it found there; this holds from any state. Positions of
    removed items may be given again. *)
Theorem add_position_above_present_items (w : World) (code0 : string) (body : Body)
        (uuid : string) (item : QueueItem) :
  outcome_of (routes.post_queue code0 body uuid w) = Return (json_item item) ->
  let rid := roomId item in
  let d' := db (world_of (routes.post_queue code0 body uuid w)) in
  position item = (getMaxPosition (db w) rid + 1)%Z /\
  ((room_items (db w) rid = [] /\ getMaxPosition (db w) rid = 0%Z) \/
   (exists q, In q (room_items (db w) rid) /\ getMaxPosition (db w) rid = position q /\
              forall q', In q' (room_items (db w) rid) -> (position q' <= position q)%Z)) /\
  (forall q, In q (queueItems (db w)) -> roomId q = rid ->
             (position q < position item)%Z) /\
  In item (room_items d' rid).
Proof.
  intros Hok.
  destruct (post_queue_inv w code0 body uuid item Hok) as [r [data [d1 [Hr [Hdata Ha]]]]].
  pose proof (addToQueue_Some _ _ _ _ _ Ha) as [Eitem [Ed1 _]].
  assert (Hroom : roomId item = room_id r) by (rewrite Eitem; reflexivity).
  assert (Hpos : position item = (getMaxPosition (db w) (room_id r) + 1)%Z)
    by (rewrite Eitem; reflexivity).
  cbv zeta. rewrite Hroom. split; [exact Hpos|]. split; [|split].
  - destruct (room_items (db w) (room_id r)) as [|q0 l0] eqn:Eq.
    + left. split; [reflexivity | apply getMaxPosition_empty, Eq].
    + right.
      assert (Hin0 : In q0 (getQueueByRoomId (db w) (room_id r))).
      { apply getQueueByRoomId_In. apply room_items_In. rewrite Eq. left. reflexivity. }
      assert (Hmax : exists q, In q (getQueueByRoomId (db w) (room_id r)) /\
                               getMaxPosition (db w) (room_id r) = position q).
      { unfold getMaxPosition.
        destruct (getQueueByRoomId (db w) (room_id r)) as [|x l]; [destruct Hin0|].
        simpl map.
        pose proof (Math_max_In (map position l) (position x)) as Hin.
        change (In (Math_max (position x) (map position l))
                   (map position (x :: l))) in Hin.
        apply in_map_iff in Hin. destruct Hin as [q [E Hq]].
        exists q. split; [exact Hq | symmetry; exact E]. }
      destruct Hmax as [q [Hq E]]. exists q.
      split; [rewrite <- Eq; apply room_items_In, getQueueByRoomId_In, Hq|].
      split; [exact E|].
      intros q' Hq'. rewrite <- E. rewrite <- Eq in Hq'. apply room_items_In in Hq'.
      destruct Hq' as [Hq1 Hq2]. exact (getMaxPosition_ge (db w) (room_id r) q' Hq1 Hq2).
  - intros q Hq Hqr. rewrite Hpos.
    pose proof (getMaxPosition_ge (db w) (room_id r) q Hq Hqr). lia.
  - rewrite (post_queue_added w code0 body uuid r data item d1 Hr Hdata Ha).
    assert (Hin : In item (room_items d1 (room_id r))).
    { apply room_items_In. split; [|exact Hroom].
      rewrite Ed1. simpl. apply in_or_app. right. left. reflexivity. }
    destruct (getMaxPosition (db w) (room_id r) =? 0)%Z; exact Hin.
Qed.

Lemma add_position_above_present_items_witness :
  position (mkQueueItem "i3" "r1" "v3" "Song C" "t3" None None 3 waiting)
  = (getMaxPosition (db world_AB) "r1" + 1)%Z.
Proof.
  exact (proj1
    (add_position_above_present_items world_AB "ABCDEF" (body_of "v3" "Song C" "t3") "i3"
       (mkQueueItem "i3" "r1" "v3" "Song C" "t3" None None 3 waiting)
       eq_refl)).
Defined.

(** ** Room codes over HTTP and over the real-time channel *)

Lemma toUpperCase_ascii_inv (a b : ascii) :
  toUpperCase_ascii a = b -> is_upper_letter b = false -> a = b.
Proof.
  intros <-. destruct a as [[] [] [] [] [] [] [] []]; intro H;
    first [reflexivity | discriminate H].
Qed.

Lemma toUpperCase_inv (s t : string) :
  toUpperCase s = t -> no_upper_letter t = true -> s = t.
Proof.
  revert t. induction s as [|a s IH]; intros t E H; simpl in E; subst t; [reflexivity|].
  simpl in H. apply andb_true_iff in H. destruct H as [Ha Hs].
  apply negb_true_iff in Ha.
  f_equal; [apply toUpperCase_ascii_inv; [reflexivity | exact Ha] | exact (IH _ eq_refl Hs)].
Qed.

Lemma get_room_inv (w : World) (c : string) (r : Room) (queue : list QueueItem) :
  outcome_of (routes.get_room c w) = Return (json_room_queue r queue) ->
  getRoomByCode (db w) (toUpperCase c) = Some r.
Proof.
  run_handler; intro H; [injection H as <- _; reflexivity | discriminate H].
Qed.

(** C10, as stated, fails: the room with code 222222 is reachable, and
    every code string that resolves to it over HTTP resolves to it over
    the real-time channel too. *)
Lemma digits_only_code_has_no_such_spelling :
  reachable world_digits /\
  In room_digits (rooms (db world_digits)) /\
  forall (c : string) (ws : WS),
    (exists queue, outcome_of (routes.get_room c world_digits)
                   = Return (json_room_queue room_digits queue)) ->
    sent_of (routes.on_message ws (join c) world_digits)
    <> [(ws, error "Room not found")].
Proof.
  split; [exists events_digits; reflexivity|].
  split; [left; reflexivity|].
  intros c ws [queue H].
  assert (Hc : toUpperCase c = "222222").
  { apply get_room_inv in H. apply getRoomByCode_Some in H.
    symmetry. exact (proj2 H). }
  apply toUpperCase_inv in Hc; [|reflexivity]. subst c.
  intro Hsent. discriminate Hsent.
Qed.

(** C10, amended. For every room whose code contains a letter (its
    lowercase spelling differs from it), the lowercase spelling resolves
    to the room over [GET /api/rooms/:code], which uppercases it, and is
    answered with ['Room not found'] by [join_room], which looks it up
    as it is. *)
Theorem lowercase_code_resolves_over_http_only (w : World) (r : Room) (ws : WS) :
  reachable w -> In r (rooms (db w)) ->
  toLowerCase (code r) <> code r ->
  routes.get_room (toLowerCase (code r)) w
  = (Return (json_room_queue r (getQueueByRoomId (db w) (room_id r))), w, []) /\
  routes.on_message ws (join (toLowerCase (code r))) w
  = (Return tt, w, [(ws, error "Room not found")]).
Proof.
  intros Hreach Hin Hletter.
  pose proof (reachable_wf w Hreach) as [Hd _].
  assert (Hup : toUpperCase (toLowerCase (code r)) = code r).
  { rewrite toUpperCase_toLowerCase. apply (wf_codes_upper _ Hd), Hin. }
  split.
  - unfold_handler. rewrite Hup.
    rewrite (getRoomByCode_In (db w) r (wf_codes _ Hd) Hin). reflexivity.
  - apply on_message_join_missing; [reflexivity|]. simpl.
    destruct (getRoomByCode (db w) (toLowerCase (code r))) as [r'|] eqn:E; [|reflexivity].
    exfalso. apply getRoomByCode_Some in E. destruct E as [Hin' E].
    pose proof (wf_codes_upper _ Hd r' Hin') as Hup'.
    rewrite E, Hup in Hup'. apply Hletter. symmetry. exact Hup'.
Qed.

Lemma lowercase_code_resolves_over_http_only_witness :
  routes.on_message 8 (join "abcdef") world_room
  = (Return tt, world_room, [(8, error "Room not found")]).
Proof.
  refine (proj2 (lowercase_code_resolves_over_http_only world_room
                   (mkRoom "r1" "ABCDEF" None None None false) 8
                   (ex_intro _ events_room eq_refl) (or_introl eq_refl) _)).
  simpl. discriminate.
Defined.

(** ** Frames the handler does not recognise *)

(** C4, where it fails. A frame that parses and whose type is none of
    the four the [switch] has a case for gets no reply at all: the
    handler completes, the state is untouched and nothing is sent to
    anyone, so no [error] message reaches the sender. *)
Theorem unrecognized_type_gets_no_reply (w : World) (ws : WS) (m : WSMessage) :
  recognized (type m) = false ->
  routes.on_message ws (Json m) w = (Return tt, w, []).
Proof.
  unfold recognized. intro H.
  apply orb_false_iff in H. destruct H as [H H4].
  apply orb_false_iff in H. destruct H as [H H3].
  apply orb_false_iff in H. destruct H as [H1 H2].
  unfold_handler. rewrite H1, H2, H3, H4. reflexivity.
Qed.

Lemma unrecognized_type_gets_no_reply_witness :
  routes.on_message 7 (msg "foo") world_AB = (Return tt, world_AB, []).
Proof.
  exact (unrecognized_type_gets_no_reply world_AB 7 (mkWSMessage "foo" "") eq_refl).
Defined.

(** [remove_song], which the message union declares, is one such type. *)
Lemma remove_song_gets_no_reply (w : World) (ws : WS) (songId : string) :
  routes.on_message ws (Json (mkWSMessage "remove_song" songId)) w = (Return tt, w, []).
Proof. reflexivity. Qed.

(** The unparseable half holds: the sender alone gets an [error], and
    the state is untouched. *)
Lemma malformed_frame_gets_error (w : World) (ws : WS) :
  routes.on_message ws Malformed w
  = (Return tt, w, [(ws, error "Invalid message format")]).
Proof. reflexivity. Qed.

(** ** The playing item and the room's pointer *)

Lemma room_consistent_ext (d d' : Db) (r r' : Room) :
  playing_items d' (room_id r') = playing_items d (room_id r) ->
  currentVideoId r' = currentVideoId r ->
  room_consistent d r -> room_consistent d' r'.
Proof. unfold room_consistent. intros -> ->. exact (fun H => H). Qed.

Lemma filter_comm {A} (p q : A -> bool) (l : list A) :
  filter p (filter q l) = filter q (filter p l).
Proof.
  induction l as [|a l IH]; simpl; [reflexivity|].
  destruct (p a) eqn:Ep, (q a) eqn:Eq; simpl; rewrite ?Ep, ?Eq, IH; reflexivity.
Qed.

Lemma playing_items_In (d : Db) (rid : string) (q : QueueItem) :
  In q (playing_items d rid) <->
  In q (queueItems d) /\ roomId q = rid /\ status q = playing.
Proof.
  unfold playing_items, is_playing. rewrite filter_In, room_items_In, Status_eqb_eq.
  tauto.
Qed.

Lemma playing_items_removeFromQueue (d : Db) (id rid : string) :
  playing_items (removeFromQueue d id) rid =
  filter (fun q => negb (item_id q =? id)) (playing_items d rid).
Proof.
  unfold playing_items. rewrite room_items_removeFromQueue. apply filter_comm.
Qed.

(** Removing [x] leaves the playing items of a room it is not playing in. *)
Lemma playing_items_remove_other (d : Db) (x : QueueItem) (rid : string) :
  NoDup (map item_id (queueItems d)) -> In x (queueItems d) ->
  ~ In x (playing_items d rid) ->
  playing_items (removeFromQueue d (item_id x)) rid = playing_items d rid.
Proof.
  intros Hnd Hx Hn. rewrite playing_items_removeFromQueue. apply filter_all.
  intros y Hy. apply negb_true_iff, String.eqb_neq. intro E. apply Hn.
  pose proof (proj1 (playing_items_In d rid y) Hy) as [Hy' _].
  rewrite <- (NoDup_key_inj item_id _ y x Hnd Hy' Hx E). exact Hy.
Qed.

(** Removing the playing item of a consistent room leaves none. *)
Lemma playing_items_remove_playing (d : Db) (r : Room) (x : QueueItem) :
  room_consistent d r -> In x (playing_items d (room_id r)) ->
  playing_items (removeFromQueue d (item_id x)) (room_id r) = [].
Proof.
  intros Hc Hx. rewrite playing_items_removeFromQueue. unfold room_consistent in Hc.
  destruct (playing_items d (room_id r)) as [|p [|p' l]]; [destruct Hx| |destruct Hc].
  destruct Hx as [->|[]]. simpl. rewrite String.eqb_refl. reflexivity.
Qed.

Lemma playing_items_updateQueueItem (d : Db) (id rid : string) :
  playing_items (updateQueueItem d id (mkQueueItemUpdates (Some playing))) rid =
  filter is_playing (map (mark_playing id) (room_items d rid)).
Proof. unfold playing_items. rewrite room_items_updateQueueItem. reflexivity. Qed.

Lemma map_mark_playing_other (l : list QueueItem) (id : string) :
  (forall y, In y l -> item_id y <> id) -> map (mark_playing id) l = l.
Proof.
  intro H. rewrite <- (map_id l) at 2. apply map_ext_in. intros y Hy.
  unfold mark_playing. destruct (item_id y =? id) eqn:E; [|reflexivity].
  apply String.eqb_eq in E. exfalso. exact (H y Hy E).
Qed.

Lemma filter_none {A} (p : A -> bool) (l : list A) :
  (forall x, In x l -> p x = false) -> filter p l = [].
Proof.
  induction l as [|a l IH]; simpl; intro H; [reflexivity|].
  rewrite (H a (or_introl eq_refl)). apply IH. intros x Hx. apply H. right; exact Hx.
Qed.

Lemma filter_nil_all {A} (p : A -> bool) (l : list A) :
  filter p l = [] -> forall x, In x l -> p x = false.
Proof.
  intros H x Hx. destruct (p x) eqn:E; [|reflexivity].
  assert (Hin : In x (filter p l)) by (apply filter_In; split; assumption).
  rewrite H in Hin. destruct Hin.
Qed.

(** Marking one item of a list without playing items leaves just it. *)
Lemma filter_mark_playing (l : list QueueItem) (n : QueueItem) :
  NoDup (map item_id l) -> In n l -> (forall y, In y l -> is_playing y = false) ->
  filter is_playing (map (mark_playing (item_id n)) l)
  = [apply_item_updates (mkQueueItemUpdates (Some playing)) n].
Proof.
  induction l as [|a l IH]; intros Hnd Hn Hall; [destruct Hn|].
  inversion Hnd as [|? ? Hna Hnd']; subst.
  cbn [map filter].
  destruct Hn as [->|Hn].
  - replace (mark_playing (item_id n) n)
      with (apply_item_updates (mkQueueItemUpdates (Some playing)) n)
      by (unfold mark_playing; rewrite String.eqb_refl; reflexivity).
    replace (is_playing (apply_item_updates (mkQueueItemUpdates (Some playing)) n))
      with true by reflexivity.
    f_equal. rewrite map_mark_playing_other.
    + apply filter_none. intros y Hy. apply Hall. right; exact Hy.
    + intros y Hy E. apply Hna. rewrite <- E. apply in_map, Hy.
  - assert (Ea : mark_playing (item_id n) a = a).
    { unfold mark_playing.
      replace (item_id a =? item_id n) with false; [reflexivity|].
      symmetry. apply String.eqb_neq. intro E. apply Hna. rewrite E. apply in_map, Hn. }
    rewrite Ea, (Hall a (or_introl eq_refl)).
    apply IH; [exact Hnd' | exact Hn |]. intros y Hy. apply Hall. right; exact Hy.
Qed.

Lemma NoDup_room_items (d : Db) (rid : string) :
  NoDup (map item_id (queueItems d)) -> NoDup (map item_id (room_items d rid)).
Proof. apply item_ids_filter_NoDup. Qed.

Lemma playing_items_promoted_same (d : Db) (rid : string) (n : QueueItem) :
  wf_db d -> playing_items d rid = [] -> In n (queueItems d) -> roomId n = rid ->
  playing_items (promoted d rid n) rid
  = [apply_item_updates (mkQueueItemUpdates (Some playing)) n].
Proof.
  intros Hwf Hnone Hn Hr. unfold promoted.
  change (playing_items (updateQueueItem d (item_id n) (mkQueueItemUpdates (Some playing))) rid
          = [apply_item_updates (mkQueueItemUpdates (Some playing)) n]).
  rewrite playing_items_updateQueueItem. apply filter_mark_playing.
  - apply NoDup_room_items, (wf_item_ids _ Hwf).
  - apply room_items_In. split; assumption.
  - apply filter_nil_all. exact Hnone.
Qed.

Lemma playing_items_promoted_other (d : Db) (rid rid' : string) (n : QueueItem) :
  wf_db d -> In n (queueItems d) -> roomId n = rid -> rid' <> rid ->
  playing_items (promoted d rid n) rid' = playing_items d rid'.
Proof.
  intros Hwf Hn Hr Hne. unfold promoted.
  change (playing_items (updateQueueItem d (item_id n) (mkQueueItemUpdates (Some playing))) rid'
          = playing_items d rid').
  rewrite playing_items_updateQueueItem, map_mark_playing_other; [reflexivity|].
  intros y Hy E. apply room_items_In in Hy. destruct Hy as [Hy Hyr].
  pose proof (NoDup_key_inj item_id _ y n (wf_item_ids _ Hwf) Hy Hn E) as ->.
  apply Hne. rewrite <- Hyr, Hr. reflexivity.
Qed.

(** Select next: the promoted item becomes the one playing item. *)
Lemma consistent_promoted (d : Db) (rid : string) (n : QueueItem) :
  wf_db d -> others_consistent d rid -> playing_items d rid = [] ->
  getNextInQueue d rid = Some n ->
  consistent (promoted d rid n).
Proof.
  intros Hwf Ho Hnone Hnext r' Hr'.
  apply getNextInQueue_Some in Hnext. destruct Hnext as [Hn [Hnr _]].
  apply In_rooms_updateRoom in Hr'.
  destruct Hr' as [r0 [H0 [Eid [_ [[Hne ->]|[Eid0 ->]]]]]].
  - apply (room_consistent_ext d _ r0 r0); [|reflexivity | apply Ho; assumption].
    apply playing_items_promoted_other; assumption.
  - unfold room_consistent. simpl room_id. rewrite Eid0.
    rewrite (playing_items_promoted_same d rid n Hwf Hnone Hn Hnr). reflexivity.
Qed.

(** Or clear: a room without playing items gets a null pointer. *)
Lemma consistent_cleared (d : Db) (rid : string) :
  others_consistent d rid -> playing_items d rid = [] ->
  consistent (updateRoom d rid clear_current).
Proof.
  intros Ho Hnone r' Hr'. apply In_rooms_updateRoom in Hr'.
  destruct Hr' as [r0 [H0 [Eid [_ [[Hne ->]|[Eid0 ->]]]]]].
  - apply (room_consistent_ext d _ r0 r0); [reflexivity | reflexivity | apply Ho; assumption].
  - unfold room_consistent. simpl room_id. rewrite Eid0.
    change (playing_items (updateRoom d rid clear_current) rid) with (playing_items d rid).
    rewrite Hnone. reflexivity.
Qed.

(** An update of [isPlaying] alone changes no pointer. *)
Lemma consistent_only_isPlaying (d : Db) (rid : string) (b : bool) :
  consistent d -> consistent (updateRoom d rid (only_isPlaying b)).
Proof.
  intros Hc r' Hr'. apply In_rooms_updateRoom in Hr'.
  destruct Hr' as [r0 [H0 [Eid [_ [[Hne ->]|[Eid0 ->]]]]]].
  - exact (Hc r0 H0).
  - apply (room_consistent_ext d _ r0); [reflexivity | reflexivity | exact (Hc r0 H0)].
Qed.

Lemma removal_prepares (d : Db) (r : Room) (x : QueueItem) :
  wf_db d -> consistent d -> In r (rooms d) ->
  In x (queueItems d) -> roomId x = room_id r -> status x = playing ->
  others_consistent (removeFromQueue d (item_id x)) (room_id r) /\
  playing_items (removeFromQueue d (item_id x)) (room_id r) = [].
Proof.
  intros Hwf Hc Hr Hx Hxr Hs. split.
  - intros r' Hr' Hne.
    apply (room_consistent_ext d _ r' r'); [|reflexivity | exact (Hc r' Hr')].
    apply playing_items_remove_other; [exact (wf_item_ids _ Hwf) | exact Hx |].
    intro Hin. apply playing_items_In in Hin. destruct Hin as [_ [E _]].
    apply Hne. rewrite <- E. exact Hxr.
  - apply playing_items_remove_playing; [exact (Hc r Hr)|].
    apply playing_items_In. auto.
Qed.

Lemma removal_of_waiting (d : Db) (x : QueueItem) :
  wf_db d -> consistent d -> In x (queueItems d) -> status x = waiting ->
  consistent (removeFromQueue d (item_id x)).
Proof.
  intros Hwf Hc Hx Hs r' Hr'.
  apply (room_consistent_ext d _ r' r'); [|reflexivity | exact (Hc r' Hr')].
  apply playing_items_remove_other; [exact (wf_item_ids _ Hwf) | exact Hx |].
  intro Hin. apply playing_items_In in Hin. destruct Hin as [_ [_ E]].
  rewrite Hs in E. discriminate E.
Qed.

Lemma skip_prepares (d : Db) (r : Room) :
  wf_db d -> consistent d -> In r (rooms d) ->
  others_consistent (after_removal d (room_id r)) (room_id r) /\
  playing_items (after_removal d (room_id r)) (room_id r) = [].
Proof.
  intros Hwf Hc Hr. unfold after_removal.
  destruct (find is_playing (getQueueByRoomId d (room_id r))) as [c|] eqn:E.
  - apply find_is_playing_Some in E. destruct E as [Hx [Hxr Hs]].
    apply removal_prepares; assumption.
  - split; [intros r' Hr' _; exact (Hc r' Hr')|].
    apply filter_none. intros x Hx. apply room_items_In in Hx.
    apply (find_none _ _ E). apply getQueueByRoomId_In. exact Hx.
Qed.

Lemma playing_items_snoc (rs : list Room) (l : list QueueItem) (item : QueueItem)
      (rid : string) :
  playing_items (mkDb rs (l ++ [item])) rid =
  playing_items (mkDb rs l) rid
  ++ (if (roomId item =? rid) && is_playing item then [item] else []).
Proof.
  unfold playing_items. rewrite room_items_app, filter_app. f_equal.
  unfold room_items. simpl.
  destruct (roomId item =? rid); simpl; [|reflexivity].
  destruct (is_playing item); reflexivity.
Qed.

Lemma consistent_add_waiting (d : Db) (item : QueueItem) :
  consistent d -> status item = waiting ->
  consistent (mkDb (rooms d) (queueItems d ++ [item])).
Proof.
  intros Hc Hs r' Hr'. simpl in Hr'.
  apply (room_consistent_ext d _ r' r'); [|reflexivity | exact (Hc r' Hr')].
  rewrite playing_items_snoc.
  replace (is_playing item) with false by (unfold is_playing; rewrite Hs; reflexivity).
  rewrite andb_false_r, app_nil_r. destruct d; reflexivity.
Qed.

Lemma consistent_add_first (d : Db) (item : QueueItem) (rid : string)
      (data : AddToQueueData) :
  consistent d -> roomId item = rid -> status item = playing ->
  room_items d rid = [] -> videoId item = data_videoId data ->
  consistent (updateRoom (mkDb (rooms d) (queueItems d ++ [item])) rid
                         (set_current_data data)).
Proof.
  intros Hc Hr Hs Hempty Hv r' Hr'. apply In_rooms_updateRoom in Hr'.
  destruct Hr' as [r0 [H0 [Eid [_ [[Hne ->]|[Eid0 ->]]]]]]; simpl in H0.
  - apply (room_consistent_ext d _ r0 r0); [|reflexivity | exact (Hc r0 H0)].
    change (playing_items (mkDb (rooms d) (queueItems d ++ [item])) (room_id r0)
            = playing_items d (room_id r0)).
    rewrite playing_items_snoc.
    replace (roomId item =? room_id r0) with false.
    + simpl. rewrite app_nil_r. destruct d; reflexivity.
    + symmetry. apply String.eqb_neq. intro E. apply Hne. rewrite <- E. exact Hr.
  - unfold room_consistent. simpl room_id. rewrite Eid0.
    change (playing_items (updateRoom (mkDb (rooms d) (queueItems d ++ [item])) rid
                             (set_current_data data)) rid)
      with (playing_items (mkDb (rooms d) (queueItems d ++ [item])) rid).
    rewrite playing_items_snoc.
    replace (is_playing item) with true by (unfold is_playing; rewrite Hs; reflexivity).
    rewrite Hr, String.eqb_refl.
    replace (playing_items (mkDb (rooms d) (queueItems d)) rid) with (@nil QueueItem).
    + simpl. rewrite Hv. reflexivity.
    + unfold playing_items.
      change (room_items (mkDb (rooms d) (queueItems d)) rid) with (room_items d rid).
      rewrite Hempty. reflexivity.
Qed.

Lemma consistent_createRoom (d : Db) (uuid c : string) (r : Room) (d' : Db) :
  wf_db d -> consistent d ->
  DatabaseStorage.createRoom d uuid (mkInsertRoom c None None None false) = Some (r, d') ->
  consistent d'.
Proof.
  intros Hwf Hc Hcreate. apply createRoom_Some in Hcreate.
  destruct Hcreate as [Er [Ed [Hfresh _]]]. subst d'. intros r' Hr'. simpl in Hr'.
  apply in_app_iff in Hr'. destruct Hr' as [Hr'|[<-|[]]].
  - apply (room_consistent_ext d _ r' r'); [reflexivity | reflexivity | exact (Hc r' Hr')].
  - unfold room_consistent.
    replace (playing_items (mkDb (rooms d ++ [r]) (queueItems d)) (room_id r))
      with (@nil QueueItem); [rewrite Er; reflexivity|].
    symmetry. apply filter_none. intros x Hx. exfalso.
    apply room_items_In in Hx. simpl in Hx. destruct Hx as [Hx E].
    apply Hfresh. rewrite Er in E. simpl in E. rewrite <- E.
    apply (wf_foreign_key _ Hwf), Hx.
Qed.

Lemma consistent_select_next_or_clear (d : Db) (rid : string) :
  wf_db d -> others_consistent d rid -> playing_items d rid = [] ->
  consistent (select_next_or_clear d rid).
Proof.
  intros Hwf Ho Hnone. unfold select_next_or_clear.
  destruct (getNextInQueue d rid) as [n|] eqn:E.
  - apply consistent_promoted; assumption.
  - apply consistent_cleared; assumption.
Qed.

Lemma on_message_db (ws : WS) (data : Frame) (w : World) :
  db (world_of (routes.on_message ws data w)) = db w \/
  (exists rid b, db (world_of (routes.on_message ws data w))
                 = updateRoom (db w) rid (only_isPlaying b)) \/
  (exists rid r, getRoom (db w) rid = Some r /\
                 db (world_of (routes.on_message ws data w))
                 = select_next_or_clear (after_removal (db w) rid) rid).
Proof.
  run_handler;
    first
      [ left; reflexivity
      | right; left; eexists _, _; reflexivity
      | right; right; eexists _, _; split; [eassumption|];
        unfold select_next_or_clear, after_removal, is_playing;
        repeat match goal with
               | H : find _ _ = _ |- _ => rewrite H; clear H
               | H : getNextInQueue _ _ = _ |- _ => rewrite H; clear H
               end;
        reflexivity ].
Qed.

Lemma delete_queue_item_db (code0 itemId : string) (w : World) :
  db (world_of (routes.delete_queue_item code0 itemId w)) = db w \/
  (exists r x,
      getRoomByCode (db w) (toUpperCase code0) = Some r /\
      find (fun item => item_id item =? itemId) (getQueueByRoomId (db w) (room_id r))
      = Some x /\
      db (world_of (routes.delete_queue_item code0 itemId w))
      = if is_playing x
        then select_next_or_clear (removeFromQueue (db w) itemId) (room_id r)
        else removeFromQueue (db w) itemId).
Proof.
  destruct (getRoomByCode (db w) (toUpperCase code0)) as [r|] eqn:Er.
  - destruct (find (fun item => item_id item =? itemId)
                   (getQueueByRoomId (db w) (room_id r))) as [x|] eqn:Ex.
    + right. exists r, x. split; [reflexivity|]. split; [exact Ex|].
      rewrite (delete_queue_item_found w code0 itemId r x Er Ex).
      unfold select_next_or_clear.
      destruct (is_playing x); [|reflexivity].
      destruct (getNextInQueue (removeFromQueue (db w) itemId) (room_id r)); reflexivity.
    + left. rewrite (delete_queue_item_absent w code0 itemId r Er Ex). reflexivity.
  - left. rewrite (delete_queue_item_no_room w code0 itemId Er). reflexivity.
Qed.

Lemma post_queue_db (code0 : string) (body : Body) (uuid : string) (w : World) :
  db (world_of (routes.post_queue code0 body uuid w)) = db w \/
  (exists r data item d1,
      getRoomByCode (db w) (toUpperCase code0) = Some r /\
      DatabaseStorage.addToQueue (db w) uuid
        (insert_of r data (getMaxPosition (db w) (room_id r))) = Some (item, d1) /\
      db (world_of (routes.post_queue code0 body uuid w))
      = if (getMaxPosition (db w) (room_id r) =? 0)%Z
        then updateRoom d1 (room_id r) (set_current_data data)
        else d1).
Proof.
  destruct (getRoomByCode (db w) (toUpperCase code0)) as [r|] eqn:Er.
  - destruct (addToQueueSchema_safeParse body) as [data|] eqn:Edata.
    + destruct (DatabaseStorage.addToQueue (db w) uuid
                  (insert_of r data (getMaxPosition (db w) (room_id r))))
        as [[item d1]|] eqn:Ea.
      * right. exists r, data, item, d1. split; [reflexivity|]. split; [exact Ea|].
        rewrite (post_queue_added w code0 body uuid r data item d1 Er Edata Ea).
        destruct (getMaxPosition (db w) (room_id r) =? 0)%Z; reflexivity.
      * left. unfold insert_of in Ea. unfold_handler. rewrite Er, Edata. simpl.
        rewrite Ea. reflexivity.
    + left. unfold_handler. rewrite Er, Edata. reflexivity.
  - left. unfold_handler. rewrite Er. reflexivity.
Qed.

Lemma post_rooms_db (random : list nat) (retries : list (list nat)) (uuid : string)
      (w : World) :
  db (world_of (routes.post_rooms random retries uuid w)) = db w \/
  (exists c r d',
      DatabaseStorage.createRoom (db w) uuid (mkInsertRoom c None None None false)
      = Some (r, d') /\
      db (world_of (routes.post_rooms random retries uuid w)) = d').
Proof.
  run_handler;
    first [ left; reflexivity
          | right; eexists _, _, _; split; [eassumption | reflexivity] ].
Qed.

(** Each event the current routes serve keeps every room's pointer and
    playing item in agreement. *)
Lemma consistent_react (w : World) (e : Event) :
  wf w -> consistent (db w) -> current_route e = true ->
  consistent (db (react e w)).
Proof.
  intros [Hwf _] Hc Hcur. destruct e; simpl in *; try discriminate Hcur.
  - destruct (post_rooms_db random retries gen_random_uuid w)
      as [->|[c [r [d' [Hcreate ->]]]]]; [exact Hc|].
    exact (consistent_createRoom _ _ _ _ _ Hwf Hc Hcreate).
  - replace (db (world_of (routes.get_room code0 w))) with (db w); [exact Hc|].
    run_handler; reflexivity.
  - destruct (post_queue_db code0 body gen_random_uuid w)
      as [->|[r [data [item [d1 [Hr [Ha ->]]]]]]]; [exact Hc|].
    pose proof (addToQueue_Some _ _ _ _ _ Ha) as [Eitem [Ed1 _]].
    destruct (getMaxPosition (db w) (room_id r) =? 0)%Z eqn:E.
    + rewrite Ed1. apply consistent_add_first with (item := item).
      * exact Hc.
      * rewrite Eitem. reflexivity.
      * rewrite Eitem. unfold insert_of. rewrite E. reflexivity.
      * apply (getMaxPosition_zero_iff _ _ (wf_positions _ Hwf)). exact E.
      * rewrite Eitem. reflexivity.
    + rewrite Ed1. apply consistent_add_waiting; [exact Hc|].
      rewrite Eitem. unfold insert_of. rewrite E. reflexivity.
  - destruct (delete_queue_item_db code0 itemId w)
      as [->|[r [x [Hr [Hx ->]]]]]; [exact Hc|].
    apply find_some in Hx. destruct Hx as [Hx Eid]. apply String.eqb_eq in Eid.
    apply getQueueByRoomId_In in Hx. destruct Hx as [Hx Hxr]. subst itemId.
    apply getRoomByCode_Some in Hr. destruct Hr as [Hr _].
    unfold is_playing. destruct (status x) eqn:Es; simpl Status_eqb; cbv iota.
    + apply removal_of_waiting; assumption.
    + destruct (removal_prepares (db w) r x Hwf Hc Hr Hx Hxr Es) as [Ho Hnone].
      apply consistent_select_next_or_clear;
        [apply wf_removeFromQueue, Hwf | exact Ho | exact Hnone].
  - destruct (on_message_db ws data w)
      as [->|[[rid [b ->]]|[rid [r [Hg ->]]]]]; [exact Hc | |].
    + apply consistent_only_isPlaying, Hc.
    + apply getRoom_Some in Hg. destruct Hg as [Hr <-].
      destruct (skip_prepares (db w) r Hwf Hc Hr) as [Ho Hnone].
      apply consistent_select_next_or_clear;
        [apply wf_after_removal, Hwf | exact Ho | exact Hnone].
  - exact Hc.
  - replace (db (world_of (routes.on_close ws w))) with (db w); [exact Hc|].
    unfold routes.on_close, world_of. simpl. repeat (break_inner; simpl); reflexivity.
Qed.

Lemma consistent_run (es : list Event) (w : World) :
  wf w -> consistent (db w) -> forallb current_route es = true ->
  consistent (db (run es w)).
Proof.
  revert w. induction es as [|e es IH]; intros w Hwf Hc Hcur; simpl; [exact Hc|].
  simpl in Hcur. apply andb_true_iff in Hcur. destruct Hcur as [He Hes].
  apply IH; [apply wf_step, Hwf | | exact Hes].
  unfold step. destruct (possible w e); [|exact Hc].
  apply consistent_react; assumption.
Qed.

(** The routes of the current [routes.ts] do maintain the invariant: in
    every state reachable through them (create room, add, remove by room
    code and item id, join, play, pause, skip), each room has at most
    one playing item, has one exactly when its [currentVideoId] is not
    null, and that item's [videoId] is the room's [currentVideoId]. *)
Theorem current_routes_keep_one_playing_item (w : World) (r : Room) :
  reachable_current w -> In r (rooms (db w)) ->
  (List.length (playing_items (db w) (room_id r)) <= 1)%nat /\
  ((exists q, In q (queueItems (db w)) /\ roomId q = room_id r /\ status q = playing)
   <-> currentVideoId r <> None) /\
  (forall q, In q (queueItems (db w)) -> roomId q = room_id r -> status q = playing ->
             currentVideoId r = Some (videoId q)).
Proof.
  intros [es [Hcur <-]] Hr.
  assert (Hc : consistent (db (run es initial))).
  { apply consistent_run; [apply wf_initial | intros r0 [] | exact Hcur]. }
  specialize (Hc r Hr). unfold room_consistent in Hc.
  pose proof (playing_items_In (db (run es initial)) (room_id r)) as Hin.
  destruct (playing_items (db (run es initial)) (room_id r)) as [|p [|p' l]];
    [| |destruct Hc].
  - split; [simpl; lia|]. split; [split|].
    + intros [q [H1 [H2 H3]]]. destruct (proj2 (Hin q) (conj H1 (conj H2 H3))).
    + intro H. contradiction.
    + intros q H1 H2 H3. destruct (proj2 (Hin q) (conj H1 (conj H2 H3))).
  - split; [simpl; lia|]. split; [split|].
    + intros _. rewrite Hc. discriminate.
    + intros _. exists p. apply Hin. left; reflexivity.
    + intros q H1 H2 H3. destruct (proj2 (Hin q) (conj H1 (conj H2 H3))) as [<-|[]].
      exact Hc.
Qed.

Lemma current_routes_keep_one_playing_item_witness :
  currentVideoId (mkRoom "r1" "ABCDEF" (Some "v1") (Some "Song A") (Some "t1") true)
  = Some (videoId (mkQueueItem "i1" "r1" "v1" "Song A" "t1" None None 1 playing)).
Proof.
  refine (proj2 (proj2
    (current_routes_keep_one_playing_item world_AB
       (mkRoom "r1" "ABCDEF" (Some "v1") (Some "Song A") (Some "t1") true)
       (ex_intro _ events_AB (conj eq_refl eq_refl)) (or_introl eq_refl)))
    (mkQueueItem "i1" "r1" "v1" "Song A" "t1" None None 1 playing)
    (or_introl eq_refl) eq_refl eq_refl).
Defined.

(** ** The removal route of the earlier [routes.ts] *)

(** C2 at the input where it fails. After create room, add one song and
    [DELETE /api/queue/:id] of that song, the room's [currentVideoId] is
    still ["v1"] although its queue has no item at all, hence no playing
    item: the route deletes the row and neither selects a next item nor
    clears the room, as the route by room code and item id does. *)
Theorem legacy_delete_leaves_stale_pointer :
  let w := run events_legacy_delete initial in
  rooms (db w) = [mkRoom "r1" "ABCDEF" (Some "v1") (Some "Song A") (Some "t1") true] /\
  queueItems (db w) = [] /\
  exists r, In r (rooms (db w)) /\
            currentVideoId r <> None /\
            ~ exists q, In q (queueItems (db w)) /\ roomId q = room_id r /\
                        status q = playing.
Proof.
  cbv zeta. split; [reflexivity|]. split; [reflexivity|].
  exists (mkRoom "r1" "ABCDEF" (Some "v1") (Some "Song A") (Some "t1") true).
  split; [left; reflexivity|]. split; [discriminate|].
  intros [q [[] _]].
Qed.

(** ** Reading a room *)

(** X1. [GET /api/rooms/:code] with an ASCII code the database accepts
    as a parameter only reads: it leaves the state as it is and sends
    nothing on any socket. It answers 404
    exactly when no room has the uppercased code; otherwise it answers
    the room with its queue, which holds exactly the rows of that room,
    in ascending order of position. *)
Theorem get_room_reads_sorted_queue (w : World) (c : string) :
  is_ascii c = true -> storable c = true ->
  world_of (routes.get_room c w) = w /\
  sent_of (routes.get_room c w) = [] /\
  match getRoomByCode (db w) (toUpperCase c) with
  | None => outcome_of (routes.get_room c w) = Return (status_error 404 "Room not found")
  | Some r =>
      exists queue,
        outcome_of (routes.get_room c w) = Return (json_room_queue r queue) /\
        Permutation queue (room_items (db w) (room_id r)) /\
        StronglySorted le_position queue
  end.
Proof.
  intros _ _. unfold_handler.
  destruct (getRoomByCode (db w) (toUpperCase c)) as [r|]; simpl.
  - repeat split. exists (getQueueByRoomId (db w) (room_id r)).
    split; [reflexivity|]. split.
    + apply orderBy_position_perm.
    + apply orderBy_position_sorted.
  - repeat split.
Qed.

Lemma get_room_reads_sorted_queue_witness :
  exists queue,
    outcome_of (routes.get_room "abcdef" world_AB)
    = Return (json_room_queue
                (mkRoom "r1" "ABCDEF" (Some "v1") (Some "Song A") (Some "t1") true) queue) /\
    Permutation queue (room_items (db world_AB) "r1") /\
    StronglySorted le_position queue.
Proof.
  exact (proj2 (proj2 (get_room_reads_sorted_queue world_AB "abcdef" eq_refl eq_refl))).
Defined.

(** ** Requests the add route refuses *)

(** X2. [POST /api/rooms/:code/queue], for an ASCII code the database
    accepts as a parameter, looks the room up before it validates the
    body. With no room under the
    uppercased code it
    answers 404; with a room and a body whose [videoId], [title] or
    [thumbnail] is missing, empty or not a string (or whose optional
    fields are not strings) it answers 400. In both cases nothing is
    inserted, no room changes and nothing is broadcast. *)
Theorem add_refused_changes_nothing (w : World) (code0 : string) (body : Body)
        (uuid : string) :
  is_ascii code0 = true -> storable code0 = true ->
  getRoomByCode (db w) (toUpperCase code0) = None \/
  addToQueueSchema_safeParse body = None ->
  routes.post_queue code0 body uuid w =
  (Return (match getRoomByCode (db w) (toUpperCase code0) with
           | None => status_error 404 "Room not found"
           | Some _ => status_error 400 "Missing required fields"
           end), w, []).
Proof.
  intros _ _ H. unfold_handler.
  destruct (getRoomByCode (db w) (toUpperCase code0)) as [r|]; simpl; [|reflexivity].
  destruct H as [H|H]; [discriminate H|]. rewrite H. reflexivity.
Qed.

Lemma add_refused_changes_nothing_witness :
  routes.post_queue "ABCDEF" (mkBody (text "v1") (text "") (text "t1") absent absent) "i9"
                    world_AB
  = (Return (status_error 400 "Missing required fields"), world_AB, []).
Proof.
  exact (add_refused_changes_nothing world_AB "ABCDEF"
           (mkBody (text "v1") (text "") (text "t1") absent absent) "i9"
           eq_refl eq_refl (or_intror eq_refl)).
Defined.

(** ** Where an added item goes *)

Lemma room_items_snoc (d : Db) (item : QueueItem) (rid : string) :
  room_items (mkDb (rooms d) (queueItems d ++ [item])) rid =
  room_items d rid ++ (if roomId item =? rid then [item] else []).
Proof.
  rewrite room_items_app. unfold room_items. simpl.
  destruct (roomId item =? rid); reflexivity.
Qed.

(** X3. In a reachable state, a successful add puts the new item at the
    end of its room's queue as [getQueueByRoomId] reads it, after all
    the items already there and without reordering them; the queue of
    every other room reads as before. *)
Theorem add_appends_to_queue (w : World) (code0 : string) (body : Body)
        (uuid : string) (item : QueueItem) :
  reachable w ->
  outcome_of (routes.post_queue code0 body uuid w) = Return (json_item item) ->
  let d' := db (world_of (routes.post_queue code0 body uuid w)) in
  getQueueByRoomId d' (roomId item) = getQueueByRoomId (db w) (roomId item) ++ [item] /\
  forall rid, rid <> roomId item ->
              getQueueByRoomId d' rid = getQueueByRoomId (db w) rid.
Proof.
  intros Hreach Hok.
  pose proof (reachable_wf w Hreach) as [Hd _].
  destruct (post_queue_inv w code0 body uuid item Hok) as [r [data [d1 [Hr [Hdata Ha]]]]].
  pose proof (addToQueue_Some _ _ _ _ _ Ha) as [_ [Ed1 _]].
  assert (Hd1 : wf_db d1).
  { eapply wf_addToQueue; [exact Hd | | exact Ha]. reflexivity. }
  cbv zeta. rewrite (post_queue_added w code0 body uuid r data item d1 Hr Hdata Ha).
  assert (Hq : forall rid, getQueueByRoomId d1 rid
                           = getQueueByRoomId (db w) rid
                             ++ (if roomId item =? rid then [item] else [])).
  { intro rid. rewrite (getQueueByRoomId_wf d1 rid Hd1), (getQueueByRoomId_wf _ rid Hd).
    rewrite Ed1. apply room_items_snoc. }
  assert (Hgoal : getQueueByRoomId d1 (roomId item)
                  = getQueueByRoomId (db w) (roomId item) ++ [item] /\
                  forall rid, rid <> roomId item ->
                              getQueueByRoomId d1 rid = getQueueByRoomId (db w) rid).
  { split.
    - rewrite Hq, String.eqb_refl. reflexivity.
    - intros rid Hne. rewrite Hq.
      replace (roomId item =? rid) with false; [apply app_nil_r|].
      symmetry. apply String.eqb_neq. intro E. apply Hne. symmetry. exact E. }
  destruct (getMaxPosition (db w) (room_id r) =? 0)%Z; exact Hgoal.
Qed.

Lemma add_appends_to_queue_witness :
  getQueueByRoomId
    (db (world_of (routes.post_queue "ABCDEF" (body_of "v3" "Song C" "t3") "i3" world_AB)))
    "r1"
  = getQueueByRoomId (db world_AB) "r1"
    ++ [mkQueueItem "i3" "r1" "v3" "Song C" "t3" None None 3 waiting].
Proof.
  exact (proj1
    (add_appends_to_queue world_AB "ABCDEF" (body_of "v3" "Song C" "t3") "i3"
       (mkQueueItem "i3" "r1" "v3" "Song C" "t3" None None 3 waiting)
       (ex_intro _ events_AB eq_refl) eq_refl)).
Defined.

(** ** Removing the playing item *)

(** X4. In a reachable state, removing through
    [DELETE /api/rooms/:code/queue/:itemId] an item whose status is
    [playing] deletes it and advances the room as a skip does: the
    waiting item of the room with the smallest position is marked
    playing and mirrored into the room with [isPlaying = true], or, when
    no item waits, the room's current-item fields become null and
    [isPlaying] false. The room is sent [current_song] and
    [playback_state] first, then [song_removed] and [queue_updated] with
    the queue as it is after the change. *)
Theorem remove_playing_item_promotes_next (w : World) (code0 : string) (r : Room)
        (x : QueueItem) :
  reachable w ->
  getRoomByCode (db w) (toUpperCase code0) = Some r ->
  In x (queueItems (db w)) -> roomId x = room_id r -> status x = playing ->
  let rid := room_id r in
  let result := routes.delete_queue_item code0 (item_id x) w in
  let d' := db (world_of result) in
  outcome_of result = Return json_success /\
  ~ In (item_id x) (map item_id (queueItems d')) /\
  match getNextInQueue (db w) rid with
  | Some n =>
      (In n (queueItems (db w)) /\ roomId n = rid /\ status n = waiting /\
       forall q, In q (queueItems (db w)) -> roomId q = rid -> status q = waiting ->
                 (position n <= position q)%Z) /\
      In (apply_item_updates (mkQueueItemUpdates (Some playing)) n) (queueItems d') /\
      (exists r', getRoom d' rid = Some r' /\
                  currentVideoId r' = Some (videoId n) /\
                  currentVideoTitle r' = Some (title n) /\
                  currentVideoThumbnail r' = Some (thumbnail n) /\
                  isPlaying r' = true) /\
      sent_of result =
        broadcast w rid (current_song (Some (videoId n)) (Some (title n))
                                      (Some (thumbnail n)))
        ++ broadcast w rid (playback_state true)
        ++ broadcast w rid (song_removed (item_id x))
        ++ broadcast w rid (queue_updated (getQueueByRoomId d' rid))
  | None =>
      (exists r', getRoom d' rid = Some r' /\
                  currentVideoId r' = None /\
                  currentVideoTitle r' = None /\
                  currentVideoThumbnail r' = None /\
                  isPlaying r' = false) /\
      sent_of result =
        broadcast w rid (current_song None None None)
        ++ broadcast w rid (playback_state false)
        ++ broadcast w rid (song_removed (item_id x))
        ++ broadcast w rid (queue_updated (getQueueByRoomId d' rid))
  end.
Proof.
  intros Hreach Hr Hx Hxr Hs.
  pose proof (reachable_wf w Hreach) as [Hd _].
  pose proof (find_item_by_id (db w) (room_id r) x (wf_item_ids _ Hd) Hx Hxr) as Hf.
  pose proof (getRoomByCode_Some _ _ _ Hr) as [Hin _].
  pose proof (getRoom_In (db w) r (wf_room_ids _ Hd) Hin) as Hg.
  cbv zeta. rewrite (delete_queue_item_found w code0 (item_id x) r x Hr Hf).
  unfold is_playing. rewrite Hs. simpl Status_eqb. cbv iota.
  rewrite (getNextInQueue_removeFromQueue (db w) (room_id r) x Hd Hx Hs).
  destruct (getNextInQueue (db w) (room_id r)) as [n|] eqn:En;
    cbn [world_of sent_of outcome_of fst snd db with_db].
  - pose proof (getNextInQueue_Some (db w) (room_id r) n En) as Hn.
    split; [reflexivity|]. split.
    { rewrite item_ids_promoted. apply removed_item_gone. }
    split; [exact Hn|]. split.
    { apply In_promoted.
      rewrite <- (getNextInQueue_removeFromQueue (db w) (room_id r) x Hd Hx Hs) in En.
      apply getNextInQueue_Some in En. apply En. }
    split; [|reflexivity].
    exists (apply_room_updates (set_current n) r). split; [|simpl; auto].
    unfold promoted. apply getRoom_updateRoom_same. exact Hg.
  - split; [reflexivity|]. split; [apply removed_item_gone|].
    split; [|reflexivity].
    exists (apply_room_updates clear_current r). split; [|simpl; auto].
    apply getRoom_updateRoom_same. exact Hg.
Qed.

Lemma remove_playing_item_promotes_next_witness :
  sent_of (routes.delete_queue_item "ABCDEF" "i1" world_AB)
  = [(7, current_song (Some "v2") (Some "Song B") (Some "t2"));
     (7, playback_state true);
     (7, song_removed "i1");
     (7, queue_updated [mkQueueItem "i2" "r1" "v2" "Song B" "t2" None None 2 playing])].
Proof.
  exact (proj2 (proj2 (proj2 (proj2 (proj2
    (remove_playing_item_promotes_next world_AB "ABCDEF"
       (mkRoom "r1" "ABCDEF" (Some "v1") (Some "Song A") (Some "t1") true)
       (mkQueueItem "i1" "r1" "v1" "Song A" "t1" None None 1 playing)
       (ex_intro _ events_AB eq_refl) eq_refl (or_introl eq_refl) eq_refl eq_refl)))))).
Defined.

(** X5. In a reachable state, a skip sent by a connection of a room
    leaves the server in the same state as removing, through the route
    by room code and item id, the playing item the skip finds. *)
Theorem skip_is_removal_of_playing_item (w : World) (ws : WS) (m : WSMessage)
        (code0 : string) (r : Room) (c : QueueItem) :
  reachable w ->
  get_currentRoomId w ws = Some (room_id r) -> type m = "skip_song" ->
  getRoomByCode (db w) (toUpperCase code0) = Some r ->
  find is_playing (getQueueByRoomId (db w) (room_id r)) = Some c ->
  world_of (routes.on_message ws (Json m) w)
  = world_of (routes.delete_queue_item code0 (item_id c) w).
Proof.
  intros Hreach Hj Hty Hr Hc.
  pose proof (reachable_wf w Hreach) as Hwf.
  destruct (wf_joined w ws (room_id r) Hwf Hj) as [Ht _].
  destruct Hwf as [Hd _].
  pose proof (getRoomByCode_Some _ _ _ Hr) as [Hin _].
  pose proof (getRoom_In (db w) r (wf_room_ids _ Hd) Hin) as Hg.
  pose proof (find_is_playing_Some _ _ _ Hc) as [Hx [Hxr Hs]].
  pose proof (find_item_by_id (db w) (room_id r) c (wf_item_ids _ Hd) Hx Hxr) as Hf.
  rewrite (on_message_skip ws m w (room_id r) r Hty Hj Ht Hg).
  rewrite (delete_queue_item_found w code0 (item_id c) r c Hr Hf).
  unfold after_removal. rewrite Hc.
  unfold is_playing at 1. rewrite Hs. simpl Status_eqb. cbv iota.
  destruct (getNextInQueue (removeFromQueue (db w) (item_id c)) (room_id r));
    reflexivity.
Qed.

Lemma skip_is_removal_of_playing_item_witness :
  world_of (routes.on_message 7 (msg "skip_song") world_AB)
  = world_of (routes.delete_queue_item "abcdef" "i1" world_AB).
Proof.
  exact (skip_is_removal_of_playing_item world_AB 7 (mkWSMessage "skip_song" "") "abcdef"
           (mkRoom "r1" "ABCDEF" (Some "v1") (Some "Song A") (Some "t1") true)
           (mkQueueItem "i1" "r1" "v1" "Song A" "t1" None None 1 playing)
           (ex_intro _ events_AB eq_refl) eq_refl eq_refl eq_refl eq_refl).
Defined.

(** ** Intents of a connection that has not joined *)

(** X6. A [play], [pause] or [skip_song] frame on a connection that has
    joined no room is dropped: the handler completes, changes nothing
    and sends nothing, not even an [error] to the sender. *)
Theorem intents_before_join_are_dropped (w : World) (ws : WS) (m : WSMessage) :
  get_currentRoomId w ws = None ->
  type m = "play" \/ type m = "pause" \/ type m = "skip_song" ->
  routes.on_message ws (Json m) w = (Return tt, w, []).
Proof.
  intros Hj [H|[H|H]]; unfold_handler; rewrite H; simpl; rewrite Hj; reflexivity.
Qed.

Lemma intents_before_join_are_dropped_witness :
  routes.on_message 9 (msg "skip_song") world_AB = (Return tt, world_AB, []).
Proof.
  exact (intents_before_join_are_dropped world_AB 9 (mkWSMessage "skip_song" "")
           eq_refl (or_intror (or_intror eq_refl))).
Defined.

(** ** Storage operations on rows that are not there *)

(** X8. [clearQueue] empties the queue of its room and of no other: the
    room's queue then reads empty, every other room's queue reads as
    before, and no room row changes (so a room whose item was playing
    keeps its current-item fields). *)
Theorem clearQueue_empties_one_room (d : Db) (rid : string) :
  getQueueByRoomId (clearQueue d rid) rid = [] /\
  (forall rid', rid' <> rid ->
                getQueueByRoomId (clearQueue d rid) rid' = getQueueByRoomId d rid') /\
  rooms (clearQueue d rid) = rooms d.
Proof.
  split; [|split; [|reflexivity]].
  - unfold getQueueByRoomId. simpl.
    replace (filter (fun q => roomId q =? rid)
               (filter (fun q => negb (roomId q =? rid)) (queueItems d)))
      with (@nil QueueItem); [reflexivity|].
    symmetry. apply filter_none. intros x Hx. apply filter_In in Hx.
    destruct Hx as [_ Hx]. apply negb_true_iff in Hx. exact Hx.
  - intros rid' Hne. unfold getQueueByRoomId. simpl. f_equal.
    rewrite filter_comm. apply filter_all. intros x Hx.
    apply filter_In in Hx. destruct Hx as [_ Hx]. apply String.eqb_eq in Hx.
    apply negb_true_iff, String.eqb_neq. rewrite Hx. exact Hne.
Qed.

(** X9. [DELETE /api/queue/:id], the removal route of the earlier
    [routes.ts], answers success for an id no item has (any string the
    database accepts as a parameter), where the route by room code and
    item id answers 404; the state is unchanged and nothing is sent. *)
Theorem legacy_delete_of_absent_id_succeeds (w : World) (id : string) :
  storable id = true ->
  ~ In id (map item_id (queueItems (db w))) ->
  legacy_routes.delete_queue id w = (Return json_success, w, []).
Proof.
  intros _ H. rewrite legacy_delete_queue_eq. f_equal. f_equal.
  destruct w as [d m c n]. unfold with_db. simpl. f_equal.
  destruct d as [rs items]. unfold removeFromQueue. simpl. f_equal.
  apply filter_all. intros x Hx. apply negb_true_iff, String.eqb_neq.
  intro E. apply H. simpl. rewrite <- E. apply in_map, Hx.
Qed.

Lemma legacy_delete_of_absent_id_succeeds_witness :
  legacy_routes.delete_queue "i9" world_AB = (Return json_success, world_AB, []).
Proof.
  refine (legacy_delete_of_absent_id_succeeds world_AB "i9" eq_refl _).
  simpl. intros [H|[H|[]]]; discriminate H.
Defined.

(** ** Generated room codes *)

Lemma charAt_chars_in_alphabet (k : nat) :
  (k < 32)%nat -> exists c, charAt chars k = String c EmptyString /\ in_alphabet c = true.
Proof.
  intro H. do 32 (destruct k as [|k]; [eexists; split; reflexivity|]). lia.
Qed.

Lemma random_index_lt (r : nat) : (random_index r < 32)%nat.
Proof. unfold random_index. apply Nat.mod_upper_bound. discriminate. Qed.

Lemma list_ascii_app (a b : string) :
  list_ascii_of_string (a ++ b) = list_ascii_of_string a ++ list_ascii_of_string b.
Proof. induction a as [|c a IH]; simpl; [reflexivity | rewrite IH; reflexivity]. Qed.

Lemma string_length_app (a b : string) :
  String.length (a ++ b) = (String.length a + String.length b)%nat.
Proof. induction a as [|c a IH]; simpl; [reflexivity | rewrite IH; reflexivity]. Qed.

Lemma generateRoomCode_from_ok (i : nat) (random : list nat) (code0 : string) :
  forallb in_alphabet (list_ascii_of_string code0) = true ->
  String.length (generateRoomCode_from i random code0) = (String.length code0 + i)%nat /\
  forallb in_alphabet (list_ascii_of_string (generateRoomCode_from i random code0)) = true.
Proof.
  revert random code0. induction i as [|i IH]; intros random code0 H; simpl.
  - split; [lia | exact H].
  - destruct (charAt_chars_in_alphabet _ (random_index_lt (hd 0 random))) as [c [Ec Hc]].
    rewrite Ec.
    destruct (IH (tl random) (code0 ++ String c EmptyString)%string) as [H1 H2].
    + rewrite list_ascii_app, forallb_app, H. simpl. rewrite Hc. reflexivity.
    + split; [|exact H2]. rewrite H1, string_length_app. simpl. lia.
Qed.

Lemma generateRoomCode_code_ok (random : list nat) :
  code_ok (generateRoomCode random) = true.
Proof.
  unfold code_ok, generateRoomCode.
  destruct (generateRoomCode_from_ok 6 random "" eq_refl) as [H1 H2].
  rewrite H1, H2. reflexivity.
Qed.

(** X10. Whatever [Math.random] returns, [generateRoomCode] yields six
    characters, each from the 32-symbol alphabet (so never 0, 1, I or
    O), and the draws alone decide the code: the k-th character is
    [chars] at the k-th draw scaled to an index below 32. *)
Theorem generateRoomCode_well_formed (random : list nat) :
  code_ok (generateRoomCode random) = true /\
  forall k, (k < 6)%nat ->
            charAt (generateRoomCode random) k
            = charAt chars (random_index (nth k random 0%nat)).
Proof.
  split; [apply generateRoomCode_code_ok|].
  intros k Hk. unfold generateRoomCode. cbn [generateRoomCode_from].
  destruct k as [|[|[|[|[|[|k]]]]]]; [..|lia];
    destruct random as [|r1 [|r2 [|r3 [|r4 [|r5 [|r6 random]]]]]]; cbn [hd tl nth];
    repeat match goal with
           | |- context [charAt chars (random_index ?r)] =>
               let c := fresh "c" in
               let Ec := fresh "Ec" in
               destruct (charAt_chars_in_alphabet _ (random_index_lt r)) as [c [Ec _]];
               rewrite !Ec; clear Ec
           end;
    reflexivity.
Qed.

Lemma generateRoomCode_well_formed_witness :
  charAt (generateRoomCode [33; 1; 2; 3; 4; 5]) 0 = "B"%string.
Proof.
  refine (proj2 (generateRoomCode_well_formed [33; 1; 2; 3; 4; 5]) 0 _). lia.
Defined.

Lemma index_in_chars (c : ascii) :
  in_alphabet c = true ->
  charAt chars (random_index (index_in chars c)) = String c EmptyString.
Proof.
  destruct c as [[] [] [] [] [] [] [] []]; intro H;
    first [discriminate H | reflexivity].
Qed.

(** X11. Every string of six characters of the alphabet is a code
    [generateRoomCode] can return: no well-formed code is out of reach
    of the generator. *)
Theorem generateRoomCode_reaches_every_code (s : string) :
  code_ok s = true -> exists random, generateRoomCode random = s.
Proof.
  unfold code_ok. intro H. apply andb_true_iff in H. destruct H as [Hlen Hall].
  apply Nat.eqb_eq in Hlen.
  destruct s as [|c1 [|c2 [|c3 [|c4 [|c5 [|c6 [|c7 s]]]]]]]; try discriminate Hlen.
  simpl in Hall.
  repeat (apply andb_true_iff in Hall; let H := fresh "Hc" in destruct Hall as [H Hall]).
  exists (map (index_in chars) [c1; c2; c3; c4; c5; c6]).
  unfold generateRoomCode. cbn [map generateRoomCode_from hd tl].
  rewrite !index_in_chars by assumption. reflexivity.
Qed.

Lemma generateRoomCode_reaches_every_code_witness :
  exists random, generateRoomCode random = "K7Q2ZA".
Proof.
  exact (generateRoomCode_reaches_every_code "K7Q2ZA" eq_refl).
Defined.

(** ** Creating a room *)

Lemma free_code_spec (d : Db) (retries : list (list nat)) (c c' : string) :
  code_ok c = true -> free_code d c retries = Some c' ->
  getRoomByCode d c' = None /\ code_ok c' = true.
Proof.
  revert c. induction retries as [|random retries IH]; intros c Hc; simpl.
  - destruct (getRoomByCode d c) eqn:E; [discriminate|].
    intro H. injection H as <-. auto.
  - destruct (getRoomByCode d c) eqn:E.
    + apply IH, generateRoomCode_code_ok.
    + intro H. injection H as <-. auto.
Qed.

Lemma post_rooms_inv (random : list nat) (retries : list (list nat)) (uuid : string)
      (w : World) (r : Room) :
  outcome_of (routes.post_rooms random retries uuid w) = Return (json_room r) ->
  exists c d',
    free_code (db w) (generateRoomCode random) retries = Some c /\
    DatabaseStorage.createRoom (db w) uuid (mkInsertRoom c None None None false)
    = Some (r, d') /\
    routes.post_rooms random retries uuid w = (Return (json_room r), with_db d' w, []).
Proof.
  run_handler; intro H; try discriminate H.
  injection H as <-. eexists _, _. repeat split; eassumption.
Qed.

Lemma getRoomByCode_None (d : Db) (c : string) :
  getRoomByCode d c = None -> ~ In c (map code (rooms d)).
Proof.
  intros H Hin. apply in_map_iff in Hin. destruct Hin as [r [E Hr]].
  pose proof (find_none _ _ H r Hr) as Hf. simpl in Hf.
  rewrite E, String.eqb_refl in Hf. discriminate Hf.
Qed.

Lemma post_rooms_effect (w : World) (random : list nat)
      (retries : list (list nat)) (uuid : string) (r : Room) :
  outcome_of (routes.post_rooms random retries uuid w) = Return (json_room r) ->
  r = mkRoom uuid (code r) None None None false /\
  code_ok (code r) = true /\
  ~ In (code r) (map code (rooms (db w))) /\
  ~ In uuid (map room_id (rooms (db w))) /\
  routes.post_rooms random retries uuid w
  = (Return (json_room r),
     with_db (mkDb (rooms (db w) ++ [r]) (queueItems (db w))) w, []).
Proof.
  intro H. destruct (post_rooms_inv _ _ _ _ _ H) as [c [d' [Hf [Hc Heq]]]].
  pose proof (createRoom_Some _ _ _ _ _ Hc) as [Er [Ed [Hid _]]]. simpl in Er.
  destruct (free_code_spec _ _ _ _ (generateRoomCode_code_ok random) Hf)
    as [Hfree Hok].
  assert (Ecode : code r = c) by (rewrite Er; reflexivity).
  rewrite Ecode. repeat split.
  - exact Er.
  - exact Hok.
  - apply getRoomByCode_None, Hfree.
  - exact Hid.
  - rewrite Heq, Ed. reflexivity.
Qed.

(** X12. When [POST /api/rooms] answers with a room, that room is the
    only change: it is appended to table [rooms] with the generated id,
    null current-item fields and [isPlaying] false; its code is six
    characters of the alphabet and is the code of no room that existed
    before (the loop has retried past every taken candidate); no queue
    item, connection or socket state changes and nothing is sent. *)
Theorem create_room_appends_fresh_room (w : World) (random : list nat)
        (retries : list (list nat)) (uuid : string) (r : Room) :
  outcome_of (routes.post_rooms random retries uuid w) = Return (json_room r) ->
  r = mkRoom uuid (code r) None None None false /\
  code_ok (code r) = true /\
  ~ In (code r) (map code (rooms (db w))) /\
  ~ In uuid (map room_id (rooms (db w))) /\
  world_of (routes.post_rooms random retries uuid w)
  = with_db (mkDb (rooms (db w) ++ [r]) (queueItems (db w))) w /\
  sent_of (routes.post_rooms random retries uuid w) = [].
Proof.
  intro H. destruct (post_rooms_effect w random retries uuid r H)
    as [Er [Hok [Hcode [Hid Heq]]]].
  rewrite Heq. repeat split; assumption.
Qed.

Lemma create_room_appends_fresh_room_witness :
  code_ok (code (mkRoom "r2" "HJKLMN" None None None false)) = true.
Proof.
  exact (proj1 (proj2
    (create_room_appends_fresh_room world_AB [0; 1; 2; 3; 4; 5]
       [[7; 8; 9; 10; 11; 12]] "r2" (mkRoom "r2" "HJKLMN" None None None false)
       eq_refl))).
Defined.

Lemma find_app_last {A} (p : A -> bool) (l : list A) (x : A) :
  (forall y, In y l -> p y = false) -> p x = true -> find p (l ++ [x]) = Some x.
Proof.
  induction l as [|a l IH]; simpl; intros H Hx.
  - rewrite Hx. reflexivity.
  - rewrite (H a (or_introl eq_refl)). apply IH; [|exact Hx].
    intros y Hy. apply H. right; exact Hy.
Qed.

(** X13. In a reachable state, a room that [POST /api/rooms] has just
    answered can be fetched at once through [GET /api/rooms/:code] under
    any spelling of its code that differs only in letter case, and comes
    back as created, with an empty queue. *)
Theorem created_room_is_fetched_with_empty_queue (w : World) (random : list nat)
        (retries : list (list nat)) (uuid : string) (r : Room) (c : string) :
  reachable w ->
  outcome_of (routes.post_rooms random retries uuid w) = Return (json_room r) ->
  toUpperCase c = code r ->
  let w' := world_of (routes.post_rooms random retries uuid w) in
  routes.get_room c w' = (Return (json_room_queue r []), w', []).
Proof.
  intros Hreach H Hc.
  pose proof (reachable_wf w Hreach) as [Hd _].
  destruct (post_rooms_effect _ _ _ _ _ H) as [Er [_ [Hcode [Hid Heq]]]].
  cbv zeta. rewrite Heq. cbn [world_of fst snd].
  assert (Hfind : getRoomByCode (mkDb (rooms (db w) ++ [r]) (queueItems (db w))) (code r)
                  = Some r).
  { unfold getRoomByCode. simpl. apply find_app_last; [|apply String.eqb_refl].
    intros y Hy. apply String.eqb_neq. intro E. apply Hcode. rewrite <- E.
    apply in_map, Hy. }
  assert (Hq : getQueueByRoomId (mkDb (rooms (db w) ++ [r]) (queueItems (db w)))
                 (room_id r) = []).
  { unfold getQueueByRoomId. simpl.
    replace (filter (fun q => roomId q =? room_id r) (queueItems (db w)))
      with (@nil QueueItem); [reflexivity|].
    symmetry. apply filter_none. intros x Hx. apply String.eqb_neq. intro E.
    apply Hid. replace uuid with (room_id r) by (rewrite Er; reflexivity).
    rewrite <- E. apply (wf_foreign_key _ Hd), Hx. }
  unfold_handler. cbn [db with_db]. rewrite Hc, Hfind. cbn [fst snd db with_db].
  rewrite Hq. reflexivity.
Qed.

Lemma created_room_is_fetched_with_empty_queue_witness :
  let w' := world_of (routes.post_rooms [0; 1; 2; 3; 4; 5] [[7; 8; 9; 10; 11; 12]] "r2"
                        world_AB) in
  routes.get_room "hjklmn" w'
  = (Return (json_room_queue (mkRoom "r2" "HJKLMN" None None None false) []), w', []).
Proof.
  exact (created_room_is_fetched_with_empty_queue world_AB [0; 1; 2; 3; 4; 5]
           [[7; 8; 9; 10; 11; 12]] "r2" (mkRoom "r2" "HJKLMN" None None None false)
           "hjklmn" (ex_intro _ events_AB eq_refl) eq_refl eq_refl).
Defined.

(** ** Rooms persist *)

Lemma map_identity_updateRoom (d : Db) (id : string) (u : RoomUpdates) :
  map identity (rooms (updateRoom d id u)) = map identity (rooms d).
Proof.
  simpl. rewrite map_map. apply map_ext. intro r.
  destruct (room_id r =? id); reflexivity.
Qed.

Lemma map_identity_select_next_or_clear (d : Db) (rid : string) :
  map identity (rooms (select_next_or_clear d rid)) = map identity (rooms d).
Proof.
  unfold select_next_or_clear, promoted.
  destruct (getNextInQueue d rid); rewrite map_identity_updateRoom; reflexivity.
Qed.

Lemma post_rooms_outcome (random : list nat) (retries : list (list nat)) (uuid : string)
      (w : World) :
  db (world_of (routes.post_rooms random retries uuid w)) = db w \/
  exists r, outcome_of (routes.post_rooms random retries uuid w) = Return (json_room r).
Proof.
  run_handler; first [left; reflexivity | right; eexists; reflexivity].
Qed.

(** One event leaves the id and code of every room as they are, in the
    same order, and adds at most rooms with well-formed codes. *)
Lemma react_identities (w : World) (e : Event) :
  exists extra,
    map identity (rooms (db (react e w))) = map identity (rooms (db w)) ++ extra /\
    forall i, In i extra -> code_ok (snd i) = true.
Proof.
  destruct e; simpl.
  - destruct (post_rooms_outcome random retries gen_random_uuid w) as [E|[r Ho]].
    + exists []. rewrite app_nil_r, E. split; [reflexivity | intros i []].
    + destruct (post_rooms_effect _ _ _ _ _ Ho) as [_ [Hok [_ [_ Heq]]]].
      rewrite Heq. cbn [world_of fst snd db with_db rooms].
      exists [identity r]. split; [apply map_app|].
      intros i [<-|[]]. exact Hok.
  - exists []. rewrite app_nil_r. split; [|intros i []].
    run_handler; reflexivity.
  - exists []. rewrite app_nil_r. split; [|intros i []].
    destruct (post_queue_db code0 body gen_random_uuid w)
      as [->|[r [data [item [d1 [_ [Ha ->]]]]]]]; [reflexivity|].
    pose proof (addToQueue_Some _ _ _ _ _ Ha) as [_ [Ed1 _]].
    destruct (getMaxPosition (db w) (room_id r) =? 0)%Z;
      rewrite ?map_identity_updateRoom, Ed1; reflexivity.
  - exists []. rewrite app_nil_r. split; [|intros i []].
    destruct (delete_queue_item_db code0 itemId w)
      as [->|[r [x [_ [_ ->]]]]]; [reflexivity|].
    destruct (is_playing x); rewrite ?map_identity_select_next_or_clear; reflexivity.
  - exists []. rewrite app_nil_r. split; [|intros i []]. reflexivity.
  - exists []. rewrite app_nil_r. split; [|intros i []].
    destruct (on_message_db ws data w)
      as [->|[[rid [b ->]]|[rid [r [_ ->]]]]]; [reflexivity | |].
    + apply map_identity_updateRoom.
    + rewrite map_identity_select_next_or_clear, rooms_after_removal. reflexivity.
  - exists []. rewrite app_nil_r. split; [|intros i []]. reflexivity.
  - exists []. rewrite app_nil_r. split; [|intros i []].
    unfold routes.on_close, world_of. simpl. repeat (break_inner; simpl); reflexivity.
Qed.

Lemma run_identities (es : list Event) (w : World) :
  exists extra,
    map identity (rooms (db (run es w))) = map identity (rooms (db w)) ++ extra /\
    forall i, In i extra -> code_ok (snd i) = true.
Proof.
  revert w. induction es as [|e es IH]; intro w; simpl.
  - exists []. rewrite app_nil_r. split; [reflexivity | intros i []].
  - destruct (IH (step w e)) as [extra2 [E2 H2]].
    assert (H1 : exists extra1,
               map identity (rooms (db (step w e)))
               = map identity (rooms (db w)) ++ extra1 /\
               forall i, In i extra1 -> code_ok (snd i) = true).
    { unfold step. destruct (possible w e); [apply react_identities|].
      exists []. rewrite app_nil_r. split; [reflexivity | intros i []]. }
    destruct H1 as [extra1 [E1 H1]].
    exists (extra1 ++ extra2). split.
    + rewrite E2, E1, app_assoc. reflexivity.
    + intros i Hi. apply in_app_iff in Hi. destruct Hi as [Hi|Hi]; auto.
Qed.

(** X14. No sequence of events deletes a room or changes its id or
    code: along any run from any state, table [rooms] keeps the ids and
    codes it has, in the same order, and only grows at its end. *)
Theorem rooms_are_never_deleted (es : list Event) (w : World) :
  exists added,
    map identity (rooms (db (run es w))) = map identity (rooms (db w)) ++ added.
Proof.
  destruct (run_identities es w) as [extra [E _]]. exists extra. exact E.
Qed.

(** X15. In every reachable state the code of every room is six
    characters of the 32-symbol alphabet. *)
Theorem reachable_codes_well_formed (w : World) (r : Room) :
  reachable w -> In r (rooms (db w)) -> code_ok (code r) = true.
Proof.
  intros [es <-] Hr. destruct (run_identities es initial) as [extra [E H]].
  simpl in E. apply (H (identity r)). rewrite <- E. apply in_map, Hr.
Qed.

Lemma reachable_codes_well_formed_witness :
  code_ok (code (mkRoom "r1" "ABCDEF" (Some "v1") (Some "Song A") (Some "t1") true)) = true.
Proof.
  exact (reachable_codes_well_formed world_AB
           (mkRoom "r1" "ABCDEF" (Some "v1") (Some "Song A") (Some "t1") true)
           (ex_intro _ events_AB eq_refl) (or_introl eq_refl)).
Defined.

(** ** The connection registry *)

Lemma Map_has_get {V : Set} (m : list (string * V)) (k : string) :
  Map_has m k = true <-> exists v, Map_get m k = Some v.
Proof.
  unfold Map_has, Map_get. split.
  - intro H. apply existsb_exists in H. destruct H as [e [He Hk]].
    destruct (find (fun e0 => fst e0 =? k) m) as [e'|] eqn:E; [eexists; reflexivity|].
    pose proof (find_none _ _ E e He) as Hn. simpl in Hn. rewrite Hk in Hn. discriminate.
  - intros [v H]. destruct (find (fun e0 => fst e0 =? k) m) as [e'|] eqn:E; [|discriminate].
    apply find_some in E. apply existsb_exists. exists e'. exact E.
Qed.

Lemma Map_get_In {V : Set} (m : list (string * V)) (k : string) (v : V) :
  Map_get m k = Some v -> In (k, v) m.
Proof.
  unfold Map_get. destruct (find (fun e => fst e =? k) m) as [[k' v']|] eqn:E; [|discriminate].
  intro H. injection H as <-. apply find_some in E. destruct E as [Hin Hk].
  simpl in Hk. apply String.eqb_eq in Hk. subst k'. exact Hin.
Qed.

Lemma Map_get_replace {V : Set} (m : list (string * V)) (k k' : string) (v : V) :
  Map_get (map (fun e => if fst e =? k then (k, v) else e) m) k' =
  if k' =? k then (if Map_has m k then Some v else None) else Map_get m k'.
Proof.
  unfold Map_get, Map_has. induction m as [|[k0 v0] m IH]; simpl.
  - destruct (k' =? k); reflexivity.
  - destruct (String.eqb_spec k0 k) as [->|Hk0]; simpl.
    + rewrite (String.eqb_sym k k'). destruct (String.eqb_spec k' k) as [->|Hk'].
      * reflexivity.
      * rewrite IH. destruct (k' =? k) eqn:E'; [|reflexivity].
        apply String.eqb_eq in E'. contradiction.
    + destruct (String.eqb_spec k0 k') as [->|Hk0'].
      * rewrite (proj2 (String.eqb_neq k' k) Hk0). reflexivity.
      * exact IH.
Qed.

Lemma Map_get_snoc {V : Set} (m : list (string * V)) (k k' : string) (v : V) :
  Map_get (m ++ [(k, v)]) k' =
  match Map_get m k' with
  | Some x => Some x
  | None => if k' =? k then Some v else None
  end.
Proof.
  unfold Map_get. induction m as [|[k0 v0] m IH]; simpl.
  - rewrite (String.eqb_sym k k'). destruct (k' =? k); reflexivity.
  - destruct (k0 =? k'); [reflexivity | exact IH].
Qed.

(** Reading a map after [set]. *)
Lemma Map_get_set {V : Set} (m : list (string * V)) (k k' : string) (v : V) :
  Map_get (Map_set m k v) k' = if k' =? k then Some v else Map_get m k'.
Proof.
  unfold Map_set. destruct (Map_has m k) eqn:Eh.
  - rewrite Map_get_replace, Eh. reflexivity.
  - rewrite Map_get_snoc. destruct (String.eqb_spec k' k) as [->|Hk].
    + destruct (Map_get m k) as [x|] eqn:E; [|reflexivity].
      assert (Hh : Map_has m k = true) by (apply Map_has_get; eexists; exact E).
      rewrite Hh in Eh. discriminate Eh.
    + destruct (Map_get m k'); reflexivity.
Qed.

(** Reading a map after [delete]. *)
Lemma Map_get_delete {V : Set} (m : list (string * V)) (k k' : string) :
  Map_get (Map_delete m k) k' = if k' =? k then None else Map_get m k'.
Proof.
  unfold Map_get, Map_delete. induction m as [|[k0 v0] m IH]; simpl.
  - destruct (k' =? k); reflexivity.
  - destruct (String.eqb_spec k0 k) as [->|Hk0]; simpl.
    + rewrite IH. rewrite (String.eqb_sym k k'). destruct (k' =? k); reflexivity.
    + destruct (String.eqb_spec k0 k') as [->|Hk0'].
      * rewrite (proj2 (String.eqb_neq k' k) Hk0). reflexivity.
      * exact IH.
Qed.

Lemma Map_set_In {V : Set} (m : list (string * V)) (k k' : string) (v s : V) :
  In (k', s) (Map_set m k v) -> (k' = k /\ s = v) \/ (k' <> k /\ In (k', s) m).
Proof.
  unfold Map_set. destruct (Map_has m k) eqn:Eh; intro H.
  - apply in_map_iff in H. destruct H as [[k0 v0] [E H0]]. simpl in E.
    destruct (String.eqb_spec k0 k) as [->|Hk0]; injection E as <- <-; auto.
  - apply in_app_iff in H. destruct H as [H|[E|[]]].
    + right. split; [|exact H]. intros ->.
      unfold Map_has in Eh. rewrite existsb_false_iff in Eh.
      specialize (Eh _ H). simpl in Eh. rewrite String.eqb_refl in Eh. discriminate.
    + injection E as <- <-. auto.
Qed.

Lemma Map_set_keys {V : Set} (m : list (string * V)) (k : string) (v : V) :
  NoDup (map fst m) -> NoDup (map fst (Map_set m k v)).
Proof.
  intro H. unfold Map_set. destruct (Map_has m k) eqn:Eh.
  - rewrite map_map. erewrite map_ext; [exact H|]. intros [k0 v0]. simpl.
    destruct (String.eqb_spec k0 k) as [->|_]; reflexivity.
  - rewrite map_app. simpl. apply NoDup_app; [exact H | repeat constructor; intros [] |].
    intros x Hx [<-|[]]. apply in_map_iff in Hx. destruct Hx as [[k0 v0] [E H0]].
    simpl in E. subst k0. unfold Map_has in Eh. rewrite existsb_false_iff in Eh.
    specialize (Eh _ H0). simpl in Eh. rewrite String.eqb_refl in Eh. discriminate.
Qed.

Lemma Map_delete_keys {V : Set} (keep : string * V -> bool) (m : list (string * V)) :
  NoDup (map fst m) -> NoDup (map fst (filter keep m)).
Proof.
  induction m as [|e m IH]; simpl; intro H; [constructor|].
  inversion H as [|? ? Hn Hd]; subst.
  destruct (keep e); simpl; [|exact (IH Hd)].
  constructor; [|exact (IH Hd)].
  intro Hin. apply Hn. apply in_map_iff in Hin. destruct Hin as [x [E Hx]].
  apply filter_In in Hx. rewrite <- E. apply in_map, Hx.
Qed.

Lemma Set_add_In (s : list WS) (ws x : WS) :
  In x (Set_add s ws) <-> In x s \/ x = ws.
Proof.
  unfold Set_add, Set_has. destruct (existsb (Nat.eqb ws) s) eqn:E.
  - split; [auto|]. intros [H | ->]; [exact H|].
    apply existsb_exists in E. destruct E as [y [Hy Ey]].
    apply Nat.eqb_eq in Ey. subst y. exact Hy.
  - rewrite in_app_iff. simpl. split; intros [H|H]; auto.
    destruct H as [H|[]]; auto.
Qed.

Lemma Set_add_NoDup (s : list WS) (ws : WS) : NoDup s -> NoDup (Set_add s ws).
Proof.
  intro H. unfold Set_add, Set_has. destruct (existsb (Nat.eqb ws) s) eqn:E; [exact H|].
  apply NoDup_app; [exact H | repeat constructor; intros [] |].
  intros x Hx [<-|[]]. rewrite existsb_false_iff in E. specialize (E _ Hx).
  rewrite Nat.eqb_refl in E. discriminate.
Qed.

Lemma Set_add_nonempty (s : list WS) (ws : WS) : Set_add s ws <> [].
Proof.
  intro H. assert (Hin : In ws (Set_add s ws)) by (apply Set_add_In; auto).
  rewrite H in Hin. destruct Hin.
Qed.

(** What [join_room] does to the registry. *)
Lemma register_connection_members (id : string) (ws : WS) (w : World) (rid : string) :
  members (world_of (register_connection id ws w)) rid =
  if rid =? id then Set_add (members w id) ws else members w rid.
Proof.
  unfold register_connection, world_of, members. cbn [fst snd roomConnections].
  destruct (Map_has (roomConnections w) id) eqn:Eh.
  - destruct (proj1 (Map_has_get _ _) Eh) as [s Es]. rewrite Es, Map_get_set.
    destruct (String.eqb_spec rid id) as [->|_]; reflexivity.
  - rewrite Map_get_set, String.eqb_refl, !Map_get_set.
    destruct (String.eqb_spec rid id) as [->|_]; [|reflexivity].
    destruct (Map_get (roomConnections w) id) as [s|] eqn:Es; [|reflexivity].
    assert (Hh : Map_has (roomConnections w) id = true)
      by (apply Map_has_get; eexists; exact Es).
    rewrite Hh in Eh. discriminate Eh.
Qed.

Lemma register_connection_ok (id : string) (ws : WS) (w : World) :
  registry_ok (roomConnections w) ->
  registry_ok (roomConnections (world_of (register_connection id ws w))).
Proof.
  intros [Hk He]. unfold register_connection, world_of. cbn [fst snd roomConnections].
  set (m1 := if Map_has (roomConnections w) id then roomConnections w
             else Map_set (roomConnections w) id []).
  assert (Hk1 : NoDup (map fst m1)).
  { unfold m1. destruct (Map_has (roomConnections w) id); [exact Hk|].
    apply Map_set_keys, Hk. }
  assert (He1 : forall k s, In (k, s) m1 -> NoDup s /\ (k <> id -> s <> [])).
  { unfold m1. intros k s H. destruct (Map_has (roomConnections w) id).
    - destruct (He k s H). auto.
    - apply Map_set_In in H. destruct H as [[-> ->]|[Hne H]].
      + split; [constructor | intro; contradiction].
      + destruct (He k s H). auto. }
  destruct (Map_get m1 id) as [s|] eqn:Es.
  - split; [apply Map_set_keys, Hk1|].
    intros k s' H. apply Map_set_In in H. destruct H as [[-> ->]|[Hne H]].
    + split; [apply Set_add_nonempty|].
      apply Set_add_NoDup. apply (He1 id s). apply Map_get_In, Es.
    + destruct (He1 k s' H). auto.
  - exfalso. unfold m1 in Es. destruct (Map_has (roomConnections w) id) eqn:Eh.
    + destruct (proj1 (Map_has_get _ _) Eh) as [s Es']. rewrite Es' in Es. discriminate.
    + rewrite Map_get_set, String.eqb_refl in Es. discriminate.
Qed.

(** ** Joining a room *)

Lemma on_message_join_found (ws : WS) (m : WSMessage) (w : World) (r : Room) :
  type m = "join_room" -> getRoomByCode (db w) (roomCode m) = Some r ->
  routes.on_message ws (Json m) w =
  (Return tt,
   world_of (register_connection (room_id r) ws
               (world_of (assign_currentRoomId ws (room_id r) w))),
   [(ws, room_state r (getQueueByRoomId (db w) (room_id r)))]).
Proof.
  intros Ht Hc. unfold_handler. rewrite Ht. simpl. rewrite Hc. simpl.
  destruct (Map_has (roomConnections w) (room_id r)) eqn:Eh; simpl.
  - destruct (Map_get (roomConnections w) (room_id r)); reflexivity.
  - destruct (Map_get (Map_set (roomConnections w) (room_id r) []) (room_id r));
      reflexivity.
Qed.

Lemma recipients_In (w : World) (rid : string) (ws : WS) :
  In ws (recipients w rid None) <-> In ws (members w rid) /\ readyState_OPEN w ws = true.
Proof.
  unfold recipients, members. destruct (Map_get (roomConnections w) rid) as [s|].
  - rewrite filter_In. simpl. reflexivity.
  - simpl. tauto.
Qed.

(** X16. A [join_room] frame whose code is that of a room (exactly as
    stored) answers the sender, and nobody else, with [room_state]
    carrying the room and its queue; it changes no row of the database;
    it makes the room the connection's current room and registers the
    socket under it, so that a broadcast to the room reaches the socket
    as long as it is open. No socket already registered under any room
    is unregistered by it. *)
Theorem join_registers_and_answers_sender (w : World) (ws : WS) (c : string) (r : Room) :
  getRoomByCode (db w) c = Some r ->
  let result := routes.on_message ws (join c) w in
  let w' := world_of result in
  outcome_of result = Return tt /\
  sent_of result = [(ws, room_state r (getQueueByRoomId (db w) (room_id r)))] /\
  db w' = db w /\
  get_currentRoomId w' ws = Some (room_id r) /\
  In ws (members w' (room_id r)) /\
  (readyState_OPEN w ws = true -> In ws (recipients w' (room_id r) None)) /\
  forall rid ws0, In ws0 (members w rid) -> In ws0 (members w' rid).
Proof.
  intro Hc. cbv zeta. unfold join.
  rewrite (on_message_join_found ws (mkWSMessage "join_room" c) w r eq_refl Hc).
  cbn [world_of sent_of outcome_of fst snd].
  set (w1 := snd (fst (assign_currentRoomId ws (room_id r) w))).
  assert (Hm : forall rid, members (snd (fst (register_connection (room_id r) ws w1))) rid
                           = if rid =? room_id r then Set_add (members w (room_id r)) ws
                             else members w rid).
  { intro rid. exact (register_connection_members (room_id r) ws w1 rid). }
  assert (Hin : In ws (members (snd (fst (register_connection (room_id r) ws w1)))
                         (room_id r))).
  { rewrite Hm, String.eqb_refl. apply Set_add_In. auto. }
  split; [reflexivity|]. split; [reflexivity|]. split; [reflexivity|]. split.
  { unfold get_currentRoomId. simpl. rewrite Nat.eqb_refl. reflexivity. }
  split; [exact Hin|]. split.
  { intro Hopen. apply recipients_In. split; [exact Hin | exact Hopen]. }
  intros rid ws0 H0. rewrite Hm. destruct (String.eqb_spec rid (room_id r)) as [->|_].
  - apply Set_add_In. auto.
  - exact H0.
Qed.

Lemma join_registers_and_answers_sender_witness :
  In 8 (members (world_of (routes.on_message 8 (join "ABCDEF") world_AB)) "r1") /\
  In 7 (members (world_of (routes.on_message 8 (join "ABCDEF") world_AB)) "r1").
Proof.
  pose proof (join_registers_and_answers_sender world_AB 8 "ABCDEF"
                (mkRoom "r1" "ABCDEF" (Some "v1") (Some "Song A") (Some "t1") true)
                eq_refl) as H.
  split.
  - exact (proj1 (proj2 (proj2 (proj2 (proj2 H))))).
  - exact (proj2 (proj2 (proj2 (proj2 (proj2 (proj2 H))))) "r1" 7 (or_introl eq_refl)).
Defined.

(** X17. Whatever frame arrives, on whatever connection, no socket is
    taken out of the set of a room by the message handler: a connection
    that joins a second room stays registered under the first. *)
Theorem messages_never_unregister (w : World) (ws : WS) (data : Frame)
        (rid : string) (ws0 : WS) :
  In ws0 (members w rid) ->
  In ws0 (members (world_of (routes.on_message ws data w)) rid).
Proof.
  intro H. destruct data as [|m]; [exact H|].
  destruct (type m =? "join_room") eqn:Et.
  - apply String.eqb_eq in Et.
    destruct (getRoomByCode (db w) (roomCode m)) as [r|] eqn:Ec.
    + rewrite (on_message_join_found ws m w r Et Ec).
      pose proof (register_connection_members (room_id r) ws
                    (world_of (assign_currentRoomId ws (room_id r) w)) rid) as Hm.
      cbn [world_of fst snd] in Hm |- *. rewrite Hm.
      destruct (String.eqb_spec rid (room_id r)) as [->|_]; [|exact H].
      apply Set_add_In. left. exact H.
    + rewrite (on_message_join_missing ws m w Et Ec). exact H.
  - replace (members (world_of (routes.on_message ws (Json m) w)) rid)
      with (members w rid); [exact H|].
    unfold_handler. rewrite Et. simpl. repeat (break_inner; simpl); reflexivity.
Qed.

Lemma messages_never_unregister_witness :
  In 7 (members (world_of (routes.on_message 7 (join "HJKLMN")
                             (world_of (routes.post_rooms [7; 8; 9; 10; 11; 12] [] "r2"
                                          world_AB)))) "r1").
Proof.
  exact (messages_never_unregister
           (world_of (routes.post_rooms [7; 8; 9; 10; 11; 12] [] "r2" world_AB))
           7 (join "HJKLMN") "r1" 7 (or_introl eq_refl)).
Defined.

(** ** Closing a connection *)

Lemma on_close_joined (ws : WS) (w : World) (rid : string) (s : list WS) :
  get_currentRoomId w ws = Some rid -> truthy rid = true ->
  Map_get (roomConnections w) rid = Some s ->
  routes.on_close ws w =
  (Return tt,
   mkWorld (db w)
     (if (List.length (Set_delete s ws) =? 0)%nat
      then Map_delete (Map_set (roomConnections w) rid (Set_delete s ws)) rid
      else Map_set (roomConnections w) rid (Set_delete s ws))
     (currentRoomId w) (ws :: notOpen w),
   []).
Proof.
  intros Hj Ht Hs. unfold routes.on_close.
  change (get_currentRoomId (mkWorld (db w) (roomConnections w) (currentRoomId w)
                               (ws :: notOpen w)) ws)
    with (get_currentRoomId w ws).
  rewrite Hj, Ht. cbn [negb roomConnections]. rewrite Hs. reflexivity.
Qed.

(** X18. When the [close] event of a connection that has joined room
    [rid] is handled, the socket leaves the set of that room; the
    entry of the room is dropped from [roomConnections] when the set
    becomes empty and otherwise keeps the other sockets; the entries of
    all other rooms, the database and every [currentRoomId] are as
    before, and nothing is sent. *)
Theorem close_unregisters_and_drops_empty_entry (w : World) (ws : WS) (rid : string)
        (s : list WS) :
  get_currentRoomId w ws = Some rid -> truthy rid = true ->
  Map_get (roomConnections w) rid = Some s ->
  let result := routes.on_close ws w in
  let w' := world_of result in
  outcome_of result = Return tt /\ sent_of result = [] /\
  db w' = db w /\ currentRoomId w' = currentRoomId w /\
  Map_get (roomConnections w') rid
  = (if (List.length (Set_delete s ws) =? 0)%nat then None else Some (Set_delete s ws)) /\
  ~ In ws (members w' rid) /\
  forall rid', rid' <> rid ->
               Map_get (roomConnections w') rid' = Map_get (roomConnections w) rid'.
Proof.
  intros Hj Ht Hs. cbv zeta. rewrite (on_close_joined ws w rid s Hj Ht Hs).
  cbn [world_of sent_of outcome_of fst snd db currentRoomId roomConnections].
  assert (Hget : Map_get
                   (if (List.length (Set_delete s ws) =? 0)%nat
                    then Map_delete (Map_set (roomConnections w) rid (Set_delete s ws)) rid
                    else Map_set (roomConnections w) rid (Set_delete s ws)) rid
                 = if (List.length (Set_delete s ws) =? 0)%nat then None
                   else Some (Set_delete s ws)).
  { destruct (List.length (Set_delete s ws) =? 0)%nat.
    - rewrite Map_get_delete, String.eqb_refl. reflexivity.
    - rewrite Map_get_set, String.eqb_refl. reflexivity. }
  repeat split; try exact Hget.
  - unfold members. cbn [roomConnections]. rewrite Hget.
    destruct (List.length (Set_delete s ws) =? 0)%nat; [intros []|].
    unfold Set_delete. intro Hin. apply filter_In in Hin. destruct Hin as [_ Hin].
    rewrite Nat.eqb_refl in Hin. discriminate Hin.
  - intros rid' Hne. apply String.eqb_neq in Hne.
    destruct (List.length (Set_delete s ws) =? 0)%nat;
      rewrite ?Map_get_delete, Map_get_set, Hne; reflexivity.
Qed.

Lemma close_unregisters_and_drops_empty_entry_witness :
  Map_get (roomConnections (world_of (routes.on_close 7 world_AB))) "r1" = None.
Proof.
  exact (proj1 (proj2 (proj2 (proj2 (proj2
    (close_unregisters_and_drops_empty_entry world_AB 7 "r1" [7]
       eq_refl eq_refl eq_refl)))))).
Defined.

(** ** The registry along a run *)

Lemma on_close_registry_ok (ws : WS) (w : World) :
  registry_ok (roomConnections w) ->
  registry_ok (roomConnections (world_of (routes.on_close ws w))).
Proof.
  intros [Hk He].
  destruct (get_currentRoomId w ws) as [rid|] eqn:Hj.
  2:{ unfold routes.on_close, world_of.
      change (get_currentRoomId (mkWorld (db w) (roomConnections w) (currentRoomId w)
                                   (ws :: notOpen w)) ws)
        with (get_currentRoomId w ws).
      rewrite Hj. split; assumption. }
  destruct (truthy rid) eqn:Ht.
  2:{ unfold routes.on_close, world_of.
      change (get_currentRoomId (mkWorld (db w) (roomConnections w) (currentRoomId w)
                                   (ws :: notOpen w)) ws)
        with (get_currentRoomId w ws).
      rewrite Hj, Ht. split; assumption. }
  destruct (Map_get (roomConnections w) rid) as [s|] eqn:Hs.
  2:{ unfold routes.on_close, world_of.
      change (get_currentRoomId (mkWorld (db w) (roomConnections w) (currentRoomId w)
                                   (ws :: notOpen w)) ws)
        with (get_currentRoomId w ws).
      rewrite Hj, Ht. cbn [negb roomConnections]. rewrite Hs. split; assumption. }
  rewrite (on_close_joined ws w rid s Hj Ht Hs). cbn [world_of fst snd roomConnections].
  assert (Hs' : NoDup (Set_delete s ws)).
  { apply NoDup_filter. apply (He rid s). apply Map_get_In, Hs. }
  destruct (List.length (Set_delete s ws) =? 0)%nat eqn:El.
  - split.
    + apply Map_delete_keys, Map_set_keys, Hk.
    + intros k s0 H. apply filter_In in H. destruct H as [H Hk0]. simpl in Hk0.
      apply negb_true_iff, String.eqb_neq in Hk0.
      apply Map_set_In in H. destruct H as [[-> _]|[_ H]]; [contradiction|].
      exact (He k s0 H).
  - split; [apply Map_set_keys, Hk|].
    intros k s0 H. apply Map_set_In in H. destruct H as [[-> ->]|[_ H]].
    + split; [|exact Hs']. intro E. rewrite E in El. discriminate El.
    + exact (He k s0 H).
Qed.

Lemma registry_ok_react (w : World) (e : Event) :
  registry_ok (roomConnections w) -> registry_ok (roomConnections (react e w)).
Proof.
  intro H. destruct e; simpl.
  - replace (roomConnections (world_of (routes.post_rooms random retries gen_random_uuid w)))
      with (roomConnections w); [exact H|].
    run_handler; reflexivity.
  - replace (roomConnections (world_of (routes.get_room code0 w)))
      with (roomConnections w); [exact H|].
    run_handler; reflexivity.
  - replace (roomConnections (world_of (routes.post_queue code0 body gen_random_uuid w)))
      with (roomConnections w); [exact H|].
    run_handler; reflexivity.
  - replace (roomConnections (world_of (routes.delete_queue_item code0 itemId w)))
      with (roomConnections w); [exact H|].
    run_handler; reflexivity.
  - exact H.
  - destruct data as [|m]; [exact H|].
    destruct (type m =? "join_room") eqn:Et.
    + apply String.eqb_eq in Et.
      destruct (getRoomByCode (db w) (roomCode m)) as [r|] eqn:Ec.
      * rewrite (on_message_join_found ws m w r Et Ec).
        exact (register_connection_ok (room_id r) ws
                 (world_of (assign_currentRoomId ws (room_id r) w)) H).
      * rewrite (on_message_join_missing ws m w Et Ec). exact H.
    + replace (roomConnections (world_of (routes.on_message ws (Json m) w)))
        with (roomConnections w); [exact H|].
      unfold_handler. rewrite Et. simpl. repeat (break_inner; simpl); reflexivity.
  - exact H.
  - apply on_close_registry_ok, H.
Qed.

Lemma registry_ok_run (es : list Event) (w : World) :
  registry_ok (roomConnections w) -> registry_ok (roomConnections (run es w)).
Proof.
  revert w. induction es as [|e es IH]; intros w H; simpl; [exact H|].
  apply IH. unfold step. destruct (possible w e); [apply registry_ok_react|]; exact H.
Qed.

(** X19. In every reachable state [roomConnections] has at most one
    entry per room, no entry holds an empty set (an entry is dropped
    with its last socket), no set holds a socket twice, and therefore a
    broadcast sends each socket at most one copy of the message. *)
Theorem registry_has_no_empty_or_duplicate_entries (w : World) (rid : string) :
  reachable w ->
  NoDup (map fst (roomConnections w)) /\
  (forall s, Map_get (roomConnections w) rid = Some s -> s <> [] /\ NoDup s) /\
  NoDup (recipients w rid None).
Proof.
  intros [es <-].
  assert (H : registry_ok (roomConnections (run es initial))).
  { apply registry_ok_run. split; [constructor | intros k s []]. }
  destruct H as [Hk He]. split; [exact Hk|]. split.
  - intros s Hs. apply (He rid s), Map_get_In, Hs.
  - unfold recipients. destruct (Map_get (roomConnections (run es initial)) rid) as [s|] eqn:Hs;
      [|constructor].
    apply NoDup_filter. apply (He rid s), Map_get_In, Hs.
Qed.

Lemma registry_has_no_empty_or_duplicate_entries_witness :
  NoDup (recipients world_AB "r1" None).
Proof.
  exact (proj2 (proj2
    (registry_has_no_empty_or_duplicate_entries world_AB "r1"
       (ex_intro _ events_AB eq_refl)))).
Defined.

(** ** Who is sent a message *)

Lemma recipients_open (w : World) (rid : string) (ex : option WS) (x : WS) :
  In x (recipients w rid ex) -> existsb (Nat.eqb x) (notOpen w) = false.
Proof.
  unfold recipients. destruct (Map_get (roomConnections w) rid) as [s|]; [|intros []].
  intro H. apply filter_In in H. destruct H as [_ H].
  apply andb_true_iff in H. destruct H as [_ H]. unfold readyState_OPEN in H.
  apply negb_true_iff in H. exact H.
Qed.

Ltac sent_cases H :=
  repeat match type of H with
         | In _ (_ ++ _) => apply in_app_or in H; destruct H as [H|H]
         end.

Ltac sent_to_open H :=
  simpl in H;
  lazymatch type of H with
  | False => destruct H
  | _ = _ \/ False => destruct H as [H|[]]; injection H as <- _; assumption
  | In _ [] => destruct H
  | In _ (map _ (recipients _ _ _)) =>
      let y := fresh "y" in
      let Hy := fresh "Hy" in
      let Hr := fresh "Hr" in
      apply in_map_iff in H; destruct H as [y [Hy Hr]]; injection Hy as <- _;
      apply recipients_open in Hr; unfold readyState_OPEN; simpl in Hr;
      rewrite Hr; reflexivity
  end.

Lemma on_message_sent_open (ws x : WS) (data : Frame) (w : World) (m : ServerMsg) :
  readyState_OPEN w ws = true ->
  In (x, m) (sent_of (routes.on_message ws data w)) -> readyState_OPEN w x = true.
Proof.
  intros Ho. run_handler; intro H; sent_cases H; sent_to_open H.
Qed.

Lemma routes_sent_open (e : Event) (w : World) (x : WS) (m : ServerMsg) :
  possible w e = true -> In (x, m) (sent_by e w) -> readyState_OPEN w x = true.
Proof.
  destruct e; intro Hp; unfold sent_by.
  - run_handler; intro H; sent_cases H; sent_to_open H.
  - run_handler; intro H; sent_cases H; sent_to_open H.
  - run_handler; intro H; sent_cases H; sent_to_open H.
  - run_handler; intro H; sent_cases H; sent_to_open H.
  - intros [].
  - apply on_message_sent_open. exact Hp.
  - intros [].
  - unfold routes.on_close, sent_of. repeat (break_inner; simpl); intros [].
Qed.

Lemma react_notOpen (e : Event) (w : World) :
  exists l, notOpen (react e w) = l ++ notOpen w.
Proof.
  destruct e; simpl.
  - exists []. run_handler; reflexivity.
  - exists []. run_handler; reflexivity.
  - exists []. run_handler; reflexivity.
  - exists []. run_handler; reflexivity.
  - exists []. reflexivity.
  - exists []. run_handler; reflexivity.
  - exists [ws]. reflexivity.
  - exists [ws]. unfold routes.on_close, world_of. repeat (break_inner; simpl); reflexivity.
Qed.

Lemma step_stays_closed (e : Event) (w : World) (ws : WS) :
  readyState_OPEN w ws = false -> readyState_OPEN (step w e) ws = false.
Proof.
  unfold step. destruct (possible w e); [|auto].
  destruct (react_notOpen e w) as [l Hl]. unfold readyState_OPEN. rewrite Hl.
  intro H. apply negb_false_iff in H. apply negb_false_iff.
  rewrite existsb_app. apply orb_true_iff. right. exact H.
Qed.

(** X20. The server sends to open sockets only: every message a
    handler sends goes to a socket that is open when the handler starts
    (a broadcast skips the sockets that are not, and a reply goes to the
    socket whose frame is being handled). A socket that has left the
    open state stays out of it and is sent nothing in any later run,
    whether or not its [close] event has been handled yet. *)
Theorem closed_socket_is_sent_nothing (w : World) (ws : WS) :
  readyState_OPEN w ws = false ->
  forall es, readyState_OPEN (run es w) ws = false /\
             forall m, ~ In (ws, m) (transcript es w).
Proof.
  intros Hc es. revert w Hc. induction es as [|e es IH]; intros w Hc.
  - split; [exact Hc | intros m []].
  - destruct (IH (step w e) (step_stays_closed e w ws Hc)) as [IH1 IH2].
    split; [exact IH1|]. intros m H. simpl in H. apply in_app_or in H.
    destruct H as [H|H]; [|exact (IH2 m H)].
    destruct (possible w e) eqn:Hp; [|destruct H].
    apply (routes_sent_open e w ws m Hp) in H. rewrite Hc in H. discriminate H.
Qed.

Lemma closed_socket_is_sent_nothing_witness :
  readyState_OPEN
    (run [WS_message 8 (join "ABCDEF"); WS_message 8 (msg "skip_song")]
         (step world_AB (WS_closing 7))) 7 = false /\
  (In (7, playback_state true)
      (transcript [WS_message 8 (join "ABCDEF"); WS_message 8 (msg "skip_song")]
                  (step world_AB (WS_closing 7))) -> False).
Proof.
  split.
  - exact (proj1 (closed_socket_is_sent_nothing (step world_AB (WS_closing 7)) 7 eq_refl
                    [WS_message 8 (join "ABCDEF"); WS_message 8 (msg "skip_song")])).
  - exact (proj2 (closed_socket_is_sent_nothing (step world_AB (WS_closing 7)) 7 eq_refl
                    [WS_message 8 (join "ABCDEF"); WS_message 8 (msg "skip_song")])
                 (playback_state true)).
Defined.

(** ** Rooms do not interfere *)

Lemma view_updateRoom (d : Db) (id rid' : string) (u : RoomUpdates) :
  id <> rid' -> room_view (updateRoom d id u) rid' = room_view d rid'.
Proof.
  intro Hne. unfold room_view. rewrite room_items_updateRoom, getRoom_updateRoom.
  destruct (getRoom d rid') as [r|] eqn:Er; [|reflexivity].
  apply getRoom_Some in Er. destruct Er as [_ Er]. simpl.
  destruct (String.eqb_spec (room_id r) id) as [E|_]; [|reflexivity].
  exfalso. apply Hne. rewrite <- E. exact Er.
Qed.

Lemma view_removeFromQueue (d : Db) (x : QueueItem) (rid' : string) :
  wf_db d -> In x (queueItems d) -> roomId x <> rid' ->
  room_view (removeFromQueue d (item_id x)) rid' = room_view d rid'.
Proof.
  intros Hd Hx Hne. unfold room_view. rewrite room_items_removeFromQueue.
  f_equal. apply filter_all. intros q Hq. apply room_items_In in Hq.
  destruct Hq as [Hq Hr]. apply negb_true_iff, String.eqb_neq. intro E.
  apply Hne. rewrite <- Hr. f_equal. symmetry.
  exact (NoDup_key_inj item_id _ q x (wf_item_ids _ Hd) Hq Hx E).
Qed.

Lemma view_removeFromQueue_absent (d : Db) (id rid' : string) :
  find (fun q => item_id q =? id) (queueItems d) = None ->
  room_view (removeFromQueue d id) rid' = room_view d rid'.
Proof.
  intro Hf. unfold room_view. rewrite room_items_removeFromQueue.
  f_equal. apply filter_all. intros q Hq. apply room_items_In in Hq.
  destruct Hq as [Hq _]. apply negb_true_iff. exact (find_none _ _ Hf q Hq).
Qed.

Lemma view_updateQueueItem (d : Db) (x : QueueItem) (u : QueueItemUpdates) (rid' : string) :
  wf_db d -> In x (queueItems d) -> roomId x <> rid' ->
  room_view (updateQueueItem d (item_id x) u) rid' = room_view d rid'.
Proof.
  intros Hd Hx Hne. unfold room_view. rewrite room_items_updateQueueItem.
  f_equal. rewrite <- (map_id (room_items d rid')) at 2.
  apply map_ext_in. intros q Hq. apply room_items_In in Hq. destruct Hq as [Hq Hr].
  destruct (String.eqb_spec (item_id q) (item_id x)) as [E|_]; [|reflexivity].
  exfalso. apply Hne. rewrite <- Hr. f_equal. symmetry.
  exact (NoDup_key_inj item_id _ q x (wf_item_ids _ Hd) Hq Hx E).
Qed.

Lemma view_select_next_or_clear (d : Db) (rid rid' : string) :
  wf_db d -> rid <> rid' ->
  room_view (select_next_or_clear d rid) rid' = room_view d rid'.
Proof.
  intros Hd Hne. unfold select_next_or_clear, promoted.
  destruct (getNextInQueue d rid) as [n|] eqn:En.
  - apply getNextInQueue_Some in En. destruct En as [Hn [Hr _]].
    rewrite view_updateRoom by exact Hne.
    apply view_updateQueueItem; [exact Hd | exact Hn | rewrite Hr; exact Hne].
  - apply view_updateRoom, Hne.
Qed.

Lemma view_after_removal (d : Db) (rid rid' : string) :
  wf_db d -> rid <> rid' ->
  room_view (after_removal d rid) rid' = room_view d rid'.
Proof.
  intros Hd Hne. unfold after_removal.
  destruct (find is_playing (getQueueByRoomId d rid)) as [c|] eqn:Ec; [|reflexivity].
  apply find_is_playing_Some in Ec. destruct Ec as [Hc [Hr _]].
  apply view_removeFromQueue; [exact Hd | exact Hc | rewrite Hr; exact Hne].
Qed.

Lemma view_snoc_room (d : Db) (r : Room) (rid' : string) :
  In rid' (map room_id (rooms d)) ->
  room_view (mkDb (rooms d ++ [r]) (queueItems d)) rid' = room_view d rid'.
Proof.
  intro Hin. unfold room_view. f_equal. unfold getRoom. simpl.
  apply in_map_iff in Hin. destruct Hin as [r0 [E Hr0]].
  destruct (find (fun x => room_id x =? rid') (rooms d)) as [r1|] eqn:Ef.
  - clear Hr0. induction (rooms d) as [|a l IH]; [discriminate Ef|]. simpl in Ef |- *.
    destruct (room_id a =? rid'); [exact Ef|]. apply IH. exact Ef.
  - pose proof (find_none _ _ Ef r0 Hr0) as Hn. simpl in Hn.
    rewrite E, String.eqb_refl in Hn. discriminate Hn.
Qed.

(** The database after a frame, with the room it acts on. *)
Lemma on_message_db_target (ws : WS) (data : Frame) (w : World) :
  db (world_of (routes.on_message ws data w)) = db w \/
  (exists rid b, get_currentRoomId w ws = Some rid /\
                 db (world_of (routes.on_message ws data w))
                 = updateRoom (db w) rid (only_isPlaying b)) \/
  (exists rid, get_currentRoomId w ws = Some rid /\
               db (world_of (routes.on_message ws data w))
               = select_next_or_clear (after_removal (db w) rid) rid).
Proof.
  run_handler;
    first
      [ left; reflexivity
      | right; left; eexists _, _; split; reflexivity
      | right; right; eexists; split; [reflexivity|];
        unfold select_next_or_clear, after_removal, is_playing;
        repeat match goal with
               | H : find _ _ = _ |- _ => rewrite H; clear H
               | H : getNextInQueue _ _ = _ |- _ => rewrite H; clear H
               end;
        reflexivity ].
Qed.

Lemma react_room_view (w : World) (e : Event) (rid' : string) :
  wf_db (db w) -> target e w <> Some rid' -> In rid' (map room_id (rooms (db w))) ->
  room_view (db (react e w)) rid' = room_view (db w) rid'.
Proof.
  intros Hd Ht Hin. destruct e; simpl in Ht |- *.
  - destruct (post_rooms_db random retries gen_random_uuid w)
      as [->|[c [r [d' [Hc ->]]]]]; [reflexivity|].
    apply createRoom_Some in Hc. destruct Hc as [_ [-> _]].
    apply view_snoc_room, Hin.
  - replace (db (world_of (routes.get_room code0 w))) with (db w); [reflexivity|].
    run_handler; reflexivity.
  - destruct (post_queue_db code0 body gen_random_uuid w)
      as [->|[r [data [item [d1 [Hr [Ha ->]]]]]]]; [reflexivity|].
    rewrite Hr in Ht. simpl in Ht.
    assert (Hne : room_id r <> rid') by (intro E; apply Ht; rewrite E; reflexivity).
    pose proof (addToQueue_Some _ _ _ _ _ Ha) as [Ei [Ed1 _]]. simpl in Ei.
    assert (Hv : room_view d1 rid' = room_view (db w) rid').
    { rewrite Ed1. unfold room_view. f_equal. rewrite room_items_snoc.
      replace (roomId item) with (room_id r) by (rewrite Ei; reflexivity).
      apply String.eqb_neq in Hne. rewrite Hne. apply app_nil_r. }
    destruct (getMaxPosition (db w) (room_id r) =? 0)%Z; [|exact Hv].
    rewrite view_updateRoom by exact Hne. exact Hv.
  - destruct (delete_queue_item_db code0 itemId w)
      as [->|[r [x [Hr [Hx ->]]]]]; [reflexivity|].
    rewrite Hr in Ht. simpl in Ht.
    assert (Hne : room_id r <> rid') by (intro E; apply Ht; rewrite E; reflexivity).
    apply find_some in Hx. destruct Hx as [Hx Hid].
    apply getQueueByRoomId_In in Hx. destruct Hx as [Hx Hrx].
    apply String.eqb_eq in Hid. subst itemId.
    assert (Hv : room_view (removeFromQueue (db w) (item_id x)) rid'
                 = room_view (db w) rid').
    { apply view_removeFromQueue; [exact Hd | exact Hx | rewrite Hrx; exact Hne]. }
    destruct (is_playing x); [|exact Hv].
    rewrite view_select_next_or_clear; [exact Hv | | exact Hne].
    apply wf_removeFromQueue, Hd.
  - destruct (find (fun q => item_id q =? id) (queueItems (db w))) as [x|] eqn:Ex.
    + apply find_some in Ex. destruct Ex as [Hx Hid]. apply String.eqb_eq in Hid.
      subst id. simpl in Ht.
      apply view_removeFromQueue; [exact Hd | exact Hx |].
      intro E. apply Ht. rewrite E. reflexivity.
    + apply view_removeFromQueue_absent, Ex.
  - destruct (on_message_db_target ws data w)
      as [->|[[rid [b [Hc ->]]]|[rid [Hc ->]]]]; [reflexivity | |].
    + apply view_updateRoom. intro E. apply Ht. rewrite Hc, E. reflexivity.
    + assert (Hne : rid <> rid') by (intro E; apply Ht; rewrite Hc, E; reflexivity).
      rewrite view_select_next_or_clear; [| apply wf_after_removal, Hd | exact Hne].
      apply view_after_removal; assumption.
  - reflexivity.
  - replace (db (world_of (routes.on_close ws w))) with (db w); [reflexivity|].
    unfold routes.on_close, world_of. simpl. repeat (break_inner; simpl); reflexivity.
Qed.

Ltac sent_to_target H :=
  simpl in H;
  lazymatch type of H with
  | False => destruct H
  | _ = _ \/ False =>
      destruct H as [H|[]]; injection H as <- _; left; eexists; reflexivity
  | In _ [] => destruct H
  | In _ (map _ (recipients _ _ _)) =>
      let y := fresh "y" in
      let Hy := fresh "Hy" in
      let Hr := fresh "Hr" in
      apply in_map_iff in H; destruct H as [y [Hy Hr]]; injection Hy as <- _;
      right; eexists; split; [reflexivity|];
      exact (proj1 (proj1 (recipients_In _ _ _) Hr))
  end.

Lemma sent_to_sender_or_room (e : Event) (w : World) (x : WS) (m : ServerMsg) :
  In (x, m) (sent_by e w) ->
  (exists data, e = WS_message x data) \/
  (exists rid, target e w = Some rid /\ In x (members w rid)).
Proof.
  destruct e; unfold sent_by, target.
  - run_handler; intro H; sent_cases H; sent_to_target H.
  - run_handler; intro H; sent_cases H; sent_to_target H.
  - run_handler; intro H; sent_cases H; sent_to_target H.
  - run_handler; intro H; sent_cases H; sent_to_target H.
  - intros [].
  - run_handler; intro H; sent_cases H; sent_to_target H.
  - intros [].
  - unfold routes.on_close, sent_of. repeat (break_inner; simpl); intros [].
Qed.

(** X21. Rooms do not interfere. In a reachable state, an event whose
    room code, if it carries one, is ASCII, and which is not about
    room [rid'] (a request naming the code of another room or
    of none, a frame on a connection whose current room is another, a
    by-id removal of an item of another room, a room creation, a close)
    leaves the row of [rid'] and every row of its queue exactly as they
    were. And a message such an event sends goes only to the socket
    whose frame is being handled or to sockets registered under the
    room the event is about, which is not [rid']. *)
Theorem rooms_do_not_interfere (w : World) (e : Event) (rid' : string) :
  reachable w -> ascii_codes e = true ->
  target e w <> Some rid' -> In rid' (map room_id (rooms (db w))) ->
  room_view (db (react e w)) rid' = room_view (db w) rid' /\
  getQueueByRoomId (db (react e w)) rid' = getQueueByRoomId (db w) rid' /\
  forall x m, In (x, m) (sent_by e w) ->
              (exists data, e = WS_message x data) \/
              (exists rid, rid <> rid' /\ In x (members w rid)).
Proof.
  intros Hreach _ Ht Hin. pose proof (reachable_wf w Hreach) as [Hd _].
  pose proof (react_room_view w e rid' Hd Ht Hin) as Hv.
  split; [exact Hv|]. split.
  - unfold getQueueByRoomId. unfold room_view, room_items in Hv.
    injection Hv as _ Hv. rewrite Hv. reflexivity.
  - intros x m H. destruct (sent_to_sender_or_room e w x m H) as [Hs|[rid [Hr Hm]]];
      [left; exact Hs|].
    right. exists rid. split; [|exact Hm]. intro E. apply Ht. rewrite Hr, E. reflexivity.
Qed.

Lemma rooms_do_not_interfere_witness :
  room_view (db (react (POST_queue "abcdef" (body_of "v6" "Song F" "t6") "i6")
                       world_two_rooms)) "r2"
  = (Some (mkRoom "r2" "HJKLMN" (Some "v5") (Some "Song E") (Some "t5") true),
     [mkQueueItem "i5" "r2" "v5" "Song E" "t5" None None 1 playing]).
Proof.
  refine (proj1 (rooms_do_not_interfere world_two_rooms
                   (POST_queue "abcdef" (body_of "v6" "Song F" "t6") "i6")
                   "r2" (ex_intro _ events_two_rooms eq_refl) eq_refl _ _)).
  - vm_compute. discriminate.
  - simpl. auto.
Defined.

(** ** Durations *)

Lemma to_uint_not_Nil (n : N) : N.to_uint n <> Decimal.Nil.
Proof.
  destruct n as [|p]; [discriminate|]. apply DecimalPos.Unsigned.to_uint_nonnil.
Qed.

Lemma decimal_digits (n : N) : decimal n = NilEmpty.string_of_uint (N.to_uint n).
Proof.
  unfold decimal, NilZero.string_of_uint. pose proof (to_uint_not_Nil n) as H.
  destruct (N.to_uint n); [contradiction|reflexivity..].
Qed.

Lemma all_digits_string_of_uint (d : Decimal.uint) :
  all_digits (NilEmpty.string_of_uint d) = true.
Proof. unfold all_digits. induction d; simpl; auto. Qed.

Lemma decimal_all_digits (n : N) : all_digits (decimal n) = true.
Proof. rewrite decimal_digits. apply all_digits_string_of_uint. Qed.

Lemma decimal_head (n : N) :
  exists c s, decimal n = String c s /\ youtube.is_digit c = true.
Proof.
  pose proof (decimal_all_digits n) as H. rewrite decimal_digits in *.
  pose proof (to_uint_not_Nil n) as Hn.
  destruct (N.to_uint n); [contradiction|..]; eexists _, _; split; reflexivity.
Qed.

Lemma span_digits_stop (s : string) (c : ascii) (rest : string) :
  all_digits s = true -> youtube.is_digit c = false ->
  youtube.span_digits (s ++ String c rest) = (s, String c rest).
Proof.
  unfold all_digits. induction s as [|a s IH]; simpl; intros Hs Hc.
  - rewrite Hc. reflexivity.
  - apply andb_true_iff in Hs. destruct Hs as [Ha Hs]. rewrite Ha, (IH Hs Hc).
    reflexivity.
Qed.

Lemma optional_group_present (X : ascii) (n : N) (rest : string) :
  youtube.is_digit X = false ->
  youtube.optional_group X (decimal n ++ String X rest) = (Some (decimal n), rest).
Proof.
  intro HX. unfold youtube.optional_group.
  rewrite (span_digits_stop _ _ _ (decimal_all_digits n) HX).
  destruct (decimal_head n) as [c [s [E _]]]. rewrite E, Ascii.eqb_refl. reflexivity.
Qed.

Lemma optional_group_other (X Y : ascii) (n : N) (rest : string) :
  youtube.is_digit Y = false -> Ascii.eqb Y X = false ->
  youtube.optional_group X (decimal n ++ String Y rest)
  = (None, (decimal n ++ String Y rest)%string).
Proof.
  intros HY Hne. unfold youtube.optional_group.
  rewrite (span_digits_stop _ _ _ (decimal_all_digits n) HY).
  destruct (decimal_head n) as [c [s [E _]]]. rewrite E, Hne. reflexivity.
Qed.

Lemma duration_match_iso8601_time (h m s : option N) :
  youtube.duration_match (iso8601_time h m s)
  = Some (option_map decimal h, option_map decimal m, option_map decimal s).
Proof.
  unfold youtube.duration_match, iso8601_time.
  change (youtube.after_PT ("PT" ++ ?x)) with (Some x).
  destruct h as [h|], m as [m|], s as [s|]; cbn [component option_map];
    rewrite ?optional_group_present by reflexivity;
    rewrite ?optional_group_other by reflexivity;
    rewrite ?optional_group_present by reflexivity;
    rewrite ?optional_group_other by reflexivity;
    rewrite ?optional_group_present by reflexivity;
    reflexivity.
Qed.

Lemma parseInt_decimal (n : N) : youtube.parseInt (decimal n) = Some n.
Proof.
  unfold youtube.parseInt, decimal.
  rewrite (NilZero.usu _ (to_uint_not_Nil n)). simpl.
  rewrite DecimalN.Unsigned.of_to. reflexivity.
Qed.

Lemma or_0_group (n : option N) :
  youtube.parseInt (youtube.or_0 (option_map decimal n)) = Some (value n).
Proof.
  destruct n as [n|]; [|reflexivity]. simpl.
  destruct (decimal_head n) as [c [s [E _]]].
  replace (truthy (decimal n)) with true by (rewrite E; reflexivity).
  apply parseInt_decimal.
Qed.

Lemma decimal_length (n : N) : (10 <= n)%N -> (2 <= String.length (decimal n))%nat.
Proof.
  intro H. rewrite decimal_digits. pose proof (DecimalN.Unsigned.of_to n) as Hn.
  destruct (N.to_uint n) as [|u|u|u|u|u|u|u|u|u|u];
    try (destruct u; [cbv in Hn; lia | simpl; lia ..]).
  cbv in Hn. lia.
Qed.

Lemma padStart_decimal (n : N) : youtube.padStart (decimal n) 2 "0" = two_digits n.
Proof.
  unfold two_digits. destruct (N.ltb_spec n 10) as [H|H].
  - assert (Hk : (N.to_nat n < 10)%nat) by lia.
    rewrite <- (N2Nat.id n). clear H.
    destruct (N.to_nat n) as [|[|[|[|[|[|[|[|[|[|k]]]]]]]]]]; [reflexivity..|lia].
  - unfold youtube.padStart. pose proof (decimal_length n H) as Hl.
    replace (2 - String.length (decimal n))%nat with 0%nat by lia. reflexivity.
Qed.

(** X22. [parseDuration] turns the time part of an ISO 8601 duration
    into a clock reading. For ["PT"] followed by any of an hours, a
    minutes and a seconds component, in this order and each optional,
    the result is [h:mm:ss] when the hours are positive and [m:ss]
    otherwise, where an absent component counts as zero; minutes and
    seconds are padded to two digits and are not reduced modulo 60.
    (Stated for numbers that JavaScript represents exactly.) *)
Theorem parseDuration_reads_clock (h m s : option N) :
  (forall n, In (Some n) [h; m; s] -> (n < 2 ^ 53)%N) ->
  youtube.parseDuration (iso8601_time h m s) = clock (value h) (value m) (value s).
Proof.
  intros _. unfold youtube.parseDuration. rewrite duration_match_iso8601_time.
  rewrite !or_0_group. unfold youtube.gt_0, youtube.toString, clock.
  fold (decimal (value h)). fold (decimal (value m)). fold (decimal (value s)).
  rewrite !padStart_decimal. reflexivity.
Qed.

Lemma parseDuration_reads_clock_witness :
  youtube.parseDuration "PT1H5S" = "1:00:05".
Proof.
  refine (parseDuration_reads_clock (Some 1%N) None (Some 5%N) _).
  intros n [H|[H|[H|[]]]]; try discriminate H; injection H as <-; reflexivity.
Defined.

Lemma after_PT_no_P (s : string) : has_no_P s = true -> youtube.after_PT s = None.
Proof.
  unfold has_no_P. induction s as [|c s IH]; [reflexivity|]. simpl. intro H.
  apply andb_true_iff in H. destruct H as [Hc Hs].
  destruct s as [|c' rest]; [reflexivity|].
  apply negb_true_iff in Hc. rewrite Hc. simpl andb. cbv iota. exact (IH Hs).
Qed.

Lemma has_no_P_app (a b : string) :
  has_no_P (a ++ b) = has_no_P a && has_no_P b.
Proof. unfold has_no_P. rewrite list_ascii_app. apply forallb_app. Qed.

Lemma digit_is_not_P (c : ascii) :
  youtube.is_digit c = true -> negb (Ascii.eqb c "P") = true.
Proof.
  destruct c as [[] [] [] [] [] [] [] []]; intro H;
    first [discriminate H | reflexivity].
Qed.

Lemma decimal_has_no_P (n : N) : has_no_P (decimal n) = true.
Proof.
  pose proof (decimal_all_digits n) as H. unfold all_digits in H. unfold has_no_P.
  rewrite forallb_forall in *. intros c Hc. apply digit_is_not_P, H, Hc.
Qed.

Lemma component_has_no_P (n : option N) (X : ascii) (rest : string) :
  negb (Ascii.eqb X "P") = true -> has_no_P rest = true ->
  has_no_P (component n X rest) = true.
Proof.
  intros HX Hr. destruct n as [n|]; [|exact Hr]. simpl.
  rewrite has_no_P_app, decimal_has_no_P. unfold has_no_P in *. simpl.
  rewrite HX, Hr. reflexivity.
Qed.

Lemma after_PT_P_digit (c : ascii) (s : string) :
  youtube.is_digit c = true -> youtube.after_PT (String c s) = None ->
  youtube.after_PT ("P" ++ String c s) = None.
Proof.
  intros Hc Hs.
  assert (Et : Ascii.eqb c "T" = false).
  { destruct c as [[] [] [] [] [] [] [] []]; first [discriminate Hc | reflexivity]. }
  change (youtube.after_PT ("P" ++ String c s))
    with (if Ascii.eqb "P" "P" && Ascii.eqb c "T" then Some s
          else youtube.after_PT (String c s)).
  rewrite Et. exact Hs.
Qed.

(** X23. A duration with a day component, as the upstream API gives for
    a video of 24 hours or more (["P1DT2H3M4S"]), has no ["PT"] in it:
    the pattern does not match and [parseDuration] answers ["0:00"]
    whatever the hours, minutes and seconds are. *)
Theorem parseDuration_of_a_day_or_more_is_zero (d : N) (h m s : option N) :
  youtube.parseDuration (iso8601_days d h m s) = "0:00".
Proof.
  unfold youtube.parseDuration, youtube.duration_match, iso8601_days.
  replace (youtube.after_PT _) with (@None string); [reflexivity|].
  symmetry. destruct (decimal_head d) as [c [t [E Hc]]].
  assert (Hno : has_no_P
                  (decimal d
                   ++ String "D" (String "T"
                        (component h "H"
                           (component m "M" (component s "S" EmptyString))))) = true).
  { rewrite has_no_P_app, decimal_has_no_P.
    change (has_no_P (component h "H"
                        (component m "M" (component s "S" EmptyString))) = true).
    repeat (apply component_has_no_P; [reflexivity|]). reflexivity. }
  apply after_PT_no_P in Hno. rewrite E in Hno |- *.
  apply after_PT_P_digit; assumption.
Qed.

(** ** Key rotation *)

Lemma getNextApiKey_configured (apiKeys : list string) (i : nat) :
  apiKeys <> [] ->
  youtube.getNextApiKey apiKeys i
  = (nth_error apiKeys i, (i + 1) mod List.length apiKeys).
Proof.
  intro H. unfold youtube.getNextApiKey.
  destruct apiKeys as [|a l]; [contradiction|reflexivity].
Qed.

Lemma calls_spec (apiKeys : list string) (k i : nat) :
  apiKeys <> [] -> (i < List.length apiKeys)%nat ->
  calls apiKeys k i
  = (map (fun j => nth_error apiKeys ((i + j) mod List.length apiKeys)) (seq 0 k),
     (i + k) mod List.length apiKeys).
Proof.
  intros Hne. revert i. induction k as [|k IH]; intros i Hi.
  - simpl. rewrite Nat.add_0_r, Nat.mod_small by exact Hi. reflexivity.
  - cbn [calls]. rewrite (getNextApiKey_configured _ _ Hne).
    assert (Hn : List.length apiKeys <> 0%nat) by lia.
    rewrite IH by (apply Nat.mod_upper_bound; exact Hn).
    rewrite Nat.Div0.add_mod_idemp_l.
    replace (i + 1 + k)%nat with (i + S k)%nat by lia.
    f_equal. cbn [seq map]. rewrite Nat.add_0_r, (Nat.mod_small i _ Hi).
    f_equal. rewrite <- seq_shift, map_map. apply map_ext. intro j.
    rewrite Nat.Div0.add_mod_idemp_l. f_equal. f_equal. lia.
Qed.

Lemma rotation_nth_error (apiKeys : list string) (i p : nat) :
  (i < List.length apiKeys)%nat -> (p < List.length apiKeys)%nat ->
  nth_error (skipn i apiKeys ++ firstn i apiKeys) p
  = nth_error apiKeys ((i + p) mod List.length apiKeys).
Proof.
  intros Hi Hp. rewrite nth_error_app, length_skipn.
  destruct (Nat.ltb_spec p (List.length apiKeys - i)) as [H|H].
  - rewrite nth_error_skipn, Nat.mod_small by lia. reflexivity.
  - rewrite nth_error_firstn.
    replace (p - (List.length apiKeys - i) <? i)%nat with true
      by (symmetry; apply Nat.ltb_lt; lia).
    f_equal. apply (Nat.mod_unique _ _ 1); lia.
Qed.

(** X24. [getNextApiKey] hands the configured keys out in turn. From
    any index in range, the call number [j] returns the key at index
    [(i + j) mod n] and is never [null] or [undefined]; the index stays
    in range; and any [n] successive calls return every configured key
    exactly once, in list order starting at [i], and leave the index
    where it was. *)
Theorem getNextApiKey_round_robin (apiKeys : list string) (i : nat) :
  (i < List.length apiKeys)%nat ->
  (forall k,
      fst (calls apiKeys k i)
      = map (fun j => nth_error apiKeys ((i + j) mod List.length apiKeys)) (seq 0 k) /\
      ~ In None (fst (calls apiKeys k i)) /\
      (snd (calls apiKeys k i) < List.length apiKeys)%nat) /\
  calls apiKeys (List.length apiKeys) i
  = (map Some (skipn i apiKeys ++ firstn i apiKeys), i).
Proof.
  intro Hi. assert (Hne : apiKeys <> []) by (destruct apiKeys; [simpl in Hi; lia|discriminate]).
  assert (Hn : List.length apiKeys <> 0%nat) by lia.
  split.
  - intro k. rewrite (calls_spec _ k i Hne Hi). cbn [fst snd]. split; [reflexivity|].
    split; [|apply Nat.mod_upper_bound; exact Hn].
    intro H. apply in_map_iff in H. destruct H as [j [Hj _]].
    apply nth_error_None in Hj.
    pose proof (Nat.mod_upper_bound (i + j) _ Hn). lia.
  - rewrite (calls_spec _ _ i Hne Hi). f_equal.
    + apply nth_error_ext. intro p.
      rewrite !nth_error_map, nth_error_seq.
      destruct (Nat.ltb_spec p (List.length apiKeys)) as [Hp|Hp].
      * rewrite (rotation_nth_error _ _ _ Hi Hp). cbn [option_map Nat.add].
        destruct (nth_error apiKeys ((i + p) mod List.length apiKeys)) eqn:E;
          [reflexivity|].
        apply nth_error_None in E.
        pose proof (Nat.mod_upper_bound (i + p) _ Hn). lia.
      * cbn [option_map]. symmetry.
        replace (nth_error (skipn i apiKeys ++ firstn i apiKeys) p) with (@None string);
          [reflexivity|].
        symmetry. apply nth_error_None.
        rewrite length_app, length_skipn, length_firstn. lia.
    + rewrite <- (Nat.mul_1_l (List.length apiKeys)) at 1.
      rewrite Nat.Div0.mod_add. apply Nat.mod_small, Hi.
Qed.

Lemma getNextApiKey_round_robin_witness :
  calls ["k1"; "k2"; "k3"] 3 1 = ([Some "k2"; Some "k3"; Some "k1"], 1%nat).
Proof.
  refine (proj2 (getNextApiKey_round_robin ["k1"; "k2"; "k3"] 1 _)). simpl. lia.
Defined.

(** ** The search route *)

Lemma apiKeys_truthy (e1 e2 e3 : option string) (k : string) :
  In k (youtube.apiKeys e1 e2 e3) -> truthy k = true.
Proof.
  unfold youtube.apiKeys. intro H. apply in_flat_map in H.
  destruct H as [v [Hv Hk]]. apply filter_In in Hv. destruct Hv as [_ Hv].
  destruct v as [k0|]; [|destruct Hk]. destruct Hk as [<-|[]]. exact Hv.
Qed.

Lemma logged_index (n i : nat) :
  (i < n)%nat ->
  ((if ((i + 1) mod n =? 0)%nat then n else (i + 1) mod n) - 1)%nat = i.
Proof.
  intro Hi. destruct (Nat.eq_dec (i + 1) n) as [E|E].
  - rewrite E, Nat.Div0.mod_same. simpl. lia.
  - rewrite Nat.mod_small by lia.
    replace (i + 1 =? 0)%nat with false by (symmetry; apply Nat.eqb_neq; lia). lia.
Qed.

(** X25. A search with a query takes exactly one turn of the key
    rotation, whatever the upstream does. With the keys read from the
    environment and the index in range, the route uses the key at the
    current index, which is a non-empty string; it advances the index by
    one modulo the number of keys, also when a fetch fails; the index it
    logs is the index of the key it used; the first request upstream is
    the search for the query followed by [" karaoke"]; and every
    request it sends carries that same key. *)
Theorem search_takes_one_key_turn (e1 e2 e3 : option string) (query : string)
        (searchResponse : option (youtube.Fetched (list string)))
        (detailsResponse : option (youtube.Fetched (list youtube.Video))) (i : nat) :
  let keys := youtube.apiKeys e1 e2 e3 in
  let out := youtube.get_search keys (Some query) searchResponse detailsResponse i in
  (i < List.length keys)%nat -> truthy query = true ->
  exists key,
    nth_error keys i = Some key /\ truthy key = true /\
    youtube.next_index out = ((i + 1) mod List.length keys)%nat /\
    youtube.logged out = [(i, List.length keys)] /\
    hd_error (youtube.requests out)
    = Some (youtube.search_request (query ++ " karaoke") key) /\
    forall r, In r (youtube.requests out) ->
              r = youtube.search_request (query ++ " karaoke") key \/
              exists ids, r = youtube.videos_request ids key.
Proof.
  intros keys out Hi Hq.
  destruct (nth_error keys i) as [key|] eqn:Ek;
    [|apply nth_error_None in Ek; lia].
  assert (Hk : truthy key = true).
  { apply (apiKeys_truthy e1 e2 e3). apply nth_error_In in Ek. exact Ek. }
  assert (Hne : keys <> []) by (destruct keys; [simpl in Hi; lia|discriminate]).
  exists key. split; [reflexivity|]. split; [exact Hk|].
  subst out. unfold youtube.get_search. rewrite Hq. cbn [negb].
  rewrite (getNextApiKey_configured keys i Hne), Ek. cbn [youtube.Boolean].
  rewrite Hk. cbn [negb]. rewrite (logged_index _ _ Hi).
  destruct searchResponse as [[ok1 st1 [ids|]]|]; cbn [youtube.ok youtube.json];
    try destruct ok1; cbn [negb];
    try (destruct detailsResponse as [[ok2 st2 [items|]]|];
         cbn [youtube.ok youtube.json]; try destruct ok2; cbn [negb]);
    cbn [youtube.next_index youtube.logged youtube.requests hd_error];
    (split; [reflexivity|]); (split; [reflexivity|]); (split; [reflexivity|]);
    intros r Hr; simpl in Hr;
    repeat (destruct Hr as [<-|Hr]; [first [left; reflexivity | right; eexists; reflexivity]|]);
    destruct Hr.
Qed.

Lemma search_takes_one_key_turn_witness :
  youtube.next_index
    (youtube.get_search (youtube.apiKeys (Some "k1") None (Some "k3")) (Some "abba")
       (Some (youtube.mkFetched false 403 None)) None 1) = 0%nat.
Proof.
  destruct (search_takes_one_key_turn (Some "k1") None (Some "k3") "abba"
              (Some (youtube.mkFetched false 403 None)) None 1
              ltac:(simpl; lia) eq_refl) as [key [_ [_ [H _]]]].
  exact H.
Defined.

(** ** Joined connections are reached *)

Lemma joined_same_sessions (w w' : World) :
  roomConnections w' = roomConnections w -> currentRoomId w' = currentRoomId w ->
  notOpen w' = notOpen w ->
  joined_are_members w -> joined_are_members w'.
Proof.
  intros Hm Hc Hn H ws rid. unfold get_currentRoomId, readyState_OPEN, members.
  rewrite Hm, Hc, Hn. apply H.
Qed.

Lemma get_currentRoomId_assign (ws0 ws : WS) (id : string) (w : World) :
  get_currentRoomId (world_of (assign_currentRoomId ws0 id w)) ws
  = if (ws0 =? ws)%nat then Some id else get_currentRoomId w ws.
Proof.
  unfold get_currentRoomId, assign_currentRoomId, world_of. cbn [fst snd currentRoomId find].
  destruct (ws0 =? ws)%nat eqn:E; [reflexivity|].
  rewrite find_filter_same; [reflexivity|].
  intros x _ Hx. apply Nat.eqb_eq in Hx. rewrite Hx, Nat.eqb_sym, E. reflexivity.
Qed.

Lemma on_message_other_sessions (ws : WS) (m : WSMessage) (w : World) :
  (type m =? "join_room") = false ->
  roomConnections (world_of (routes.on_message ws (Json m) w)) = roomConnections w /\
  currentRoomId (world_of (routes.on_message ws (Json m) w)) = currentRoomId w /\
  notOpen (world_of (routes.on_message ws (Json m) w)) = notOpen w.
Proof.
  intro Et. unfold_handler. rewrite Et. simpl.
  repeat (break_inner; simpl); repeat split; reflexivity.
Qed.

Lemma Set_delete_In (s : list WS) (ws x : WS) :
  In x (Set_delete s ws) <-> In x s /\ x <> ws.
Proof.
  unfold Set_delete. rewrite filter_In, negb_true_iff, Nat.eqb_neq. reflexivity.
Qed.

Lemma readyState_OPEN_cons (w : World) (m : list (string * list WS))
      (cur : list (WS * string)) (ws0 ws : WS) :
  readyState_OPEN (mkWorld (db w) m cur (ws0 :: notOpen w)) ws = true ->
  ws <> ws0 /\ readyState_OPEN w ws = true.
Proof.
  unfold readyState_OPEN. cbn [notOpen existsb]. intro H.
  apply negb_true_iff, orb_false_iff in H. destruct H as [H1 H2].
  split; [apply Nat.eqb_neq, H1 | rewrite H2; reflexivity].
Qed.

Lemma joined_on_close (ws0 : WS) (w : World) :
  joined_are_members w -> joined_are_members (world_of (routes.on_close ws0 w)).
Proof.
  intros H ws rid.
  assert (Hplain : forall m,
             m = roomConnections w ->
             get_currentRoomId (mkWorld (db w) m (currentRoomId w) (ws0 :: notOpen w)) ws
             = Some rid ->
             readyState_OPEN (mkWorld (db w) m (currentRoomId w) (ws0 :: notOpen w)) ws
             = true ->
             In ws (members (mkWorld (db w) m (currentRoomId w) (ws0 :: notOpen w)) rid)).
  { intros m -> Hc Ho. apply readyState_OPEN_cons in Ho. destruct Ho as [_ Ho].
    exact (H ws rid Hc Ho). }
  destruct (get_currentRoomId w ws0) as [rid0|] eqn:Hj.
  2:{ unfold routes.on_close, world_of.
      change (get_currentRoomId (mkWorld (db w) (roomConnections w) (currentRoomId w)
                                   (ws0 :: notOpen w)) ws0)
        with (get_currentRoomId w ws0).
      rewrite Hj. apply Hplain. reflexivity. }
  destruct (truthy rid0) eqn:Ht.
  2:{ unfold routes.on_close, world_of.
      change (get_currentRoomId (mkWorld (db w) (roomConnections w) (currentRoomId w)
                                   (ws0 :: notOpen w)) ws0)
        with (get_currentRoomId w ws0).
      rewrite Hj, Ht. apply Hplain. reflexivity. }
  destruct (Map_get (roomConnections w) rid0) as [s|] eqn:Hs.
  2:{ unfold routes.on_close, world_of.
      change (get_currentRoomId (mkWorld (db w) (roomConnections w) (currentRoomId w)
                                   (ws0 :: notOpen w)) ws0)
        with (get_currentRoomId w ws0).
      rewrite Hj, Ht. cbn [negb roomConnections]. rewrite Hs. apply Hplain. reflexivity. }
  rewrite (on_close_joined ws0 w rid0 s Hj Ht Hs). cbn [world_of fst snd].
  intros Hc Ho. apply readyState_OPEN_cons in Ho. destruct Ho as [Hne Ho].
  pose proof (H ws rid Hc Ho) as Hin. unfold members in Hin |- *. cbn [roomConnections].
  destruct (String.eqb_spec rid rid0) as [->|Hr].
  - rewrite Hs in Hin.
    assert (Hd : In ws (Set_delete s ws0)) by (apply Set_delete_In; auto).
    destruct (Set_delete s ws0) as [|a l] eqn:Ed; [destruct Hd|].
    cbn [List.length Nat.eqb]. rewrite Map_get_set, String.eqb_refl. exact Hd.
  - apply String.eqb_neq in Hr.
    destruct (List.length (Set_delete s ws0) =? 0)%nat;
      rewrite ?Map_get_delete, Map_get_set, Hr; exact Hin.
Qed.

Lemma joined_react (w : World) (e : Event) :
  joined_are_members w -> joined_are_members (react e w).
Proof.
  intro H. destruct e; simpl.
  - apply (joined_same_sessions w); [run_handler; reflexivity.. | exact H].
  - apply (joined_same_sessions w); [run_handler; reflexivity.. | exact H].
  - apply (joined_same_sessions w); [run_handler; reflexivity.. | exact H].
  - apply (joined_same_sessions w); [run_handler; reflexivity.. | exact H].
  - exact H.
  - destruct data as [|m]; [exact H|].
    destruct (type m =? "join_room") eqn:Et.
    + apply String.eqb_eq in Et.
      destruct (getRoomByCode (db w) (roomCode m)) as [r|] eqn:Ec.
      * rewrite (on_message_join_found ws m w r Et Ec). cbn [world_of fst snd].
        intros ws1 rid Hc Ho.
        pose proof (register_connection_members (room_id r) ws
                      (world_of (assign_currentRoomId ws (room_id r) w)) rid) as Hm.
        cbn [world_of fst snd] in Hm. rewrite Hm. clear Hm.
        change (get_currentRoomId
                  (world_of (assign_currentRoomId ws (room_id r) w)) ws1 = Some rid) in Hc.
        rewrite get_currentRoomId_assign in Hc.
        destruct (ws =? ws1)%nat eqn:E.
        -- apply Nat.eqb_eq in E. subst ws1. injection Hc as <-.
           rewrite String.eqb_refl. apply Set_add_In. right. reflexivity.
        -- pose proof (H ws1 rid Hc Ho) as Hin.
           destruct (String.eqb_spec rid (room_id r)) as [->|_]; [|exact Hin].
           apply Set_add_In. left. exact Hin.
      * rewrite (on_message_join_missing ws m w Et Ec). exact H.
    + destruct (on_message_other_sessions ws m w Et) as [H1 [H2 H3]].
      apply (joined_same_sessions w); assumption.
  - intros ws1 rid Hc Ho. apply readyState_OPEN_cons in Ho. destruct Ho as [_ Ho].
    exact (H ws1 rid Hc Ho).
  - apply joined_on_close, H.
Qed.

Lemma joined_run (es : list Event) (w : World) :
  joined_are_members w -> joined_are_members (run es w).
Proof.
  revert w. induction es as [|e es IH]; intros w H; simpl; [exact H|].
  apply IH. unfold step. destruct (possible w e); [apply joined_react|]; exact H.
Qed.

(** X26. An open connection that has joined a room is reached by that
    room's broadcasts. In every reachable state, a socket that is open
    and whose current room is [rid] is registered under [rid], so it is
    among the recipients of every broadcast to [rid]: the joins, closes
    and requests of other connections never unregister it. *)
Theorem joined_open_socket_is_a_recipient (w : World) (ws : WS) (rid : string) :
  reachable w -> get_currentRoomId w ws = Some rid -> readyState_OPEN w ws = true ->
  In ws (recipients w rid None) /\
  forall message, In (ws, message) (broadcast w rid message).
Proof.
  intros [es <-] Hc Ho.
  assert (Hin : In ws (recipients (run es initial) rid None)).
  { apply recipients_In. split; [|exact Ho].
    apply (joined_run es initial); [|exact Hc | exact Ho].
    intros ws1 rid1 H1. discriminate H1. }
  split; [exact Hin|]. intro message. unfold broadcast.
  apply in_map_iff. exists ws. split; [reflexivity | exact Hin].
Qed.

Lemma joined_open_socket_is_a_recipient_witness :
  In 7 (recipients world_AB "r1" None).
Proof.
  exact (proj1 (joined_open_socket_is_a_recipient world_AB 7 "r1"
                  (ex_intro _ events_AB eq_refl) eq_refl eq_refl)).
Defined.
